(** * vite-plugin-vue 4.4.0: descriptor cache, hot-update classifier,
      block addresses and source-map concatenation

    A shallow embedding of
    - [utils/descriptorCache.ts]  (the three descriptor caches),
    - [handleHotUpdate.ts]        (block comparison and the HMR classifier),
    - [main.ts]                   ([attrsToQuery], the style request built by
                                   [genStyleCode], the source-map merge at the
                                   end of [transformMain]),
    followed by the properties proved about them.

    Conventions of the embedding.
    - A JavaScript string is a [string]; each character stands for one UTF-16
      code unit below 256, so [String.length] is [.length].
    - A [Map<string, _>] is a [gmap string _].
    - A plain object used as an attribute map is the list of its own
      properties in iteration order (keys are pairwise distinct in any
      object; theorems that need it say so).
    - [undefined] / [null] is [None]; an exception is a [Throw] completion.
    - Module-level mutable state is threaded explicitly ([CacheState]).
    - Live modules are references into the host's module graph, so that a
      [Set<ModuleNode>] compares by identity as it does in JavaScript. *)

From Stdlib Require Import Ascii DecimalString.
From stdpp Require Import base strings gmap list.

(* ===================================================================== *)
(** * Part I: the embedding                                               *)
(* ===================================================================== *)

(** ** JavaScript string and RegExp primitives *)

Definition char_code (c : ascii) : nat := nat_of_ascii c.

(** [\w] of a RegExp without the [u] / [i] flags. *)
Definition is_word_char (c : ascii) : bool :=
  let n := char_code c in
  ((48 <=? n) && (n <=? 57)) || ((65 <=? n) && (n <=? 90))
  || ((97 <=? n) && (n <=? 122)) || (n =? 95).

(** The characters [.] does not match (those below 256). *)
Definition is_line_terminator (c : ascii) : bool :=
  (char_code c =? 10) || (char_code c =? 13).

Fixpoint string_forall (p : ascii → bool) (s : string) : bool :=
  match s with
  | EmptyString => true
  | String c r => p c && string_forall p r
  end.

(** [s.startsWith(p)] *)
Definition startsWith (s p : string) : bool := String.prefix p s.

(** [s.includes(sub)] *)
Fixpoint includes (s sub : string) : bool :=
  startsWith s sub ||
  match s with
  | EmptyString => false
  | String _ r => includes r sub
  end.

(** [s.endsWith(suf)] *)
Fixpoint endsWith (s suf : string) : bool :=
  String.eqb s suf ||
  match s with
  | EmptyString => false
  | String _ r => endsWith r suf
  end.

(** [s.slice(n)] for [0 <= n] *)
Fixpoint string_drop (n : nat) (s : string) : string :=
  match n, s with
  | O, _ => s
  | S n', String _ r => string_drop n' r
  | S _, EmptyString => EmptyString
  end.

(** [s.substring(0, n)] *)
Fixpoint string_take (n : nat) (s : string) : string :=
  match n, s with
  | S n', String c r => String c (string_take n' r)
  | _, _ => EmptyString
  end.

(** [`${n}`] for a non-negative integer. *)
Definition nat_to_string (n : nat) : string :=
  NilZero.string_of_uint (Nat.to_uint n).

(** [`${v}`] for a possibly undefined string. *)
Definition opt_to_string (o : option string) : string :=
  match o with
  | Some s => s
  | None => "undefined"
  end.

(** Truthiness of a possibly undefined string. *)
Definition truthy_str (o : option string) : bool :=
  match o with
  | Some s => negb (String.eqb s "")
  | None => false
  end.

(** [arr.join('')] *)
Definition join_empty (l : list string) : string := String.concat "" l.

(** [(s.match(/\r?\n/g)?.length ?? 0)]: every match ends in exactly one
    line feed and an optional preceding carriage return is swallowed by the
    same match, so the matches are counted by walking the string once. *)
Fixpoint count_newline_matches (s : string) : nat :=
  match s with
  | EmptyString => 0
  | String c r =>
      if (char_code c =? 13) then
        match r with
        | String c' r' =>
            if (char_code c' =? 10) then S (count_newline_matches r')
            else count_newline_matches r
        | EmptyString => 0
        end
      else if (char_code c =? 10) then S (count_newline_matches r)
      else count_newline_matches r
  end.

(** [/type=script.*&lang\.\w+$/.test(s)], read at one start position:
    [s] starts with [type=script], and some later position holds [&lang.]
    followed by one or more word characters up to the end of the string,
    with no line terminator in between. *)
Fixpoint lang_suffix_from (s : string) : bool :=
  (startsWith s "&lang."
   && negb (String.eqb (string_drop 6 s) "")
   && string_forall is_word_char (string_drop 6 s))
  ||
  match s with
  | EmptyString => false
  | String c r => negb (is_line_terminator c) && lang_suffix_from r
  end.

Fixpoint script_lang_re (s : string) : bool :=
  (startsWith s "type=script" && lang_suffix_from (string_drop 11 s))
  ||
  match s with
  | EmptyString => false
  | String _ r => script_lang_re r
  end.

(** [directRequestRE = /(?:\?|&)direct\b/]: the word boundary after the
    final [t] holds when the next character is absent or not a word
    character. *)
Definition direct_at (s : string) : bool :=
  (startsWith s "?direct" || startsWith s "&direct")
  && match string_drop 7 s with
     | EmptyString => true
     | String c _ => negb (is_word_char c)
     end.

Fixpoint directRequestRE (s : string) : bool :=
  direct_at s ||
  match s with
  | EmptyString => false
  | String _ r => directRequestRE r
  end.

(** [encodeURIComponent] on strings of code units below 256: the unreserved
    characters are kept, every other code unit is replaced by the percent
    escapes of its UTF-8 bytes (one byte below 128, two bytes from 128). *)
Definition uri_unreserved (c : ascii) : bool :=
  let n := char_code c in
  ((48 <=? n) && (n <=? 57)) || ((65 <=? n) && (n <=? 90))
  || ((97 <=? n) && (n <=? 122))
  || (n =? 45) || (n =? 95) || (n =? 46) || (n =? 33) || (n =? 126)
  || (n =? 42) || (n =? 39) || (n =? 40) || (n =? 41).

Definition hex_digit (n : nat) : ascii :=
  match String.get n "0123456789ABCDEF" with
  | Some c => c
  | None => "0"%char
  end.

Definition percent_byte (n : nat) : string :=
  String "%" (String (hex_digit (n / 16)) (String (hex_digit (n mod 16)) "")).

Definition encode_unit (c : ascii) : string :=
  let n := char_code c in
  if uri_unreserved c then String c ""
  else if n <? 128 then percent_byte n
  else percent_byte (192 + n / 64) +:+ percent_byte (128 + n mod 64).

Fixpoint encodeURIComponent (s : string) : string :=
  match s with
  | EmptyString => EmptyString
  | String c r => encode_unit c +:+ encodeURIComponent r
  end.

(** ** Data model ([vue/compiler-sfc] types, the fields the plugin reads) *)

(** An attribute value: [string | true]. *)
Inductive AttrValue :=
  | AttrTrue
  | AttrStr (s : string).

Definition Attrs := list (string * AttrValue).

(** [a === b] on attribute values. *)
Definition attr_value_eqb (a b : AttrValue) : bool :=
  match a, b with
  | AttrTrue, AttrTrue => true
  | AttrStr s, AttrStr t => String.eqb s t
  | _, _ => false
  end.

(** [`${v}`] / [String(v)] *)
Definition attr_to_string (v : AttrValue) : string :=
  match v with
  | AttrTrue => "true"
  | AttrStr s => s
  end.

Definition attr_truthy (v : AttrValue) : bool :=
  match v with
  | AttrTrue => true
  | AttrStr s => negb (String.eqb s "")
  end.

(** [attrs[name]] *)
Fixpoint attrs_get (attrs : Attrs) (name : string) : option AttrValue :=
  match attrs with
  | [] => None
  | (k, v) :: rest => if String.eqb k name then Some v else attrs_get rest name
  end.

(** [Object.keys(attrs)] and the order of [for (const name in attrs)]. *)
Definition attrs_keys (attrs : Attrs) : list string := map fst attrs.

(** [name in attrs] *)
Definition attrs_has (attrs : Attrs) (name : string) : bool :=
  match attrs_get attrs name with
  | Some _ => true
  | None => false
  end.

Record ImportBinding := {
  imported : string;
  source : string;
  isUsedInTemplate : bool;
}.

(** [Record<string, ImportBinding>] *)
Definition Imports := list (string * ImportBinding).

(** [SFCBlock], with the fields of [SFCStyleBlock] ([scoped], [module]) and
    of [SFCScriptBlock] ([imports]) that the plugin reads. *)
Record SFCBlock := {
  type : string;
  content : string;
  attrs : Attrs;
  src : option string;
  lang : option string;
  scoped : bool;
  module : option AttrValue;
  imports : option Imports;
}.

Record SFCDescriptor := {
  filename : string;
  id : string;
  script : option SFCBlock;
  scriptSetup : option SFCBlock;
  template : option SFCBlock;
  styles : list SFCBlock;
  customBlocks : list SFCBlock;
  cssVars : list string;
  shouldForceReload : Imports → bool;
}.

(** [descriptor.id = v] *)
Definition set_id (d : SFCDescriptor) (v : string) : SFCDescriptor :=
  {| filename := filename d; id := v; script := script d;
     scriptSetup := scriptSetup d; template := template d;
     styles := styles d; customBlocks := customBlocks d;
     cssVars := cssVars d; shouldForceReload := shouldForceReload d |}.

Record CompilerError := {
  message : string;
  loc : option (nat * nat);
}.

Record SFCParseResult := {
  descriptor : SFCDescriptor;
  errors : list CompilerError;
}.

(** The fields of [ResolvedOptions] read by the modelled code; the compiler
    itself is part of [Externals] below. *)
Record ResolvedOptions := {
  root : string;
  isProduction : option bool;
  sourceMap : bool;
}.

Definition truthy_flag (o : option bool) : bool :=
  match o with
  | Some b => b
  | None => false
  end.

(** What a call can raise. *)
Inductive Exn :=
  | FsError (path : string)
  | ParseError (e : CompilerError).

Inductive Completion (A : Type) :=
  | Normal (a : A)
  | Throw (e : Exn).
Arguments Normal {A} a.
Arguments Throw {A} e.

(** ** External collaborators

    Functions the plugin calls but does not define: the SFC compiler, node's
    [fs], [path] and [crypto], the [slash] package, vite's [isCSSRequest],
    and the lookup in the script cache kept by [./script]. *)
Class Externals := {
  compiler_parse : string → string → bool → SFCParseResult;
  readFileSync : string → option string;
  sha256_hex : string → string;
  path_relative : string → string → string;
  path_normalize : string → string;
  slash : string → string;
  isCSSRequest : string → bool;
  (** Modelled from the spec: [getResolvedScript] of [./script], which is
      not among the sources; it reads the script cache ("a
      previously-resolved import list ... captured from an earlier
      compile"), taken here as the cache's content when the handler
      starts. *)
  getResolvedScript : SFCDescriptor → bool → option SFCBlock;
}.

(** ** [utils/descriptorCache.ts] *)

(** The three module-level maps [cache], [hmrCache] and [prevCache]. *)
Record CacheState := {
  cache : gmap string SFCDescriptor;
  hmrCache : gmap string SFCDescriptor;
  prevCache : gmap string SFCDescriptor;
}.

(** [hmr ? hmrCache : cache] *)
Definition select_cache (hmr : bool) (st : CacheState)
  : gmap string SFCDescriptor :=
  if hmr then hmrCache st else cache st.

(** An update of the map selected by [hmr ? hmrCache : cache]. *)
Definition update_cache (hmr : bool)
    (f : gmap string SFCDescriptor → gmap string SFCDescriptor)
    (st : CacheState) : CacheState :=
  if hmr
  then {| cache := cache st; hmrCache := f (hmrCache st);
          prevCache := prevCache st |}
  else {| cache := f (cache st); hmrCache := hmrCache st;
          prevCache := prevCache st |}.

(** Modelled from the spec: [VueQuery] is declared in [./utils/query],
    which is not among the sources; these are the fields the cache reads
    ([query.src], [query.scoped], [query.id]). *)
Record VueQuery := {
  q_src : option string;
  q_scoped : bool;
  q_id : option string;
}.

Section DescriptorCache.
Context `{Externals}.

Definition getHash (text : string) : string :=
  string_take 8 (sha256_hex text).

Definition createDescriptor (filename source : string)
    (options : ResolvedOptions) (hmr : bool) (st : CacheState)
  : SFCParseResult * CacheState :=
  let parsed := compiler_parse source filename (sourceMap options) in
  let normalizedPath :=
    slash (path_normalize (path_relative (root options) filename)) in
  let descriptor' :=
    set_id (descriptor parsed)
      (getHash (normalizedPath +:+
                (if truthy_flag (isProduction options) then source else "")))
  in
  ({| descriptor := descriptor'; errors := errors parsed |},
   update_cache hmr (insert filename descriptor') st).

Definition getPrevDescriptor (filename : string) (st : CacheState)
  : option SFCDescriptor :=
  prevCache st !! filename.

Definition invalidateDescriptor (filename : string) (hmr : bool)
    (st : CacheState) : CacheState :=
  let prev := select_cache hmr st !! filename in
  let st' := update_cache hmr (delete filename) st in
  match prev with
  | Some p =>
      {| cache := cache st'; hmrCache := hmrCache st';
         prevCache := <[filename := p]> (prevCache st') |}
  | None => st'
  end.

Definition getDescriptor (filename : string) (options : ResolvedOptions)
    (createIfNotFound hmr : bool) (st : CacheState)
  : Completion (option SFCDescriptor) * CacheState :=
  match select_cache hmr st !! filename with
  | Some d => (Normal (Some d), st)
  | None =>
      if createIfNotFound then
        match readFileSync filename with
        | None => (Throw (FsError filename), st)
        | Some source =>
            let '(r, st') :=
              createDescriptor filename source options hmr st in
            match errors r with
            | e :: _ =>
                if negb hmr then (Throw (ParseError e), st')
                else (Normal (Some (descriptor r)), st')
            | [] => (Normal (Some (descriptor r)), st')
            end
        end
      else (Normal None, st)
  end.

Definition getSrcDescriptor (filename : string) (query : VueQuery)
    (st : CacheState) : option SFCDescriptor :=
  if q_scoped query
  then cache st !! (filename +:+ "?src=" +:+ opt_to_string (q_src query))
  else cache st !! filename.

Definition setSrcDescriptor (filename : string) (entry : SFCDescriptor)
    (scoped : bool) (st : CacheState) : CacheState :=
  if scoped
  then update_cache false
         (insert (filename +:+ "?src=" +:+ id entry) entry) st
  else update_cache false (insert filename entry) st.

End DescriptorCache.

(** ** [handleHotUpdate.ts]: block comparison *)

(** [x === y] where both are [string | true | undefined]. *)
Definition opt_attr_eqb (x y : option AttrValue) : bool :=
  match x, y with
  | Some a, Some b => attr_value_eqb a b
  | None, None => true
  | _, _ => false
  end.

Definition isEqualBlock (a b : option SFCBlock) : bool :=
  match a, b with
  | None, None => true
  | None, Some _ | Some _, None => false
  | Some a, Some b =>
      if truthy_str (src a) && truthy_str (src b)
         && String.eqb (opt_to_string (src a)) (opt_to_string (src b))
      then true
      else if negb (String.eqb (content a) (content b)) then false
      else
        let keysA := attrs_keys (attrs a) in
        let keysB := attrs_keys (attrs b) in
        if negb (length keysA =? length keysB) then false
        else forallb (λ key, opt_attr_eqb (attrs_get (attrs a) key)
                                          (attrs_get (attrs b) key)) keysA
  end.

Section ScriptChange.
Context `{Externals}.

Definition hasScriptChanged (prev next : SFCDescriptor) : bool :=
  if negb (isEqualBlock (script prev) (script next)) then true
  else if negb (isEqualBlock (scriptSetup prev) (scriptSetup next)) then true
  else
    let prevResolvedScript := getResolvedScript prev false in
    let prevImports :=
      match prevResolvedScript with
      | Some s => imports s
      | None => None
      end in
    match prevImports with
    | Some prevImports =>
        negb (bool_decide (is_Some (template next)))
        || shouldForceReload next prevImports
    | None => false
    end.

Definition isOnlyTemplateChanged (prev next : SFCDescriptor) : bool :=
  negb (hasScriptChanged prev next)
  && (length (styles prev) =? length (styles next))
  && forallb (λ '(i, s), isEqualBlock (Some s) (styles next !! i))
             (imap (λ i s, (i, s)) (styles prev))
  && (length (customBlocks prev) =? length (customBlocks next))
  && forallb (λ '(i, s), isEqualBlock (Some s) (customBlocks next !! i))
             (imap (λ i s, (i, s)) (customBlocks prev)).

End ScriptChange.

(** ** [main.ts]: the query of a block request *)

Definition ignoreList : list string :=
  ["id"; "index"; "src"; "type"; "lang"; "module"; "scoped"; "generic"].

(** [list.includes(x)] on an array of strings. *)
Definition list_includes (l : list string) (x : string) : bool :=
  existsb (String.eqb x) l.

(** One round of the [for (const name in attrs)] loop of [attrsToQuery]. *)
Definition attrsToQuery_step (attrs : Attrs) (query name : string) : string :=
  let value := attrs_get attrs name in
  if negb (list_includes ignoreList name) then
    query +:+ ("&" +:+ encodeURIComponent name +:+
               match value with
               | Some v =>
                   if attr_truthy v
                   then "=" +:+ encodeURIComponent (attr_to_string v)
                   else ""
               | None => ""
               end)
  else query.

Definition attrsToQuery_loop (attrs : Attrs) : string :=
  fold_left (attrsToQuery_step attrs) (attrs_keys attrs) "".

Definition attrsToQuery (attrs : Attrs) (langFallback : option string)
    (forceLangFallback : bool) : string :=
  let query := attrsToQuery_loop attrs in
  if truthy_str langFallback
     || match attrs_get attrs "lang" with
        | Some v => attr_truthy v
        | None => false
        end
  then
    query +:+
    (if attrs_has attrs "lang" then
       if forceLangFallback
       then "&lang." +:+ opt_to_string langFallback
       else "&lang." +:+ match attrs_get attrs "lang" with
                         | Some v => attr_to_string v
                         | None => "undefined"
                         end
     else "&lang." +:+ opt_to_string langFallback)
  else query.

(** The pieces of the request [genStyleCode] builds for style block [i]. *)
Definition styleSrcQuery (descriptor : SFCDescriptor) (style : SFCBlock)
  : string :=
  if truthy_str (src style)
  then if scoped style then "&src=" +:+ id descriptor else "&src=true"
  else "".

Definition styleQuery (descriptor : SFCDescriptor) (i : nat)
    (style : SFCBlock) (asCustomElement : bool) : string :=
  let srcQuery := styleSrcQuery descriptor style in
  let directQuery := if asCustomElement then "&inline" else "" in
  let scopedQuery :=
    if scoped style then "&scoped=" +:+ id descriptor else "" in
  "?vue&type=style&index=" +:+ nat_to_string i +:+ srcQuery
    +:+ directQuery +:+ scopedQuery.

Definition styleRequest (descriptor : SFCDescriptor) (i : nat)
    (style : SFCBlock) (asCustomElement : bool) : string :=
  let src' :=
    if truthy_str (src style) then opt_to_string (src style)
    else filename descriptor in
  let attrsQuery := attrsToQuery (attrs style) (Some "css") false in
  (src' +:+ styleQuery descriptor i style asCustomElement) +:+ attrsQuery.

(** ** [handleHotUpdate.ts]: the classifier *)

(** A live module is a reference into the host's module graph. *)
Definition ModuleNode := nat.

Record ModuleGraph := {
  url : ModuleNode → string;
  importers : ModuleNode → list ModuleNode;
}.

(** [Set<ModuleNode | undefined>], in insertion order. *)
Definition ModuleSet := list (option ModuleNode).

(** [set.has(x)] *)
Definition set_has (s : ModuleSet) (x : option ModuleNode) : bool :=
  bool_decide (x ∈ s).

(** [set.add(x)] *)
Definition set_add (x : option ModuleNode) (s : ModuleSet) : ModuleSet :=
  if set_has s x then s else s ++ [x].

(** [[...set].filter(Boolean)] *)
Definition filter_Boolean (s : ModuleSet) : list ModuleNode :=
  omap (λ x, x) s.

(** [a || b] on possibly undefined modules. *)
Definition or_module (a b : option ModuleNode) : option ModuleNode :=
  match a with
  | Some _ => a
  | None => b
  end.

(** [Array.prototype.sort] with the comparator
    [(m1, m2) => m1.url.length - m2.url.length]; the sort is stable. *)
Fixpoint insert_by_length (g : ModuleGraph) (m : ModuleNode)
    (l : list ModuleNode) : list ModuleNode :=
  match l with
  | [] => [m]
  | x :: r =>
      if String.length (url g m) <=? String.length (url g x)
      then m :: l
      else x :: insert_by_length g m r
  end.

Definition sort_by_length (g : ModuleGraph) (l : list ModuleNode)
  : list ModuleNode :=
  foldr (insert_by_length g) [] l.

Definition getMainModule (g : ModuleGraph) (modules : list ModuleNode)
  : option ModuleNode :=
  head (sort_by_length g
          (List.filter (λ m, negb (includes (url g m) "type=")
                              || includes (url g m) "type=script") modules)).

Definition getScriptModule (g : ModuleGraph) (modules : list ModuleNode)
  : option ModuleNode :=
  List.find (λ m, script_lang_re (url g m)) modules.

(** The locals the two block loops update. *)
Record LoopState := {
  affectedModules : ModuleSet;
  didUpdateStyle : bool;
}.

(** [!prev || !isEqualBlock(prev, next)] *)
Definition block_differs (prev : option SFCBlock) (next : SFCBlock) : bool :=
  match prev with
  | None => true
  | Some p => negb (isEqualBlock (Some p) (Some next))
  end.

(** The module a changed style block at index [i] is served by. *)
Definition find_style_module (g : ModuleGraph) (modules : list ModuleNode)
    (i : nat) (next : SFCBlock) : option ModuleNode :=
  List.find
    (λ m, includes (url g m) ("type=style&index=" +:+ nat_to_string i)
          && endsWith (url g m)
               ("." +:+ (if truthy_str (lang next)
                         then opt_to_string (lang next) else "css"))
          && negb (directRequestRE (url g m)))
    modules.

(** Body of [for (let i = 0; i < nextStyles.length; i++)]. *)
Definition style_step (g : ModuleGraph) (modules : list ModuleNode)
    (mainModule : option ModuleNode) (prevStyles : list SFCBlock)
    (i : nat) (next : SFCBlock) (s : LoopState) : LoopState :=
  if block_differs (prevStyles !! i) next then
    match find_style_module g modules i next with
    | Some m =>
        let a := set_add (Some m) (affectedModules s) in
        {| affectedModules :=
             if includes (url g m) "&inline" then set_add mainModule a else a;
           didUpdateStyle := true |}
    | None =>
        {| affectedModules := set_add mainModule (affectedModules s);
           didUpdateStyle := true |}
    end
  else s.

Fixpoint style_loop (g : ModuleGraph) (modules : list ModuleNode)
    (mainModule : option ModuleNode) (prevStyles : list SFCBlock)
    (i : nat) (nextStyles : list SFCBlock) (s : LoopState) : LoopState :=
  match nextStyles with
  | [] => s
  | next :: rest =>
      style_loop g modules mainModule prevStyles (S i) rest
        (style_step g modules mainModule prevStyles i next s)
  end.

(** Body of [for (let i = 0; i < nextCustoms.length; i++)]; the loop only
    runs when both arrays have the same length, so [prev] is defined. *)
Definition custom_step (g : ModuleGraph) (modules : list ModuleNode)
    (mainModule : option ModuleNode) (prevCustoms : list SFCBlock)
    (i : nat) (next : SFCBlock) (a : ModuleSet) : ModuleSet :=
  match prevCustoms !! i with
  | Some prev =>
      if negb (isEqualBlock (Some prev) (Some next)) then
        match List.find
                (λ m, includes (url g m)
                        ("type=" +:+ type prev +:+ "&index="
                         +:+ nat_to_string i)) modules with
        | Some m => set_add (Some m) a
        | None => set_add mainModule a
        end
      else a
  | None => a
  end.

Fixpoint custom_loop (g : ModuleGraph) (modules : list ModuleNode)
    (mainModule : option ModuleNode) (prevCustoms : list SFCBlock)
    (i : nat) (nextCustoms : list SFCBlock) (a : ModuleSet) : ModuleSet :=
  match nextCustoms with
  | [] => a
  | next :: rest =>
      custom_loop g modules mainModule prevCustoms (S i) rest
        (custom_step g modules mainModule prevCustoms i next a)
  end.

(** What a run of the handler leaves behind: the returned array ([None] is
    the early [return]), the caches, and the calls it made to
    [setResolvedScript] (descriptor, script) of [./script]. *)
Record HotUpdateResult := {
  returned : option (list ModuleNode);
  updateType : list string;
  cachesAfter : CacheState;
  resolvedScriptWrites : list (SFCDescriptor * option SFCBlock);
}.

Section HotUpdate.
Context `{Externals}.

(** [content] is the value [await read()] resolves to. *)
Definition handleHotUpdate (g : ModuleGraph) (file : string)
    (modules : list ModuleNode) (content : string)
    (options : ResolvedOptions) (st : CacheState) : HotUpdateResult :=
  match getDescriptor file options false true st with
  | (Normal (Some prevDescriptor), st1) =>
      let '(parsed, st2) := createDescriptor file content options true st1 in
      let descriptor := descriptor parsed in
      let affected0 : ModuleSet := [] in
      let mainModule := getMainModule g modules in
      let templateModule :=
        List.find (λ m, includes (url g m) "type=template") modules in
      let scriptChanged := hasScriptChanged prevDescriptor descriptor in
      let affected1 :=
        if scriptChanged
        then set_add (or_module (getScriptModule g modules) mainModule)
                     affected0
        else affected0 in
      let templateChanged :=
        negb (isEqualBlock (template descriptor) (template prevDescriptor)) in
      let writes :=
        if templateChanged && negb scriptChanged
        then [(descriptor, getResolvedScript prevDescriptor false)]
        else [] in
      let affected2 :=
        if templateChanged then set_add templateModule affected1
        else affected1 in
      let needRerender := templateChanged in
      let prevStyles := styles prevDescriptor in
      let nextStyles := styles descriptor in
      let affected3 :=
        if negb (String.eqb (join_empty (cssVars prevDescriptor))
                            (join_empty (cssVars descriptor)))
        then set_add mainModule affected2
        else affected2 in
      let affected4 :=
        if negb (Bool.eqb (existsb scoped prevStyles)
                          (existsb scoped nextStyles))
        then set_add mainModule (set_add templateModule affected3)
        else affected3 in
      let s5 :=
        style_loop g modules mainModule prevStyles 0 nextStyles
          {| affectedModules := affected4; didUpdateStyle := false |} in
      let affected6 :=
        if length nextStyles <? length prevStyles
        then set_add mainModule (affectedModules s5)
        else affectedModules s5 in
      let prevCustoms := customBlocks prevDescriptor in
      let nextCustoms := customBlocks descriptor in
      let affected7 :=
        if negb (length prevCustoms =? length nextCustoms)
        then set_add mainModule affected6
        else custom_loop g modules mainModule prevCustoms 0 nextCustoms
               affected6 in
      let affected8 :=
        if needRerender then
          match templateModule with
          | None => set_add mainModule affected7
          | Some _ =>
              match mainModule with
              | Some mm =>
                  if negb (set_has affected7 mainModule) then
                    let styleImporters :=
                      List.filter (λ m, isCSSRequest (url g m))
                                  (importers g mm) in
                    fold_left (λ a m, set_add (Some m) a)
                              styleImporters affected7
                  else affected7
              | None => affected7
              end
          end
        else affected7 in
      let updateType :=
        (if needRerender then ["template"] else [])
        ++ (if didUpdateStyle s5 then ["style"] else []) in
      let st3 :=
        if negb (length updateType =? 0)
        then invalidateDescriptor file false st2
        else st2 in
      {| returned := Some (filter_Boolean affected8);
         updateType := updateType;
         cachesAfter := st3;
         resolvedScriptWrites := writes |}
  | (_, st1) =>
      (* file hasn't been requested yet; without [createIfNotFound] the
         lookup cannot throw *)
      {| returned := None; updateType := []; cachesAfter := st1;
         resolvedScriptWrites := [] |}
  end.

End HotUpdate.

(** ** [main.ts]: concatenating the script and template source maps

    A source map is kept in decoded form: [mappings] is the list of entries
    that [eachMapping] enumerates (generated and original lines 1-based, as
    in the API of [@jridgewell/trace-mapping] and [@jridgewell/gen-mapping]);
    the empty list stands for the encoded string [''].  Source names are
    taken as already resolved. *)

Record Mapping := {
  generatedLine : nat;
  generatedColumn : nat;
  m_source : option string;
  originalLine : option nat;
  originalColumn : option nat;
  m_name : option string;
}.

Record RawSourceMap := {
  sources : list string;
  sourcesContent : option (list (option string));
  mappings : list Mapping;
}.

(** [{ mappings: '' }] *)
Definition empty_map : RawSourceMap :=
  {| sources := []; sourcesContent := None; mappings := [] |}.

(** The state of a [GenMapping]. *)
Record GenMapping := {
  gen_sources : list string;
  gen_sourcesContent : list (option string);
  gen_mappings : list Mapping;
}.

(** [fromMap(map)] *)
Definition fromMap (map : RawSourceMap) : GenMapping :=
  {| gen_sources := sources map;
     gen_sourcesContent :=
       match sourcesContent map with
       | Some c => c
       | None => List.map (λ _, None) (sources map)
       end;
     gen_mappings := mappings map |}.

(** [eachMapping(new TraceMap(map), cb)] visits these entries in order. *)
Definition eachMapping (map : RawSourceMap) : list Mapping := mappings map.

(** Position order of two entries: by generated line, then column. *)
Definition mapping_le (a b : Mapping) : bool :=
  (generatedLine a <? generatedLine b)
  || ((generatedLine a =? generatedLine b)
      && (generatedColumn a <=? generatedColumn b)).

(** The entry is placed behind the last entry that does not come after it. *)
Fixpoint insert_mapping (m : Mapping) (l : list Mapping) : list Mapping :=
  match l with
  | [] => [m]
  | x :: r =>
      if existsb (λ y, mapping_le y m) l
      then x :: insert_mapping m r
      else m :: l
  end.

(** [addMapping(gen, { source, original, generated })]: a new source name is
    appended to the sources (with no content); a mapping whose source is the
    empty string is stored without its original position. *)
Definition addMapping (gen : GenMapping) (source : string)
    (original : option nat * option nat) (generated : nat * nat)
  : GenMapping :=
  if String.eqb source "" then
    {| gen_sources := gen_sources gen;
       gen_sourcesContent := gen_sourcesContent gen;
       gen_mappings :=
         insert_mapping
           {| generatedLine := fst generated;
              generatedColumn := snd generated;
              m_source := None; originalLine := None;
              originalColumn := None; m_name := None |}
           (gen_mappings gen) |}
  else
    let known := list_includes (gen_sources gen) source in
    {| gen_sources :=
         if known then gen_sources gen else gen_sources gen ++ [source];
       gen_sourcesContent :=
         if known then gen_sourcesContent gen
         else gen_sourcesContent gen ++ [None];
       gen_mappings :=
         insert_mapping
           {| generatedLine := fst generated;
              generatedColumn := snd generated;
              m_source := Some source; originalLine := fst original;
              originalColumn := snd original; m_name := None |}
           (gen_mappings gen) |}.

(** [toEncodedMap(gen)] *)
Definition toEncodedMap (gen : GenMapping) : RawSourceMap :=
  {| sources := gen_sources gen;
     sourcesContent := Some (gen_sourcesContent gen);
     mappings := gen_mappings gen |}.

(** [(scriptCode.match(/\r?\n/g)?.length ?? 0) + 1] *)
Definition map_offset (scriptCode : string) : nat :=
  count_newline_matches scriptCode + 1.

(** The callback handed to [eachMapping]. *)
Definition concat_step (offset : nat) (gen : GenMapping) (m : Mapping)
  : GenMapping :=
  match m_source m with
  | None => gen
  | Some source =>
      addMapping gen source (originalLine m, originalColumn m)
        (generatedLine m + offset, generatedColumn m)
  end.

(** The branch [if (scriptMap && templateMap)]. *)
Definition concat_maps (scriptCode : string)
    (scriptMap templateMap : RawSourceMap) : RawSourceMap :=
  let gen := fromMap scriptMap in
  let offset := map_offset scriptCode in
  let gen' := fold_left (concat_step offset) (eachMapping templateMap) gen in
  let resolvedMap := toEncodedMap gen' in
  {| sources := sources resolvedMap;
     sourcesContent := sourcesContent templateMap;
     mappings := mappings resolvedMap |}.

(** [resolvedMap] after [if (options.sourceMap) { ... }]. *)
Definition resolveMap (options : ResolvedOptions) (scriptCode : string)
    (scriptMap templateMap : option RawSourceMap) : option RawSourceMap :=
  if sourceMap options then
    match scriptMap, templateMap with
    | Some s, Some t => Some (concat_maps scriptCode s t)
    | Some s, None => Some s
    | None, t => t
    end
  else None.

(** [lang && /tsx?$/.test(lang) && !descriptor.script?.src] with
    [lang = descriptor.scriptSetup?.lang || descriptor.script?.lang]. *)
Definition block_lang (b : option SFCBlock) : option string :=
  match b with
  | Some blk => lang blk
  | None => None
  end.

Definition needs_ts_transpile (d : SFCDescriptor) : bool :=
  let lang :=
    if truthy_str (block_lang (scriptSetup d))
    then block_lang (scriptSetup d) else block_lang (script d) in
  truthy_str lang
  && (endsWith (opt_to_string lang) "ts" || endsWith (opt_to_string lang) "tsx")
  && negb (truthy_str (match script d with
                       | Some blk => src blk
                       | None => None
                       end)).

(** The [map] property of the object [transformMain] returns; [esbuildMap]
    is the map [transformWithEsbuild] answers with when it is called. *)
Definition transformMain_map (options : ResolvedOptions) (d : SFCDescriptor)
    (scriptCode : string) (scriptMap templateMap : option RawSourceMap)
    (esbuildMap : RawSourceMap) : RawSourceMap :=
  let resolvedMap := resolveMap options scriptCode scriptMap templateMap in
  let resolvedMap' :=
    if needs_ts_transpile d then
      match resolvedMap with
      | Some _ => Some esbuildMap
      | None => None
      end
    else resolvedMap in
  match resolvedMap' with
  | Some m => m
  | None => empty_map
  end.

(** ** Reading a request back *)

(** [s.split(c)] *)
Fixpoint split_on (c : ascii) (s : string) : list string :=
  match s with
  | EmptyString => [EmptyString]
  | String x r =>
      if Ascii.eqb x c then EmptyString :: split_on c r
      else match split_on c r with
           | [] => [String x EmptyString]
           | h :: t => String x h :: t
           end
  end.

(** A parameter as a (key, value) pair. *)
Definition parse_param (p : string) : string * string :=
  match split_on "=" p with
  | [] => (EmptyString, EmptyString)
  | k :: vs => (k, String.concat "=" vs)
  end.

(** Empty parameters (as in [a&&b]) are dropped. *)
Definition decode_params (ps : list string) : list (string * string) :=
  List.map parse_param (List.filter (λ p, negb (String.eqb p "")) ps).

Definition query_params (rawQuery : string) : list (string * string) :=
  decode_params (split_on "&" rawQuery).

(** The value of the last parameter called [key]. *)
Definition param_get (ps : list (string * string)) (key : string)
  : option string :=
  snd <$> List.find (λ kv, String.eqb (fst kv) key) (rev ps).

(** Modelled from the spec: [parseVueRequest] of [./utils/query], which is
    not among the sources.  Following the address grammar
    ("<path-or-src><query>", a query of [&]-separated [key] or [key=value]
    parameters), the request is cut at its first [?], the parameters are cut
    at [&] and each at its first [=]; [src] is the value of the last
    parameter named [src], and [scoped] holds when a parameter named
    [scoped] is present.  Percent escapes are left as they are. *)
Definition parseVueRequest (request : string) : string * VueQuery :=
  match split_on "?" request with
  | [] => (EmptyString, {| q_src := None; q_scoped := false; q_id := None |})
  | filename :: rest =>
      let ps := query_params (match rest with
                              | [] => EmptyString
                              | rawQuery :: _ => rawQuery
                              end) in
      (filename,
       {| q_src := param_get ps "src";
          q_scoped := bool_decide (is_Some (param_get ps "scoped"));
          q_id := param_get ps "id" |})
  end.

(** ** [main.ts]: the requests of the other blocks *)

(** [genTemplateCode] compiles the template into the main module when
    [(!template.lang || template.lang === 'html') && !template.src]. *)
Definition template_inlined (template : SFCBlock) : bool :=
  (negb (truthy_str (lang template))
   || match lang template with
      | Some l => String.eqb l "html"
      | None => false
      end)
  && negb (truthy_str (src template)).

(** The request [genTemplateCode] imports the render function from when
    the template is not inlined. *)
Definition templateRequest (descriptor : SFCDescriptor) (template : SFCBlock)
  : string :=
  let hasScoped := existsb scoped (styles descriptor) in
  let src' :=
    if truthy_str (src template) then opt_to_string (src template)
    else filename descriptor in
  let srcQuery :=
    if truthy_str (src template)
    then if hasScoped then "&src=" +:+ id descriptor else "&src=true"
    else "" in
  let scopedQuery := if hasScoped then "&scoped=" +:+ id descriptor else "" in
  let attrsQuery := attrsToQuery (attrs template) (Some "js") true in
  let query := "?vue&type=template" +:+ srcQuery +:+ scopedQuery
                 +:+ attrsQuery in
  src' +:+ query.

(** The request [genScriptCode] imports the script from when it cannot be
    inlined; [extname] is node's [path.extname]. *)
Definition scriptLangFallback (extname : string → string) (script : SFCBlock)
  : string :=
  if truthy_str (src script)
  then
    let ext := string_drop 1 (extname (opt_to_string (src script))) in
    if negb (String.eqb ext "") then ext else "js"
  else "js".

Definition scriptRequest (extname : string → string)
    (descriptor : SFCDescriptor) (script : SFCBlock) : string :=
  let src' :=
    if truthy_str (src script) then opt_to_string (src script)
    else filename descriptor in
  let langFallback := scriptLangFallback extname script in
  let attrsQuery := attrsToQuery (attrs script) (Some langFallback) false in
  let srcQuery := if truthy_str (src script) then "&src=true" else "" in
  let query := "?vue&type=script" +:+ srcQuery +:+ attrsQuery in
  src' +:+ query.

(** The request [genCustomBlockCode] imports custom block [index] from. *)
Definition customBlockRequest (descriptor : SFCDescriptor) (index : nat)
    (block : SFCBlock) : string :=
  let src' :=
    if truthy_str (src block) then opt_to_string (src block)
    else filename descriptor in
  let attrsQuery := attrsToQuery (attrs block) (Some (type block)) false in
  let srcQuery := if truthy_str (src block) then "&src=true" else "" in
  let query := "?vue&type=" +:+ type block +:+ "&index="
                 +:+ nat_to_string index +:+ srcQuery +:+ attrsQuery in
  src' +:+ query.

(** [request.replace(/\.(\w+)$/, '.module.$1')] of [genCSSModulesCode]:
    the leftmost dot that is followed by word characters only, and at least
    one, up to the end of the string. *)
Fixpoint moduleRequest (request : string) : string :=
  match request with
  | EmptyString => EmptyString
  | String c r =>
      if Ascii.eqb c "." && negb (String.eqb r "")
         && string_forall is_word_char r
      then ".module." +:+ r
      else String c (moduleRequest r)
  end.

(** [typeof moduleName === 'string' ? moduleName : '$style'] *)
Definition exposedName (moduleName : AttrValue) : string :=
  match moduleName with
  | AttrStr s => s
  | AttrTrue => "$style"
  end.

(** What [genStyleCode] imports for one style block: the request as it is,
    or for [<style module>] the rewritten request with the name the class
    map is exposed under; [<style module>] in a custom element is an
    error. *)
Inductive StyleImport :=
  | StyleImportError (msg : string)
  | StyleImportPlain (request : string)
  | StyleImportModule (request : string) (name : string).

Definition styleImport (descriptor : SFCDescriptor) (i : nat)
    (style : SFCBlock) (asCustomElement : bool) : StyleImport :=
  let styleRequest := styleRequest descriptor i style asCustomElement in
  match module style with
  | Some moduleName =>
      if attr_truthy moduleName then
        if asCustomElement
        then StyleImportError
               "<style module> is not supported in custom elements mode."
        else StyleImportModule (moduleRequest styleRequest)
               (exposedName moduleName)
      else StyleImportPlain styleRequest
  | None => StyleImportPlain styleRequest
  end.

(** [srcFile.replace(/\?.*$/, '')]: everything from the first [?] that has
    no line terminator behind it is dropped. *)
Fixpoint stripQuery (s : string) : string :=
  match s with
  | EmptyString => EmptyString
  | String c r =>
      if Ascii.eqb c "?"
         && string_forall (λ x, negb (is_line_terminator x)) r
      then EmptyString
      else String c (stripQuery r)
  end.

(** [linkSrcToDescriptor]; [resolve] is [pluginContext.resolve] and gives
    the [id] of the resolved module, if any. *)
Definition linkSrcToDescriptor (resolve : string → string → option string)
    (src : string) (descriptor : SFCDescriptor) (scoped : bool)
    (st : CacheState) : CacheState :=
  let srcFile :=
    match resolve src (filename descriptor) with
    | Some resolved => if negb (String.eqb resolved "") then resolved else src
    | None => src
    end in
  setSrcDescriptor (stripQuery srcFile) descriptor scoped st.

(** ** [handleHotUpdate.ts]: changes of type dependencies

    [getModulesByFile] is the module graph's lookup; the files handed to
    [invalidateScript] of [./script] are recorded in call order. *)
Definition handleTypeDepChange (g : ModuleGraph)
    (getModulesByFile : string → option (list ModuleNode))
    (affectedComponents : list string) (modules : list ModuleNode)
  : list (option ModuleNode) * list string :=
  let affected :=
    fold_left
      (λ (affected : ModuleSet) file,
         match getModulesByFile file with
         | Some arr =>
             set_add (or_module (getScriptModule g arr) (getMainModule g arr))
                     affected
         | None => affected
         end)
      affectedComponents [] in
  (List.map Some modules ++ affected, affectedComponents).

(** ** Reference definitions, as the specification words them *)

Global Instance AttrValue_eq_dec : EqDecision AttrValue.
Proof. solve_decision. Defined.

(** The attribute object as a finite map. *)
Definition attrs_map (a : Attrs) : gmap string AttrValue := list_to_map a.

(** Block equality as the specification words it: both absent; or the same
    non-empty [src]; or the same content and the same attributes as a set of
    key-value pairs. *)
Definition blockEquals_ref (a b : option SFCBlock) : bool :=
  match a, b with
  | None, None => true
  | None, Some _ | Some _, None => false
  | Some x, Some y =>
      match src x with
      | Some s => bool_decide (s ≠ "" ∧ src y = Some s)
      | None => false
      end
      || bool_decide (content x = content y
                      ∧ attrs_map (attrs x) = attrs_map (attrs y))
  end.

(** The attribute fragment as the specification words it: a bare [&name] for
    [true], [&name=value] (value encoded) for a string. *)
Definition attr_fragment_spec (kv : string * AttrValue) : string :=
  match snd kv with
  | AttrTrue => "&" +:+ fst kv
  | AttrStr v => "&" +:+ fst kv +:+ "=" +:+ encodeURIComponent v
  end.

(** The attribute fragment the encoder emits. *)
Definition attr_fragment (kv : string * AttrValue) : string :=
  "&" +:+ encodeURIComponent (fst kv) +:+
  (if attr_truthy (snd kv)
   then "=" +:+ encodeURIComponent (attr_to_string (snd kv))
   else "").

Definition not_ignored (kv : string * AttrValue) : bool :=
  negb (list_includes ignoreList (fst kv)).

(** The fragments written one after the other. *)
Definition concat_strings (l : list string) : string :=
  foldr String.append "" l.

Definition attrs_query_spec (attrs : Attrs) : string :=
  concat_strings (List.map attr_fragment_spec (List.filter not_ignored attrs)).

(** Every block that is present has pairwise distinct attribute names. *)
Definition block_keys_distinct (b : option SFCBlock) : Prop :=
  match b with
  | Some x => NoDup (attrs_keys (attrs x))
  | None => True
  end.

(** Number of line feeds in a text. *)
Fixpoint count_lf (s : string) : nat :=
  match s with
  | EmptyString => 0
  | String c r => (if char_code c =? 10 then 1 else 0) + count_lf r
  end.

(** A stage-2 entry as it is written into the merged map. *)
Definition shifted (offset : nat) (m : Mapping) : Mapping :=
  {| generatedLine := generatedLine m + offset;
     generatedColumn := generatedColumn m;
     m_source := m_source m;
     originalLine := originalLine m;
     originalColumn := originalColumn m;
     m_name := None |}.

(** What the callback stores for a stage-2 entry, if anything. *)
Definition written (offset : nat) (m : Mapping) : option Mapping :=
  match m_source m with
  | None => None
  | Some source =>
      if String.eqb source ""
      then Some {| generatedLine := generatedLine m + offset;
                   generatedColumn := generatedColumn m;
                   m_source := None; originalLine := None;
                   originalColumn := None; m_name := None |}
      else Some (shifted offset m)
  end.

(** [s] has no occurrence of [c]. *)
Definition no_char (c : ascii) (s : string) : bool :=
  string_forall (λ x, negb (Ascii.eqb x c)) s.

(** A marker that can stand in a query unescaped: no [&] and no [?]. *)
Definition query_safe (s : string) : bool := no_char "&" s && no_char "?" s.

(** The parameter an attribute contributes, without its leading [&]. *)
Definition attr_param (kv : string * AttrValue) : string :=
  encodeURIComponent (fst kv) +:+
  (if attr_truthy (snd kv)
   then "=" +:+ encodeURIComponent (attr_to_string (snd kv))
   else "").

(** The language written behind [&lang.] for a style block. *)
Definition style_lang (style : SFCBlock) : string :=
  match attrs_get (attrs style) "lang" with
  | Some v => attr_to_string v
  | None => "css"
  end.

(** The parameters of a style request after the leading [vue]. *)
Definition style_params (d : SFCDescriptor) (i : nat) (style : SFCBlock)
    (asCustomElement : bool) : list string :=
  ["type=style"; "index=" +:+ nat_to_string i]
  ++ (if truthy_str (src style)
      then [if scoped style then "src=" +:+ id d else "src=true"] else [])
  ++ (if asCustomElement then ["inline"] else [])
  ++ (if scoped style then ["scoped=" +:+ id d] else [])
  ++ List.map attr_param (List.filter not_ignored (attrs style))
  ++ ["lang." +:+ style_lang style].

(** ** Notions used to state the further properties *)

(** The test [getMainModule] filters the live modules with. *)
Definition is_main_candidate (g : ModuleGraph) (m : ModuleNode) : bool :=
  negb (includes (url g m) "type=") || includes (url g m) "type=script".

(** [m.url.length] *)
Definition url_length (g : ModuleGraph) (m : ModuleNode) : nat :=
  String.length (url g m).

(** An entry of the affected set is [undefined] or a module that the
    predicate admits. *)
Definition module_ok (allowed : ModuleNode → Prop) (x : option ModuleNode)
  : Prop :=
  match x with
  | Some m => allowed m
  | None => True
  end.

(** An affected set without repetition whose modules are all admitted. *)
Definition affected_ok (allowed : ModuleNode → Prop) (a : ModuleSet) : Prop :=
  NoDup a ∧ Forall (module_ok allowed) a.

(** The modules a run of the classifier may return: the live modules of the
    file and the stylesheet importers of its main module. *)
Definition returnable (isCSS : string → bool) (g : ModuleGraph)
    (modules : list ModuleNode) (mainModule : option ModuleNode)
    (m : ModuleNode) : Prop :=
  m ∈ modules
  ∨ ∃ mm, mainModule = Some mm ∧ m ∈ importers g mm
          ∧ isCSS (url g m) = true.

(** The characters the attribute loop of [attrsToQuery] can write. *)
Definition query_char (c : ascii) : bool :=
  uri_unreserved c || Ascii.eqb c "%" || Ascii.eqb c "&" || Ascii.eqb c "=".

(** The language [attrsToQuery] writes behind [&lang.] for a script block. *)
Definition script_lang (extname : string → string) (script : SFCBlock)
  : string :=
  match attrs_get (attrs script) "lang" with
  | Some v => attr_to_string v
  | None => scriptLangFallback extname script
  end.

(** The language the handler expects at the end of a style module's URL:
    [next.lang || 'css']. *)
Definition hmr_style_lang (style : SFCBlock) : string :=
  if truthy_str (lang style) then opt_to_string (lang style) else "css".

(** A template entry that the concatenation copies. *)
Definition has_source (m : Mapping) : bool :=
  match m_source m with
  | Some _ => true
  | None => false
  end.

(** ** Fixtures for the closed examples: a small host *)

Definition mk_block (ty text : string) (a : Attrs) : SFCBlock :=
  {| type := ty; content := text; attrs := a; src := None; lang := None;
     scoped := false; module := None; imports := None |}.

Definition mk_descriptor (file : string) (scr tpl : option SFCBlock)
    (sty : list SFCBlock) : SFCDescriptor :=
  {| filename := file; id := ""; script := scr; scriptSetup := None;
     template := tpl; styles := sty; customBlocks := []; cssVars := [];
     shouldForceReload := λ _, false |}.

(** A compiler that knows three texts: a component with a script, the same
    with its template edited, the same with its script edited; anything
    else is a component that fails to parse. *)
Definition demo_error : CompilerError :=
  {| message := "Element is missing end tag."; loc := Some (1, 1) |}.

Definition demo_parse (source file : string) (_ : bool) : SFCParseResult :=
  if String.eqb source "<script>a</script><template>x</template>" then
    {| descriptor := mk_descriptor file (Some (mk_block "script" "a" []))
                       (Some (mk_block "template" "x" [])) [];
       errors := [] |}
  else if String.eqb source "<script>b</script><template>x</template>" then
    {| descriptor := mk_descriptor file (Some (mk_block "script" "b" []))
                       (Some (mk_block "template" "x" [])) [];
       errors := [] |}
  else if String.eqb source "<template>x</template>" then
    {| descriptor := mk_descriptor file None
                       (Some (mk_block "template" "x" [])) [];
       errors := [] |}
  else if String.eqb source "<template>y</template>" then
    {| descriptor := mk_descriptor file None
                       (Some (mk_block "template" "y" [])) [];
       errors := [] |}
  else
    {| descriptor := mk_descriptor file None None [];
       errors := [demo_error] |}.

Definition demo_fs (file : string) : option string :=
  if String.eqb file "/src/App.vue"
  then Some "<script>a</script><template>x</template>"
  else if String.eqb file "/src/Broken.vue" then Some "<template>"
  else None.

Definition demo_host (resolved : SFCDescriptor → bool → option SFCBlock)
  : Externals :=
  {| compiler_parse := demo_parse;
     readFileSync := demo_fs;
     sha256_hex := λ text, text +:+ "00000000";
     path_relative := λ _ file, file;
     path_normalize := λ p, p;
     slash := λ p, p;
     isCSSRequest := λ u, endsWith u ".css";
     getResolvedScript := resolved |}.

Definition no_resolved : SFCDescriptor → bool → option SFCBlock := λ _ _, None.

Definition demo_options : ResolvedOptions :=
  {| root := "/src"; isProduction := Some false; sourceMap := true |}.

Definition empty_caches : CacheState :=
  {| cache := ∅; hmrCache := ∅; prevCache := ∅ |}.

(** The live modules of [/src/App.vue]: 0 is the main module, 1 a template
    module, 2 a stylesheet that imports the main module. *)
Definition demo_graph : ModuleGraph :=
  {| url := λ m, match m with
                 | 0 => "/src/App.vue"
                 | 1 => "/src/App.vue?vue&type=template&lang.js"
                 | _ => "/src/tailwind.css"
                 end;
     importers := λ m, match m with
                       | 0 => [2]
                       | _ => []
                       end |}.

Definition demo_file : string := "/src/App.vue".

(** The caches once [/src/App.vue] has been transformed: [transformMain]
    created the descriptor in [cache] and then in [hmrCache]. *)
Definition demo_caches (host : Externals) : CacheState :=
  (createDescriptor (H := host) demo_file
     "<script>a</script><template>x</template>" demo_options true
     (createDescriptor (H := host) demo_file
        "<script>a</script><template>x</template>" demo_options false
        empty_caches).2).2.

(** The same for the component that has only a template. *)
Definition demo_caches_template (host : Externals) : CacheState :=
  (createDescriptor (H := host) demo_file
     "<template>x</template>" demo_options true
     (createDescriptor (H := host) demo_file
        "<template>x</template>" demo_options false empty_caches).2).2.

(** A resolved script with an (empty) import list for every descriptor. *)
Definition demo_resolved : SFCDescriptor → bool → option SFCBlock :=
  λ _ _, Some {| type := "script"; content := "a"; attrs := [];
                 src := None; lang := None; scoped := false;
                 module := None; imports := Some [] |}.

(** A scoped style block linked to an external sheet. *)
Definition demo_style : SFCBlock :=
  {| type := "style"; content := "";
     attrs := [("src", AttrStr "./theme.scss"); ("scoped", AttrTrue);
               ("lang", AttrStr "scss"); ("media", AttrStr "print")];
     src := Some "./theme.scss"; lang := Some "scss"; scoped := true;
     module := None; imports := None |}.

(** A template map with one entry that names a source and one that does
    not, and a script map with a single entry. *)
Definition demo_template_map : RawSourceMap :=
  {| sources := ["App.vue"]; sourcesContent := Some [Some "<template/>"];
     mappings :=
       [{| generatedLine := 1; generatedColumn := 0;
           m_source := None; originalLine := None; originalColumn := None;
           m_name := None |};
        {| generatedLine := 2; generatedColumn := 4;
           m_source := Some "App.vue"; originalLine := Some 3;
           originalColumn := Some 2; m_name := None |}] |}.

Definition demo_script_map : RawSourceMap :=
  {| sources := ["App.vue"]; sourcesContent := Some [Some "<script/>"];
     mappings :=
       [{| generatedLine := 1; generatedColumn := 0;
           m_source := Some "App.vue"; originalLine := Some 1;
           originalColumn := Some 8; m_name := None |}] |}.

(** A template map whose only entry names no source. *)
Definition demo_sourceless_map : RawSourceMap :=
  {| sources := []; sourcesContent := None;
     mappings :=
       [{| generatedLine := 1; generatedColumn := 0;
           m_source := None; originalLine := None; originalColumn := None;
           m_name := None |}] |}.

(** A second small host, for components with style blocks. *)
Definition styled_descriptor (file : string) (sty : list SFCBlock)
  : SFCDescriptor :=
  mk_descriptor file None (Some (mk_block "template" "x" [])) sty.

Definition scoped_block : SFCBlock :=
  {| type := "style"; content := "a{}"; attrs := [("scoped", AttrTrue)];
     src := None; lang := None; scoped := true; module := None;
     imports := None |}.

Definition styled_parse (source file : string) (_ : bool) : SFCParseResult :=
  if String.eqb source "<template>x</template><style>a{}</style><style>b{}</style>"
  then {| descriptor :=
            styled_descriptor file
              [mk_block "style" "a{}" []; mk_block "style" "b{}" []];
          errors := [] |}
  else if String.eqb source "<template>x</template><style>a{}</style>"
  then {| descriptor := styled_descriptor file [mk_block "style" "a{}" []];
          errors := [] |}
  else if String.eqb source "<template>x</template><style>c{}</style>"
  then {| descriptor := styled_descriptor file [mk_block "style" "c{}" []];
          errors := [] |}
  else if String.eqb source "<template>x</template><style scoped>a{}</style>"
  then {| descriptor := styled_descriptor file [scoped_block];
          errors := [] |}
  else {| descriptor := mk_descriptor file None None [];
          errors := [demo_error] |}.

Definition styled_host : Externals :=
  {| compiler_parse := styled_parse;
     readFileSync := λ _, None;
     sha256_hex := λ text, text +:+ "00000000";
     path_relative := λ _ file, file;
     path_normalize := λ p, p;
     slash := λ p, p;
     isCSSRequest := λ u, endsWith u ".css";
     getResolvedScript := no_resolved |}.

(** The caches once the given text of [/src/App.vue] has been transformed
    by [styled_host]. *)
Definition styled_caches (source : string) : CacheState :=
  (createDescriptor (H := styled_host) demo_file source demo_options true
     (createDescriptor (H := styled_host) demo_file source demo_options false
        empty_caches).2).2.

(** The descriptor those caches hold. *)
Definition styled_prev (source : string) : SFCDescriptor :=
  descriptor
    (createDescriptor (H := styled_host) demo_file source demo_options true
       empty_caches).1.

(** Live modules: 0 the main module, 1 and 2 the two style modules. *)
Definition styled_graph : ModuleGraph :=
  {| url := λ m, match m with
                 | 0 => "/src/App.vue"
                 | 1 => "/src/App.vue?vue&type=style&index=0&lang.css"
                 | _ => "/src/App.vue?vue&type=style&index=1&lang.css"
                 end;
     importers := λ _, [] |}.

(** A graph whose every module has the given URL. *)
Definition single_url_graph (u : string) : ModuleGraph :=
  {| url := λ _, u; importers := λ _, [] |}.

(** Live modules of a component with a separate script module: 0 the main
    module, 1 a style module, 2 the script module. *)
Definition demo_resolved_graph : ModuleGraph :=
  {| url := λ m, match m with
                 | 0 => "/src/App.vue"
                 | 1 => "/src/App.vue?vue&type=style&index=0&lang.css"
                 | _ => "/src/App.vue?vue&type=script&setup=true&lang.ts"
                 end;
     importers := λ _, [] |}.

(** A [<script setup lang="ts">] block and a [<style module>] block. *)
Definition demo_script : SFCBlock :=
  {| type := "script"; content := "const a = 1";
     attrs := [("setup", AttrTrue); ("lang", AttrStr "ts")];
     src := None; lang := Some "ts"; scoped := false; module := None;
     imports := None |}.

Definition demo_module_style : SFCBlock :=
  {| type := "style"; content := ".a{}";
     attrs := [("module", AttrTrue); ("lang", AttrStr "scss")];
     src := None; lang := Some "scss"; scoped := false;
     module := Some AttrTrue; imports := None |}.

(* ===================================================================== *)
(** * Part II: properties                                                 *)
(* ===================================================================== *)

(** ** Strings *)

Lemma string_app_cons (c : ascii) (s t : string) :
  String c s +:+ t = String c (s +:+ t).
Proof. reflexivity. Qed.

Lemma string_app_nil_l (t : string) : "" +:+ t = t.
Proof. reflexivity. Qed.

Lemma string_app_nil_r (s : string) : s +:+ "" = s.
Proof.
  induction s as [|c s IH]; [done |].
  by rewrite string_app_cons, IH.
Qed.

Lemma string_app_assoc (s t u : string) : (s +:+ t) +:+ u = s +:+ (t +:+ u).
Proof.
  induction s as [|c s IH]; [done |].
  by rewrite !string_app_cons, IH.
Qed.

Lemma startsWith_app (p s : string) : startsWith (p +:+ s) p = true.
Proof.
  unfold startsWith. induction p as [|c p IH]; [by destruct s |].
  rewrite string_app_cons. cbn [String.prefix].
  by destruct (ascii_dec c c).
Qed.

(** ** Descriptor cache *)

Section CacheProperties.
Context `{Externals}.

Lemma select_update_same hmr f st :
  select_cache hmr (update_cache hmr f st) = f (select_cache hmr st).
Proof. by destruct hmr. Qed.

Lemma select_update_other hmr f st :
  select_cache (negb hmr) (update_cache hmr f st)
  = select_cache (negb hmr) st.
Proof. by destruct hmr. Qed.

Lemma prevCache_update hmr f st :
  prevCache (update_cache hmr f st) = prevCache st.
Proof. by destruct hmr. Qed.

(** C10. [createDescriptor] writes the freshly parsed descriptor (the one
    the parser answered for this source, with its id set) into the map
    chosen by [hmr] ([hmrCache] for [true], [cache] otherwise) whatever the
    parser reported and whatever was cached before: the entry for the file
    is replaced by it, it is the descriptor returned, the returned errors
    are the parser's, and nothing else in the three maps moves. *)
Theorem createDescriptor_stores_whatever_errors
    (filename source : string) (options : ResolvedOptions) (hmr : bool)
    (st : CacheState) :
  let parsed := compiler_parse source filename (sourceMap options) in
  let fresh :=
    set_id (descriptor parsed)
      (getHash
         (slash (path_normalize (path_relative (root options) filename))
          +:+ (if truthy_flag (isProduction options) then source else "")))
  in
  let r := (createDescriptor filename source options hmr st).1 in
  let st' := (createDescriptor filename source options hmr st).2 in
  select_cache hmr st' !! filename = Some fresh
  ∧ descriptor r = fresh
  ∧ errors r = errors parsed
  ∧ select_cache hmr st' = <[filename := fresh]> (select_cache hmr st)
  ∧ select_cache (negb hmr) st' = select_cache (negb hmr) st
  ∧ prevCache st' = prevCache st.
Proof.
  cbn zeta. unfold createDescriptor. cbn [fst snd descriptor errors].
  rewrite select_update_same, select_update_other, prevCache_update.
  rewrite lookup_insert_eq. done.
Qed.

(** C6. Outside production ([isProduction] false or unset) the id stamped
    by [createDescriptor] is the hash of the root-relative path alone, so
    two sources of one file get the same id; in production the hashed
    text is that path followed by the whole source. *)
Theorem createDescriptor_id_dev_path_only
    (filename s1 s2 : string) (options : ResolvedOptions)
    (hmr1 hmr2 : bool) (st1 st2 : CacheState)
    (Hdev : truthy_flag (isProduction options) = false) :
  let normalizedPath :=
    slash (path_normalize (path_relative (root options) filename)) in
  let prod := {| root := root options; isProduction := Some true;
                 sourceMap := sourceMap options |} in
  id (descriptor (createDescriptor filename s1 options hmr1 st1).1)
    = id (descriptor (createDescriptor filename s2 options hmr2 st2).1)
  ∧ id (descriptor (createDescriptor filename s1 options hmr1 st1).1)
    = getHash normalizedPath
  ∧ id (descriptor (createDescriptor filename s1 prod hmr1 st1).1)
    = getHash (normalizedPath +:+ s1).
Proof.
  cbn zeta. unfold createDescriptor. cbn [fst descriptor set_id id].
  rewrite Hdev. cbn [truthy_flag isProduction root].
  by rewrite string_app_nil_r.
Qed.

End CacheProperties.

Section GetDescriptorProperties.
Context `{Externals}.

(** C2 (as the code has it).  [getDescriptor] throws in exactly two
    cases, both on a cache miss with [createIfNotFound]: the file cannot be
    read, or the parse reported errors and [hmr] is false, in which case
    the first parse error is thrown.  It throws in no other case: a hit
    returns the cached descriptor and a miss without [createIfNotFound]
    returns nothing, both without reading or writing.  On a miss with
    [createIfNotFound] a readable file has been parsed and cached by then
    in either mode, and with [hmr] set the descriptor is returned even
    though the parse reported errors (they are dropped). *)
Theorem getDescriptor_throws_iff
    (filename : string) (options : ResolvedOptions)
    (createIfNotFound hmr : bool) (st : CacheState) (ex : Exn) :
  let res := getDescriptor filename options createIfNotFound hmr st in
  (res.1 = Throw ex
   ↔ select_cache hmr st !! filename = None
     ∧ createIfNotFound = true
     ∧ ((readFileSync filename = None ∧ ex = FsError filename)
        ∨ (∃ source e,
             readFileSync filename = Some source
             ∧ head (errors (compiler_parse source filename
                               (sourceMap options))) = Some e
             ∧ hmr = false ∧ ex = ParseError e)))
  ∧ (∀ d, select_cache hmr st !! filename = Some d →
          res = (Normal (Some d), st))
  ∧ (select_cache hmr st !! filename = None → createIfNotFound = false →
     res = (Normal None, st))
  ∧ (select_cache hmr st !! filename = None → createIfNotFound = true →
     ∀ source,
       readFileSync filename = Some source →
       res.2 = (createDescriptor filename source options hmr st).2
       ∧ (hmr = true →
          res.1
          = Normal (Some (descriptor
                      (createDescriptor filename source options hmr st).1)))).
Proof.
  cbn zeta. unfold getDescriptor.
  destruct (select_cache hmr st !! filename) as [d|] eqn:Hlook.
  { cbn [fst snd]. split; [| split; [| split]]; try done.
    - split; [done | by intros [? _]].
    - by intros d' [= <-]. }
  destruct createIfNotFound.
  2: { cbn [fst snd]. split; [| split; [| split]]; try done.
       split; [done | by intros (_ & ? & _)]. }
  split; [| split; [done | split; [done |]]].
  - destruct (readFileSync filename) as [source|] eqn:Hread.
    + unfold createDescriptor. cbn [errors descriptor fst snd].
      destruct (errors (compiler_parse source filename (sourceMap options)))
        as [|e es] eqn:Herr.
      * split; [done |].
        intros (_ & _ & [[? _] | (source' & e & Hs & He & _)]); [done |].
        injection Hs as <-. by rewrite Herr in He.
      * destruct hmr; cbn [negb fst snd].
        -- split; [done |].
           by intros (_ & _ & [[? _] | (source' & e' & _ & _ & ? & _)]).
        -- split.
           ++ intros [= <-]. split; [done |]. split; [done |].
              right. exists source, e. rewrite Herr. done.
           ++ intros (_ & _ & [[? _] | (source' & e' & Hs & He & _ & ->)]);
                [done |].
              injection Hs as <-. rewrite Herr in He.
              by injection He as <-.
    + cbn [fst snd]. split.
      * intros [= <-]. split; [done |]. split; [done |]. by left.
      * by intros (_ & _ & [[_ ->] | (source' & e' & ? & _)]).
  - intros _ _ source Hread. rewrite Hread.
    unfold createDescriptor. cbn [errors descriptor fst snd].
    destruct (errors (compiler_parse source filename (sourceMap options)))
      as [|e es]; [done |].
    by destruct hmr.
Qed.

End GetDescriptorProperties.

(** ** Block comparison *)

Section ScriptChangeProperties.
Context `{Externals}.

(** With both script blocks unchanged, the answer is read off the import
    list resolved for the previous descriptor. *)
Lemma hasScriptChanged_blocks_equal (prev next : SFCDescriptor) :
  isEqualBlock (script prev) (script next) = true →
  isEqualBlock (scriptSetup prev) (scriptSetup next) = true →
  hasScriptChanged prev next
  = match getResolvedScript prev false ≫= imports with
    | Some prevImports =>
        negb (bool_decide (is_Some (template next)))
        || shouldForceReload next prevImports
    | None => false
    end.
Proof.
  intros Hscript Hsetup. unfold hasScriptChanged.
  rewrite Hscript, Hsetup. cbn [negb].
  by destruct (getResolvedScript prev false).
Qed.

(** C7. With the [<script>] and [<script setup>] blocks both unchanged,
    [hasScriptChanged] answers true exactly when the previous descriptor
    has a resolved script carrying an import list and either the new
    descriptor has no template or its [shouldForceReload] accepts that
    list; without such a list it answers false. *)
Theorem hasScriptChanged_when_blocks_equal
    (prev next : SFCDescriptor)
    (Hscript : isEqualBlock (script prev) (script next) = true)
    (Hsetup : isEqualBlock (scriptSetup prev) (scriptSetup next) = true) :
  (hasScriptChanged prev next = true
   ↔ ∃ prevImports,
       getResolvedScript prev false ≫= imports = Some prevImports
       ∧ (template next = None
          ∨ shouldForceReload next prevImports = true))
  ∧ (getResolvedScript prev false ≫= imports = None →
     hasScriptChanged prev next = false).
Proof.
  rewrite (hasScriptChanged_blocks_equal prev next Hscript Hsetup).
  destruct (getResolvedScript prev false ≫= imports) as [imps|].
  - split; [| done]. split.
    + intros Hor. exists imps. split; [done |].
      apply orb_true_iff in Hor as [Hno | Hforce]; [left | by right].
      destruct (template next); [| done].
      rewrite bool_decide_eq_true_2 in Hno; [done | by eexists].
    + intros (imps' & [= <-] & [Hno | Hforce]).
      * rewrite Hno. rewrite bool_decide_eq_false_2; [done |].
        by intros [? ?].
      * rewrite Hforce. apply orb_true_r.
  - split; [| done]. split; [done |]. by intros (? & ? & _).
Qed.

End ScriptChangeProperties.

(** *** Attribute objects as finite maps *)

Lemma attr_value_eqb_eq (a b : AttrValue) :
  attr_value_eqb a b = true ↔ a = b.
Proof.
  destruct a as [|s], b as [|t]; cbn; try (split; congruence).
  rewrite String.eqb_eq. split; congruence.
Qed.

Lemma opt_attr_eqb_eq (x y : option AttrValue) :
  opt_attr_eqb x y = true ↔ x = y.
Proof.
  destruct x as [a|], y as [b|]; cbn; try (split; congruence).
  rewrite attr_value_eqb_eq. split; congruence.
Qed.

Lemma attrs_get_lookup (a : Attrs) (k : string) :
  attrs_get a k = attrs_map a !! k.
Proof.
  unfold attrs_map. induction a as [|[k' v] a IH]; [done |].
  cbn [attrs_get]. rewrite list_to_map_cons.
  destruct (String.eqb_spec k' k) as [-> | Hne].
  - by rewrite lookup_insert_eq.
  - by rewrite lookup_insert_ne.
Qed.

Lemma attrs_get_in (a : Attrs) (k : string) (v : AttrValue) :
  NoDup (attrs_keys a) → (k, v) ∈ a → attrs_get a k = Some v.
Proof.
  intros Hnd Hin. rewrite attrs_get_lookup.
  by apply elem_of_list_to_map_1.
Qed.

Lemma attrs_map_dom (a : Attrs) (k : string) :
  k ∈ dom (attrs_map a) ↔ k ∈ attrs_keys a.
Proof.
  unfold attrs_map, attrs_keys. rewrite dom_list_to_map_L.
  by rewrite elem_of_list_to_set.
Qed.

Lemma attrs_map_size (a : Attrs) :
  NoDup (attrs_keys a) → size (attrs_map a) = length a.
Proof. apply map_size_list_to_map. Qed.

(** The comparison of [Object.keys] lengths and of every value of [a]
    decides equality of the two objects. *)
Lemma attrs_compare_eq (a b : Attrs) :
  NoDup (attrs_keys a) → NoDup (attrs_keys b) →
  (negb (length (attrs_keys a) =? length (attrs_keys b)) = false
   ∧ forallb (λ key, opt_attr_eqb (attrs_get a key) (attrs_get b key))
       (attrs_keys a) = true)
  ↔ attrs_map a = attrs_map b.
Proof.
  intros Ha Hb. unfold attrs_keys at 1 2. rewrite !length_map.
  rewrite negb_false_iff, Nat.eqb_eq, forallb_forall.
  split.
  - intros [Hlen Hall].
    assert (Hkeys : ∀ k, k ∈ attrs_keys a → attrs_map a !! k = attrs_map b !! k).
    { intros k Hk. rewrite <- !attrs_get_lookup. apply opt_attr_eqb_eq.
      apply Hall. by apply list_elem_of_In. }
    assert (Hsub : dom (attrs_map a) ⊆ dom (attrs_map b)).
    { intros k Hk. apply elem_of_dom. rewrite <- Hkeys.
      - by apply elem_of_dom.
      - by apply attrs_map_dom. }
    assert (Hdom : dom (attrs_map a) ≡ dom (attrs_map b)).
    { apply set_subseteq_size_equiv; [done |].
      rewrite !size_dom, !attrs_map_size by done. lia. }
    apply map_eq. intros k.
    destruct (decide (k ∈ attrs_keys a)) as [Hk | Hk]; [by apply Hkeys |].
    rewrite <- attrs_map_dom in Hk.
    assert (Hk' : k ∉ dom (attrs_map b)) by by rewrite <- Hdom.
    apply not_elem_of_dom in Hk, Hk'. by rewrite Hk, Hk'.
  - intros Heq. split.
    + by rewrite <- (attrs_map_size a), <- (attrs_map_size b), Heq.
    + intros k _. apply opt_attr_eqb_eq.
      by rewrite !attrs_get_lookup, Heq.
Qed.

Lemma src_shortcut_eq (x y : SFCBlock) :
  truthy_str (src x) && truthy_str (src y)
    && String.eqb (opt_to_string (src x)) (opt_to_string (src y))
  = match src x with
    | Some s => bool_decide (s ≠ "" ∧ src y = Some s)
    | None => false
    end.
Proof.
  destruct (src x) as [s|]; [| done]. cbn [truthy_str opt_to_string].
  destruct (String.eqb_spec s "") as [-> | Hs]; cbn [negb andb].
  { rewrite bool_decide_eq_false_2; [done | by intros [? _]]. }
  destruct (src y) as [t|]; cbn [truthy_str opt_to_string andb].
  - destruct (String.eqb_spec t "") as [-> | Ht]; cbn [negb andb].
    + rewrite bool_decide_eq_false_2; [done | intros [? [= ?]]; congruence].
    + destruct (String.eqb_spec s t) as [-> | Hst].
      * by rewrite bool_decide_eq_true_2.
      * rewrite bool_decide_eq_false_2; [done | intros [? [= ?]]; congruence].
  - rewrite bool_decide_eq_false_2; [done | by intros [? ?]].
Qed.

(** C4. On blocks whose attribute names are pairwise distinct (as the keys
    of an object are), [isEqualBlock] is the reference comparison: true for
    two absent blocks, false for one absent block, true for the same
    non-empty [src] whatever the contents, and otherwise true exactly when
    the contents are identical and the attributes are the same finite map.
    Hence a block whose attributes are only reordered compares equal. *)
Theorem isEqualBlock_is_reference (a b : option SFCBlock)
    (Ha : block_keys_distinct a) (Hb : block_keys_distinct b) :
  isEqualBlock a b = blockEquals_ref a b
  ∧ (∀ x y, a = Some x → b = Some y →
            content x = content y → attrs x ≡ₚ attrs y →
            isEqualBlock a b = true).
Proof.
  assert (Href : isEqualBlock a b = blockEquals_ref a b).
  { destruct a as [x|], b as [y|]; try done.
    cbn [isEqualBlock blockEquals_ref block_keys_distinct] in *.
    rewrite src_shortcut_eq.
    destruct (match src x with
              | Some s => bool_decide (s ≠ "" ∧ src y = Some s)
              | None => false
              end); [done |].
    cbn [orb].
    destruct (String.eqb_spec (content x) (content y)) as [Hc | Hc];
      cbn [negb].
    - apply eq_true_iff_eq. rewrite bool_decide_eq_true.
      rewrite <- (attrs_compare_eq (attrs x) (attrs y)) by done.
      destruct (negb (length (attrs_keys (attrs x))
                      =? length (attrs_keys (attrs y)))).
      + split; [done | by intros [_ [? _]]].
      + split; [by intros ? | by intros [_ [_ ?]]].
    - rewrite bool_decide_eq_false_2; [done | by intros [? _]]. }
  split; [done |].
  intros x y -> -> Hc Hperm. rewrite Href.
  cbn [blockEquals_ref block_keys_distinct] in *.
  apply orb_true_iff. right. apply bool_decide_eq_true. split; [done |].
  by apply list_to_map_proper.
Qed.

(** ** The attribute query *)

Lemma concat_strings_cons (s : string) (l : list string) :
  concat_strings (s :: l) = s +:+ concat_strings l.
Proof. reflexivity. Qed.

Lemma concat_strings_app (l1 l2 : list string) :
  concat_strings (l1 ++ l2) = concat_strings l1 +:+ concat_strings l2.
Proof.
  induction l1 as [|s l1 IH]; [done |].
  rewrite <- app_comm_cons, !concat_strings_cons, IH.
  by rewrite string_app_assoc.
Qed.

Lemma attrsToQuery_step_fragment (attrs : Attrs) (query k : string)
    (v : AttrValue) :
  attrs_get attrs k = Some v →
  attrsToQuery_step attrs query k
  = query +:+ concat_strings
                (List.map attr_fragment (List.filter not_ignored [(k, v)])).
Proof.
  intros Hget. unfold attrsToQuery_step. rewrite Hget.
  cbn [List.filter]. unfold not_ignored at 1. cbn [fst].
  destruct (negb (list_includes ignoreList k)).
  - cbn [List.map]. rewrite concat_strings_cons.
    unfold attr_fragment. cbn [fst snd concat_strings foldr].
    by rewrite string_app_nil_r.
  - cbn [List.map concat_strings foldr]. by rewrite string_app_nil_r.
Qed.

Lemma attrsToQuery_fold (attrs l : Attrs) (query : string) :
  (∀ k v, (k, v) ∈ l → attrs_get attrs k = Some v) →
  fold_left (attrsToQuery_step attrs) (attrs_keys l) query
  = query +:+ concat_strings
                (List.map attr_fragment (List.filter not_ignored l)).
Proof.
  revert query. induction l as [|[k v] l IH]; intros query Hall.
  - cbn. by rewrite string_app_nil_r.
  - cbn [attrs_keys List.map fst fold_left].
    rewrite (attrsToQuery_step_fragment attrs query k v)
      by (apply Hall; left).
    fold (attrs_keys l). rewrite IH by (intros; apply Hall; by right).
    rewrite string_app_assoc, <- concat_strings_app, <- List.map_app.
    by rewrite <- List.filter_app.
Qed.

Lemma attrsToQuery_loop_fragments (attrs : Attrs) :
  NoDup (attrs_keys attrs) →
  attrsToQuery_loop attrs
  = concat_strings (List.map attr_fragment (List.filter not_ignored attrs)).
Proof.
  intros Hkeys. unfold attrsToQuery_loop. rewrite attrsToQuery_fold; [done |].
  intros k v Hin. by apply attrs_get_in.
Qed.

(** C3 (as the code has it).  For an attribute object (distinct names), the
    loop of [attrsToQuery] writes, in iteration order and skipping the
    names of [ignoreList], one fragment per attribute: [&name=value] when
    the value is truthy ([true] is written as [=true], a non-empty string
    as itself), a bare [&name] when it is the empty string; name and value
    both go through [encodeURIComponent].  The language suffix, if any,
    comes after the fragments. *)
Theorem attrsToQuery_fragments (attrs : Attrs) (langFallback : option string)
    (forceLangFallback : bool) (Hkeys : NoDup (attrs_keys attrs)) :
  attrsToQuery_loop attrs
  = concat_strings (List.map attr_fragment (List.filter not_ignored attrs))
  ∧ (∀ name, attr_fragment (name, AttrTrue)
             = "&" +:+ encodeURIComponent name +:+ "=true")
  ∧ (∀ name, attr_fragment (name, AttrStr "")
             = "&" +:+ encodeURIComponent name)
  ∧ (∃ suffix,
       attrsToQuery attrs langFallback forceLangFallback
       = attrsToQuery_loop attrs +:+ suffix
       ∧ (suffix = "" ∨ startsWith suffix "&lang." = true)).
Proof.
  split; [| split; [| split]].
  - by apply attrsToQuery_loop_fragments.
  - done.
  - intros name. unfold attr_fragment. cbn. by rewrite string_app_nil_r.
  - unfold attrsToQuery.
    destruct (truthy_str langFallback || _).
    + eexists. split; [done |]. right.
      destruct (attrs_has attrs "lang"), forceLangFallback;
        apply startsWith_app.
    + exists "". split; [by rewrite string_app_nil_r | by left].
Qed.

(** ** Source-map concatenation *)

Lemma count_newline_matches_cons (c : ascii) (r : string) :
  count_newline_matches (String c r)
  = if char_code c =? 13 then
      match r with
      | String c' r' =>
          if char_code c' =? 10 then S (count_newline_matches r')
          else count_newline_matches r
      | EmptyString => 0
      end
    else if char_code c =? 10 then S (count_newline_matches r)
    else count_newline_matches r.
Proof. reflexivity. Qed.

Lemma count_lf_cons (c : ascii) (r : string) :
  count_lf (String c r) = (if char_code c =? 10 then 1 else 0) + count_lf r.
Proof. reflexivity. Qed.

Lemma count_newline_matches_lf_aux (s : string) :
  count_newline_matches s = count_lf s
  ∧ ∀ c, count_newline_matches (String c s) = count_lf (String c s).
Proof.
  induction s as [|c' r [IH1 IH2]].
  - split; [done |]. intros c.
    rewrite count_newline_matches_cons, count_lf_cons.
    destruct (char_code c =? 13) eqn:Hcr.
    + apply Nat.eqb_eq in Hcr. by rewrite Hcr.
    + by destruct (char_code c =? 10).
  - split; [apply IH2 |]. intros c.
    rewrite count_newline_matches_cons, (count_lf_cons c).
    destruct (char_code c =? 13) eqn:Hcr.
    + apply Nat.eqb_eq in Hcr. rewrite Hcr. cbn [Nat.eqb Nat.add].
      destruct (char_code c' =? 10) eqn:Hlf.
      * rewrite IH1, count_lf_cons, Hlf. done.
      * apply IH2.
    + destruct (char_code c =? 10); rewrite IH2; done.
Qed.

(** The matches of [/\r?\n/g] are as many as the line feeds. *)
Lemma count_newline_matches_lf (s : string) :
  count_newline_matches s = count_lf s.
Proof. apply count_newline_matches_lf_aux. Qed.

Lemma elem_of_insert_mapping (x m : Mapping) (l : list Mapping) :
  x ∈ insert_mapping m l ↔ x = m ∨ x ∈ l.
Proof.
  induction l as [|y l IH]; cbn [insert_mapping].
  - rewrite list_elem_of_singleton, elem_of_nil. tauto.
  - destruct (existsb _ _).
    + rewrite !elem_of_cons, IH. tauto.
    + rewrite !elem_of_cons. tauto.
Qed.

Lemma elem_of_concat_step (offset : nat) (gen : GenMapping) (m x : Mapping) :
  x ∈ gen_mappings (concat_step offset gen m)
  ↔ x ∈ gen_mappings gen ∨ written offset m = Some x.
Proof.
  unfold concat_step, written, addMapping, shifted.
  destruct (m_source m) as [source|] eqn:Hsrc.
  - destruct (String.eqb source ""); cbn [gen_mappings fst snd];
      rewrite elem_of_insert_mapping.
    + split; [intros [-> | ?]; [by right | by left]
             | intros [? | [= <-]]; [by right | by left]].
    + split; [intros [-> | ?]; [by right | by left]
             | intros [? | [= <-]]; [by right | by left]].
  - split; [by left | by intros [? | ?]].
Qed.

Lemma elem_of_concat_fold (offset : nat) (ms : list Mapping)
    (gen : GenMapping) (x : Mapping) :
  x ∈ gen_mappings (fold_left (concat_step offset) ms gen)
  ↔ x ∈ gen_mappings gen ∨ ∃ m, m ∈ ms ∧ written offset m = Some x.
Proof.
  revert gen. induction ms as [|m ms IH]; intros gen; cbn [fold_left].
  - split; [by left |]. intros [? | (m & Hm & _)]; [done |].
    by apply elem_of_nil in Hm.
  - rewrite IH, elem_of_concat_step. split.
    + intros [[? | Hw] | (m' & Hm' & Hw)]; [by left | |].
      * right. exists m. split; [left | done].
      * right. exists m'. split; [by right | done].
    + intros [? | (m' & Hm' & Hw)]; [by left; left |].
      apply elem_of_cons in Hm' as [-> | Hm'].
      * left. by right.
      * right. by exists m'.
Qed.

Lemma written_line_column (offset : nat) (m x : Mapping) :
  written offset m = Some x →
  is_Some (m_source m)
  ∧ generatedLine x = generatedLine m + offset
  ∧ generatedColumn x = generatedColumn m.
Proof.
  unfold written. destruct (m_source m) as [source|]; [| done].
  destruct (String.eqb source ""); intros [= <-]; by split; [eexists |].
Qed.

(** C5 (as the code has it).  With source maps enabled and no TypeScript
    pass over the result: the offset is the number of line feeds of the
    script code plus one; when both maps exist, every template entry that
    names a (non-empty) source is in the merged map with its source and
    original position, its generated line raised by the offset and its
    column kept, every merged entry is either a script entry or such a
    raised template entry (so its line is at least the offset), and
    [sourcesContent] is the template map's; one map alone is returned as it
    is; with no map the result is the empty map. *)
Theorem concat_maps_offsets_template_entries
    (options : ResolvedOptions) (d : SFCDescriptor) (scriptCode : string)
    (scriptMap templateMap : option RawSourceMap) (esbuildMap : RawSourceMap)
    (Hmaps : sourceMap options = true)
    (Hjs : needs_ts_transpile d = false) :
  let result :=
    transformMain_map options d scriptCode scriptMap templateMap esbuildMap in
  let offset := map_offset scriptCode in
  offset = count_lf scriptCode + 1
  ∧ match scriptMap, templateMap with
    | Some s, Some t =>
        (∀ m source,
           m ∈ mappings t → m_source m = Some source → source ≠ "" →
           shifted offset m ∈ mappings result)
        ∧ (∀ x, x ∈ mappings result →
                x ∈ mappings s
                ∨ ∃ m, m ∈ mappings t ∧ is_Some (m_source m)
                       ∧ generatedLine x = generatedLine m + offset
                       ∧ generatedColumn x = generatedColumn m
                       ∧ count_lf scriptCode + 1 ≤ generatedLine x)
        ∧ sourcesContent result = sourcesContent t
    | Some s, None => result = s
    | None, Some t => result = t
    | None, None => result = empty_map ∧ mappings result = []
    end.
Proof.
  cbn zeta. unfold transformMain_map, resolveMap. rewrite Hmaps, Hjs.
  unfold map_offset. rewrite count_newline_matches_lf.
  split; [done |].
  destruct scriptMap as [s|], templateMap as [t|]; try done.
  unfold concat_maps, map_offset, eachMapping, toEncodedMap.
  cbn [mappings sourcesContent sources].
  rewrite count_newline_matches_lf.
  split; [| split; [| done]].
  - intros m source Hm Hsrc Hne. apply elem_of_concat_fold. right.
    exists m. split; [done |]. unfold written. rewrite Hsrc.
    by apply String.eqb_neq in Hne as ->.
  - intros x Hx. apply elem_of_concat_fold in Hx as [Hx | (m & Hm & Hw)].
    + by left.
    + right. exists m. apply written_line_column in Hw as (? & Hl & ?).
      repeat split; try done. lia.
Qed.

(** ** The hot-update classifier *)

Lemma style_step_didUpdateStyle g modules mainModule prevStyles i next s :
  didUpdateStyle (style_step g modules mainModule prevStyles i next s)
  = didUpdateStyle s || block_differs (prevStyles !! i) next.
Proof.
  unfold style_step. destruct (block_differs (prevStyles !! i) next).
  - destruct (find_style_module g modules i next); cbn; by rewrite orb_true_r.
  - by rewrite orb_false_r.
Qed.

Lemma style_loop_didUpdateStyle g modules mainModule prevStyles nextStyles :
  ∀ i s,
    didUpdateStyle
      (style_loop g modules mainModule prevStyles i nextStyles s) = true
    ↔ didUpdateStyle s = true
      ∨ ∃ j blk, nextStyles !! j = Some blk
                 ∧ block_differs (prevStyles !! (i + j)) blk = true.
Proof.
  induction nextStyles as [|next rest IH]; intros i s; cbn [style_loop].
  - split; [by left |]. by intros [? | (j & blk & ? & _)].
  - rewrite IH, style_step_didUpdateStyle, orb_true_iff. split.
    + intros [[? | Hd] | (j & blk & Hj & Hd)].
      * by left.
      * right. exists 0, next. by rewrite Nat.add_0_r.
      * right. exists (S j), blk. split; [done |].
        by replace (i + S j) with (S i + j) by lia.
    + intros [? | (j & blk & Hj & Hd)]; [by left; left |].
      destruct j as [|j].
      * injection Hj as <-. rewrite Nat.add_0_r in Hd. left. by right.
      * right. exists j, blk. split; [done |].
        by replace (S i + j) with (i + S j) by lia.
Qed.

Lemma set_add_fold_importers (l : list ModuleNode) :
  ∀ a0 : ModuleSet,
    ∃ extra,
      fold_left (λ a m, set_add (Some m) a) l a0 = a0 ++ extra
      ∧ ∀ x, x ∈ extra ↔ ((x ∉ a0) ∧ ∃ m, m ∈ l ∧ x = Some m).
Proof.
  induction l as [|m l IH]; intros a0; cbn [fold_left].
  - exists []. split; [by rewrite app_nil_r |].
    intros x. split; [by intros ?%elem_of_nil |].
    by intros [_ (m & ?%elem_of_nil & _)].
  - destruct (IH (set_add (Some m) a0)) as (extra & Heq & Hin).
    unfold set_add, set_has in *.
    destruct (bool_decide_reflect (Some m ∈ a0)) as [Hm | Hm].
    + exists extra. split; [done |]. intros x. rewrite Hin. split.
      * intros [? (m' & ? & ->)]. split; [done |].
        exists m'. split; [by right | done].
      * intros [Hx (m' & [-> | ?]%elem_of_cons & ->)]; [done |].
        split; [done |]. by exists m'.
    + exists (Some m :: extra). split.
      { rewrite Heq, <- app_assoc. done. }
      intros x. rewrite elem_of_cons, Hin, elem_of_app, list_elem_of_singleton.
      split.
      * intros [-> | [Hx (m' & ? & ->)]].
        -- split; [done |]. exists m. split; [left | done].
        -- split; [tauto |]. exists m'. split; [by right | done].
      * intros [Hx (m' & [-> | ?]%elem_of_cons & ->)]; [by left |].
        destruct (decide (m' = m)) as [-> | Hne]; [by left |].
        right. split; [| by exists m'].
        intros [? | [= ?]]; done.
Qed.

Lemma set_add_nil (x : option ModuleNode) : set_add x [] = [x].
Proof.
  unfold set_add, set_has.
  by rewrite bool_decide_eq_false_2 by (by intros ?%elem_of_nil).
Qed.

Lemma set_has_singleton (x y : option ModuleNode) :
  set_has [x] y = bool_decide (y = x).
Proof.
  unfold set_has. apply bool_decide_ext.
  rewrite list_elem_of_singleton. done.
Qed.

(** *** Nothing leaves the affected set *)

Lemma set_add_here (x : option ModuleNode) (s : ModuleSet) : x ∈ set_add x s.
Proof.
  unfold set_add, set_has.
  destruct (bool_decide_reflect (x ∈ s)); [done |].
  apply elem_of_app. right. left.
Qed.

Lemma set_add_mono (x y : option ModuleNode) (s : ModuleSet) :
  x ∈ s → x ∈ set_add y s.
Proof.
  intros Hx. unfold set_add. destruct (set_has s y); [done |].
  apply elem_of_app. by left.
Qed.

Lemma style_loop_mono g modules mainModule prevStyles nextStyles x :
  ∀ i s,
    x ∈ affectedModules s →
    x ∈ affectedModules
          (style_loop g modules mainModule prevStyles i nextStyles s).
Proof.
  induction nextStyles as [|next rest IH]; intros i s Hx; [done |].
  cbn [style_loop]. apply IH. unfold style_step.
  destruct (block_differs _ _); [| done].
  destruct (find_style_module _ _ _ _) as [m|]; cbn [affectedModules].
  - destruct (includes _ _); repeat apply set_add_mono; done.
  - by apply set_add_mono.
Qed.

Lemma custom_loop_mono g modules mainModule prevCustoms nextCustoms x :
  ∀ i a,
    x ∈ a →
    x ∈ custom_loop g modules mainModule prevCustoms i nextCustoms a.
Proof.
  induction nextCustoms as [|next rest IH]; intros i a Hx; [done |].
  cbn [custom_loop]. apply IH. unfold custom_step.
  destruct (prevCustoms !! i) as [prev|]; [| done].
  destruct (negb _); [| done].
  destruct (List.find _ _); by apply set_add_mono.
Qed.

Lemma set_add_fold_mono (l : list ModuleNode) (a : ModuleSet)
    (x : option ModuleNode) :
  x ∈ a → x ∈ fold_left (λ a m, set_add (Some m) a) l a.
Proof.
  intros Hx. destruct (set_add_fold_importers l a) as (extra & -> & _).
  apply elem_of_app. by left.
Qed.

Section HotUpdateProperties.
Context `{Externals}.

(** Without [createIfNotFound] the lookup neither throws nor writes. *)
Lemma getDescriptor_lookup_only filename options hmr st :
  getDescriptor filename options false hmr st
  = (Normal (select_cache hmr st !! filename), st).
Proof.
  unfold getDescriptor. by destruct (select_cache hmr st !! filename).
Qed.

Lemma getDescriptor_hit filename options createIfNotFound hmr st d :
  select_cache hmr st !! filename = Some d →
  getDescriptor filename options createIfNotFound hmr st
  = (Normal (Some d), st).
Proof. intros Hd. unfold getDescriptor. by rewrite Hd. Qed.

(** C9 (as the code has it).  A file with nothing but a template, whose
    template block is found changed, with no resolved import list for the
    previous descriptor: the update kind is [template] alone, and the
    returned modules depend on the live modules.  Without a template
    module (the template is compiled into the main module) the result is
    the main module; with one it is the template module, followed by the
    stylesheet importers of the main module when the main module is a
    different module, so the main module itself is returned only if it is
    a stylesheet request among its own importers. *)
Theorem handleHotUpdate_template_only
    (g : ModuleGraph) (file : string) (modules : list ModuleNode)
    (content : string) (options : ResolvedOptions) (st : CacheState)
    (prev : SFCDescriptor)
    (Hprev : hmrCache st !! file = Some prev)
    (Hprev_only :
       script prev = None ∧ scriptSetup prev = None
       ∧ styles prev = [] ∧ customBlocks prev = [])
    (Hnext_only :
       let next :=
         descriptor (createDescriptor file content options true st).1 in
       script next = None ∧ scriptSetup next = None
       ∧ styles next = [] ∧ customBlocks next = []
       ∧ join_empty (cssVars next) = join_empty (cssVars prev)
       ∧ isEqualBlock (template next) (template prev) = false)
    (Hresolved : getResolvedScript prev false ≫= imports = None) :
  let res := handleHotUpdate g file modules content options st in
  let mainModule := getMainModule g modules in
  let templateModule :=
    List.find (λ m, includes (url g m) "type=template") modules in
  updateType res = ["template"]
  ∧ match templateModule, mainModule with
    | None, Some mm => returned res = Some [mm]
    | None, None => returned res = Some []
    | Some tm, None => returned res = Some [tm]
    | Some tm, Some mm =>
        if decide (mm = tm) then returned res = Some [tm]
        else ∃ rest,
               returned res = Some (tm :: rest)
               ∧ ∀ x, x ∈ rest
                      ↔ x ≠ tm ∧ x ∈ importers g mm
                        ∧ isCSSRequest (url g x) = true
    end.
Proof.
  cbn zeta in *. unfold handleHotUpdate.
  rewrite (getDescriptor_hit file options false true st prev Hprev).
  revert Hnext_only. unfold createDescriptor. cbn [fst snd descriptor].
  set (next := set_id _ _).
  intros (Hs & Hss & Hst & Hcb & Hvars & Htpl).
  destruct Hprev_only as (Hps & Hpss & Hpst & Hpcb).
  assert (Hsc : hasScriptChanged prev next = false).
  { rewrite hasScriptChanged_blocks_equal, Hresolved; [done | |].
    - by rewrite Hps, Hs.
    - by rewrite Hpss, Hss. }
  rewrite Hsc, Htpl, Hst, Hcb, Hpst, Hpcb, Hvars, String.eqb_refl.
  cbn [negb andb existsb Bool.eqb style_loop custom_loop length Nat.ltb
       Nat.leb Nat.eqb affectedModules didUpdateStyle app
       updateType returned].
  split; [done |].
  rewrite !set_add_nil.
  destruct (List.find _ modules) as [tm|] eqn:Htm.
  - destruct (getMainModule g modules) as [mm|] eqn:Hmm; [| done].
    rewrite set_has_singleton.
    destruct (decide (mm = tm)) as [-> | Hne].
    + by rewrite bool_decide_eq_true_2.
    + rewrite bool_decide_eq_false_2 by congruence. cbn [negb].
      destruct (set_add_fold_importers
                  (List.filter (λ m, isCSSRequest (url g m))
                               (importers g mm)) [Some tm])
        as (extra & -> & Hextra).
      exists (filter_Boolean extra). split; [done |].
      intros x. unfold filter_Boolean. rewrite list_elem_of_omap.
      split.
      * intros (y & Hy & ->).
        apply Hextra in Hy as [Hnot (m & Hm & [= <-])].
        apply list_elem_of_In, List.filter_In in Hm as [Hm Hcss].
        split; [| split; [by apply list_elem_of_In | done]].
        intros ->. apply Hnot. left.
      * intros (Hx & Hin & Hcss). exists (Some x). split; [| done].
        apply Hextra. split.
        -- rewrite list_elem_of_singleton. congruence.
        -- exists x. split; [| done].
           apply list_elem_of_In, List.filter_In.
           split; [by apply list_elem_of_In | done].
  - unfold set_add. rewrite set_has_singleton.
    destruct (getMainModule g modules) as [mm|].
    + by rewrite bool_decide_eq_false_2.
    + by rewrite bool_decide_eq_true_2.
Qed.

(** Scenario D: whenever [hasScriptChanged] answers true (for instance for
    an unchanged [<script setup>] whose resolved imports the edited template
    no longer needs), the script module, or the main module when no script
    module is live, is among the returned modules. *)
Lemma handleHotUpdate_script_changed_returns_script_module
    (g : ModuleGraph) (file : string) (modules : list ModuleNode)
    (content : string) (options : ResolvedOptions) (st : CacheState)
    (prev : SFCDescriptor) (m : ModuleNode) :
  hmrCache st !! file = Some prev →
  hasScriptChanged prev
    (descriptor (createDescriptor file content options true st).1) = true →
  or_module (getScriptModule g modules) (getMainModule g modules) = Some m →
  ∃ l, returned (handleHotUpdate g file modules content options st) = Some l
       ∧ m ∈ l.
Proof.
  intros Hprev Hchanged Hm. unfold handleHotUpdate.
  rewrite (getDescriptor_hit file options false true st prev Hprev).
  revert Hchanged. unfold createDescriptor. cbn [fst snd descriptor].
  intros ->. rewrite Hm. cbn [returned].
  eexists. split; [reflexivity |].
  unfold filter_Boolean. apply list_elem_of_omap. exists (Some m).
  split; [| done].
  repeat first
    [ apply set_add_here
    | apply set_add_mono
    | apply style_loop_mono; cbn [affectedModules]
    | apply custom_loop_mono
    | apply set_add_fold_mono
    | match goal with
      | |- _ ∈ (if ?b then _ else _) => destruct b
      | |- _ ∈ match ?o with Some _ => _ | None => _ end => destruct o
      end ].
Qed.

(** The main module is returned when the joined CSS variables differ. *)
Lemma handleHotUpdate_cssVars_returns_main
    (g : ModuleGraph) (file : string) (modules : list ModuleNode)
    (content : string) (options : ResolvedOptions) (st : CacheState)
    (prev : SFCDescriptor) (mm : ModuleNode) :
  hmrCache st !! file = Some prev →
  join_empty (cssVars prev)
  ≠ join_empty
      (cssVars (descriptor (createDescriptor file content options true st).1)) →
  getMainModule g modules = Some mm →
  ∃ l, returned (handleHotUpdate g file modules content options st) = Some l
       ∧ mm ∈ l.
Proof.
  intros Hprev Hvars Hm. unfold handleHotUpdate.
  rewrite (getDescriptor_hit file options false true st prev Hprev).
  revert Hvars. unfold createDescriptor. cbn [fst snd descriptor].
  intros Hvars%String.eqb_neq. rewrite Hvars, Hm. cbn [negb returned].
  eexists. split; [reflexivity |].
  unfold filter_Boolean. apply list_elem_of_omap. exists (Some mm).
  split; [| done].
  repeat first
    [ apply set_add_here
    | apply set_add_mono
    | apply style_loop_mono; cbn [affectedModules]
    | apply custom_loop_mono
    | apply set_add_fold_mono
    | match goal with
      | |- _ ∈ (if ?b then _ else _) => destruct b
      | |- _ ∈ match ?o with Some _ => _ | None => _ end => destruct o
      end ].
Qed.

(** C1 (as the code has it).  A run of the handler on a file it has seen
    stores the new descriptor in [hmrCache], and calls
    [invalidateDescriptor] exactly when an update kind was recorded: the
    template block differs (kind [template]) or some style block of the
    new descriptor is new or differs from the previous one at its index
    (kind [style]).  Then the file's [cache] entry is removed and, if
    there was one, kept as its [prevCache] entry; otherwise [cache] and
    [prevCache] are as before, whatever was added to the affected set.
    A script change ([hasScriptChanged]) adds the script module, or the
    main module when no script module is live, and a change of the joined
    CSS variables adds the main module: when such a module is live it is
    returned, and neither change is an update kind, so a run in which
    nothing else changed leaves [cache] and [prevCache] as they were. *)
Theorem handleHotUpdate_invalidates_iff_update_kind
    (g : ModuleGraph) (file : string) (modules : list ModuleNode)
    (content : string) (options : ResolvedOptions) (st : CacheState)
    (prev : SFCDescriptor)
    (Hprev : hmrCache st !! file = Some prev) :
  let next := descriptor (createDescriptor file content options true st).1 in
  let res := handleHotUpdate g file modules content options st in
  let templateChanged :=
    negb (isEqualBlock (template next) (template prev)) in
  (∃ styleChanged : bool,
     (styleChanged = true
      ↔ ∃ i blk, styles next !! i = Some blk
                 ∧ block_differs (styles prev !! i) blk = true)
     ∧ updateType res
       = (if templateChanged then ["template"] else [])
         ++ (if styleChanged then ["style"] else [])
     ∧ hmrCache (cachesAfter res) = <[file := next]> (hmrCache st)
     ∧ (if templateChanged || styleChanged
        then cache (cachesAfter res) = delete file (cache st)
             ∧ prevCache (cachesAfter res)
               = match cache st !! file with
                 | Some d => <[file := d]> (prevCache st)
                 | None => prevCache st
                 end
        else cache (cachesAfter res) = cache st
             ∧ prevCache (cachesAfter res) = prevCache st))
  ∧ (hasScriptChanged prev next = true →
     ∀ m, or_module (getScriptModule g modules) (getMainModule g modules)
          = Some m →
          ∃ l, returned res = Some l ∧ m ∈ l)
  ∧ (join_empty (cssVars prev) ≠ join_empty (cssVars next) →
     ∀ mm, getMainModule g modules = Some mm →
           ∃ l, returned res = Some l ∧ mm ∈ l).
Proof.
  cbn zeta. split; [| split].
  2: { intros Hchanged m Hm.
       by apply (handleHotUpdate_script_changed_returns_script_module
                   g file modules content options st prev m). }
  2: { intros Hvars mm Hmm.
       by apply (handleHotUpdate_cssVars_returns_main
                   g file modules content options st prev mm). }
  unfold handleHotUpdate.
  rewrite (getDescriptor_hit file options false true st prev Hprev).
  unfold createDescriptor. cbn [fst snd descriptor].
  set (next := set_id _ _).
  set (s5 := style_loop _ _ _ _ _ _ _).
  exists (didUpdateStyle s5).
  cbn [updateType cachesAfter].
  split; [| split; [done |]].
  { unfold s5. rewrite style_loop_didUpdateStyle. cbn [didUpdateStyle].
    split; [by intros [? | ?] | by right]. }
  destruct (negb (isEqualBlock (template next) (template prev)));
    destruct (didUpdateStyle s5); cbn [app length Nat.eqb negb orb];
    unfold invalidateDescriptor, update_cache, select_cache;
    cbn [cache hmrCache prevCache];
    try (destruct (cache st !! file)); done.
Qed.

End HotUpdateProperties.

(** ** Requests of [src]-linked style blocks *)

Lemma string_forall_app (p : ascii → bool) (a b : string) :
  string_forall p (a +:+ b) = string_forall p a && string_forall p b.
Proof.
  induction a as [|c a IH]; [done |].
  rewrite string_app_cons. cbn [string_forall]. by rewrite IH, andb_assoc.
Qed.

Lemma split_on_no_char (c : ascii) (a : string) :
  no_char c a = true → split_on c a = [a].
Proof.
  unfold no_char. induction a as [|x a IH]; [done |].
  cbn [string_forall split_on]. intros [Hx Ha]%andb_true_iff.
  apply negb_true_iff in Hx. rewrite Hx, IH by done. done.
Qed.

Lemma split_on_app (c : ascii) (a b : string) :
  no_char c a = true →
  split_on c (a +:+ String c b) = a :: split_on c b.
Proof.
  unfold no_char. induction a as [|x a IH].
  - intros _. rewrite string_app_nil_l. cbn [split_on].
    by rewrite Ascii.eqb_refl.
  - cbn [string_forall]. intros [Hx Ha]%andb_true_iff.
    apply negb_true_iff in Hx.
    rewrite string_app_cons. cbn [split_on]. rewrite Hx, IH by done. done.
Qed.

(** Cutting a query made of [&]-free parameters gives them back. *)
Lemma split_on_params (p0 : string) (ps : list string) :
  no_char "&" p0 = true →
  Forall (λ p, no_char "&" p = true) ps →
  split_on "&" (p0 +:+ concat_strings (List.map (String "&"%char) ps))
  = p0 :: ps.
Proof.
  intros Hp0 Hps. revert p0 Hp0.
  induction Hps as [|p ps Hp Hps IH]; intros p0 Hp0.
  - cbn [List.map concat_strings foldr]. rewrite string_app_nil_r.
    by apply split_on_no_char.
  - cbn [List.map]. rewrite concat_strings_cons, string_app_cons.
    rewrite split_on_app by done. by rewrite IH.
Qed.

(** *** What [encodeURIComponent] can produce *)

Lemma hex_digit_safe (c : ascii) (n : nat) :
  c ≠ "%"%char → uri_unreserved c = false →
  Ascii.eqb (hex_digit n) c = false.
Proof.
  intros Hpc Hc. apply Ascii.eqb_neq. intros <-.
  do 16 (destruct n as [|n]; [by vm_compute in Hc |]). by vm_compute in Hc.
Qed.

Lemma percent_byte_forall (p : ascii → bool) (n : nat) :
  p "%"%char = true → (∀ k, p (hex_digit k) = true) →
  string_forall p (percent_byte n) = true.
Proof.
  intros Hp Hhex. unfold percent_byte. cbn [string_forall].
  by rewrite Hp, !Hhex.
Qed.

Lemma encodeURIComponent_forall (p : ascii → bool) (s : string) :
  p "%"%char = true → (∀ k, p (hex_digit k) = true) →
  (∀ c, uri_unreserved c = true → p c = true) →
  string_forall p (encodeURIComponent s) = true.
Proof.
  intros Hp Hhex Hun. induction s as [|c s IH]; [done |].
  cbn [encodeURIComponent]. rewrite string_forall_app, IH, andb_true_r.
  unfold encode_unit. destruct (uri_unreserved c) eqn:Hc.
  - cbn [string_forall]. by rewrite Hun.
  - destruct (char_code c <? 128).
    + by apply percent_byte_forall.
    + rewrite string_forall_app, !percent_byte_forall by done. done.
Qed.

Lemma encodeURIComponent_no_char (c : ascii) (s : string) :
  c ≠ "%"%char → uri_unreserved c = false →
  no_char c (encodeURIComponent s) = true.
Proof.
  intros Hpc Hc. apply encodeURIComponent_forall.
  - apply negb_true_iff, Ascii.eqb_neq. congruence.
  - intros k. apply negb_true_iff. by apply hex_digit_safe.
  - intros x Hx. apply negb_true_iff, Ascii.eqb_neq. congruence.
Qed.

(** An output made of unreserved characters only is the input itself. *)
Lemma encodeURIComponent_unreserved_inv (s t : string) :
  string_forall uri_unreserved t = true →
  encodeURIComponent s = t → s = t.
Proof.
  revert t. induction s as [|c s IH]; intros t Ht; [done |].
  cbn [encodeURIComponent]. unfold encode_unit.
  destruct (uri_unreserved c) eqn:Hc.
  - rewrite string_app_cons, string_app_nil_l. intros <-.
    cbn [string_forall] in Ht. apply andb_true_iff in Ht as [_ Ht].
    f_equal. by apply IH.
  - intros <-. exfalso.
    destruct (char_code c <? 128); unfold percent_byte in Ht;
      rewrite ?string_app_cons in Ht; cbn [string_forall] in Ht;
      by apply andb_true_iff in Ht as [Ht _].
Qed.

(** *** Parameters and their keys *)

Lemma split_on_not_nil (c : ascii) (s : string) : split_on c s ≠ [].
Proof.
  destruct s as [|x r]; [done |]. cbn [split_on].
  destruct (Ascii.eqb x c); [done |]. by destruct (split_on c r).
Qed.

Lemma string_concat_cons2 (sep x y : string) (l : list string) :
  String.concat sep (x :: y :: l) = x +:+ sep +:+ String.concat sep (y :: l).
Proof. reflexivity. Qed.

Lemma concat_split_on (v : string) : String.concat "=" (split_on "=" v) = v.
Proof.
  induction v as [|x r IH]; [done |]. cbn [split_on].
  pose proof (split_on_not_nil "=" r) as Hne.
  destruct (split_on "=" r) as [|h t]; [done |].
  destruct (Ascii.eqb_spec x "=") as [-> | Hx].
  - by rewrite string_concat_cons2, IH.
  - destruct t as [|h' t].
    + cbn [String.concat] in *. by rewrite IH.
    + rewrite string_concat_cons2 in *. by rewrite string_app_cons, IH.
Qed.

Lemma parse_param_key_value (k v : string) :
  no_char "=" k = true → parse_param (k +:+ String "=" v) = (k, v).
Proof.
  intros Hk. unfold parse_param. rewrite split_on_app by done.
  by rewrite concat_split_on.
Qed.

Lemma parse_param_bare (k : string) :
  no_char "=" k = true → parse_param k = (k, "").
Proof.
  intros Hk. unfold parse_param. by rewrite split_on_no_char.
Qed.

Lemma parse_param_first_char (x : ascii) (r : string) :
  Ascii.eqb x "=" = false →
  ∃ h, fst (parse_param (String x r)) = String x h.
Proof.
  intros Hx. unfold parse_param. cbn [split_on]. rewrite Hx.
  destruct (split_on "=" r) as [|h t]; by eexists.
Qed.

Lemma attr_param_key (kv : string * AttrValue) :
  fst (parse_param (attr_param kv)) = encodeURIComponent (fst kv).
Proof.
  unfold attr_param.
  assert (Hk : no_char "=" (encodeURIComponent (fst kv)) = true)
    by by apply encodeURIComponent_no_char.
  destruct (attr_truthy (snd kv)).
  - rewrite (string_app_cons "=" ""), string_app_nil_l.
    by rewrite parse_param_key_value.
  - by rewrite string_app_nil_r, parse_param_bare.
Qed.

Lemma attr_param_key_not_reserved (kv : string * AttrValue) (key : string) :
  not_ignored kv = true →
  list_includes ignoreList key = true →
  fst (parse_param (attr_param kv)) ≠ key.
Proof.
  unfold not_ignored. intros Hkv Hkey Heq. rewrite attr_param_key in Heq.
  apply encodeURIComponent_unreserved_inv in Heq.
  - rewrite Heq, Hkey in Hkv. done.
  - unfold list_includes, ignoreList in Hkey. cbn [existsb] in Hkey.
    repeat (apply orb_true_iff in Hkey as [Hkey | Hkey];
            [apply String.eqb_eq in Hkey as ->; by vm_compute |]).
    done.
Qed.

Lemma attr_param_no_amp (kv : string * AttrValue) :
  no_char "&" (attr_param kv) = true.
Proof.
  unfold attr_param, no_char. rewrite string_forall_app.
  fold (no_char "&" (encodeURIComponent (fst kv))).
  rewrite encodeURIComponent_no_char by done.
  destruct (attr_truthy (snd kv)); [| done].
  rewrite string_app_cons, string_app_nil_l. cbn [string_forall].
  fold (no_char "&" (encodeURIComponent (attr_to_string (snd kv)))).
  by rewrite encodeURIComponent_no_char.
Qed.

Lemma find_none_Forall {A} (f : A → bool) (l : list A) :
  Forall (λ x, f x = false) l → List.find f l = None.
Proof.
  induction 1 as [|x l Hx _ IH]; [done |]. cbn. by rewrite Hx.
Qed.

Lemma find_app_skip {A} (f : A → bool) (l1 l2 : list A) :
  Forall (λ x, f x = false) l1 → List.find f (l1 ++ l2) = List.find f l2.
Proof.
  induction 1 as [|x l Hx _ IH]; [done |]. cbn. by rewrite Hx.
Qed.

Lemma decoded_keys_differ (P : list string) (key : string) :
  Forall (λ p, fst (parse_param p) ≠ key) P →
  Forall (λ kv, String.eqb (fst kv) key = false) (rev (decode_params P)).
Proof.
  intros HP. apply Forall_rev, Forall_forall. intros kv Hin.
  apply list_elem_of_In, List.in_map_iff in Hin as (p & <- & Hp).
  apply List.filter_In in Hp as [Hp _].
  apply String.eqb_neq. rewrite Forall_forall in HP.
  by apply HP, list_elem_of_In.
Qed.

Lemma param_get_skip (P1 P2 : list string) (key : string) :
  Forall (λ p, fst (parse_param p) ≠ key) P2 →
  param_get (decode_params (P1 ++ P2)) key
  = param_get (decode_params P1) key.
Proof.
  intros HP. unfold param_get, decode_params.
  rewrite List.filter_app, List.map_app, rev_app_distr.
  fold (decode_params P2).
  by rewrite find_app_skip by by apply decoded_keys_differ.
Qed.

Lemma param_get_last (P : list string) (p key : string) :
  p ≠ "" → fst (parse_param p) = key →
  param_get (decode_params (P ++ [p])) key = Some (snd (parse_param p)).
Proof.
  intros Hp Hkey. unfold param_get, decode_params.
  rewrite List.filter_app, List.map_app, rev_app_distr.
  cbn [List.filter]. apply String.eqb_neq in Hp. rewrite Hp.
  cbn [negb List.map rev app List.find]. by rewrite Hkey, String.eqb_refl.
Qed.

Lemma param_get_none (P : list string) (key : string) :
  Forall (λ p, fst (parse_param p) ≠ key) P →
  param_get (decode_params P) key = None.
Proof.
  intros HP. unfold param_get.
  by rewrite find_none_Forall by by apply decoded_keys_differ.
Qed.

(** *** The request of a style block, parameter by parameter *)

Lemma uint_string_digits (u : Decimal.uint) :
  string_forall uri_unreserved (NilEmpty.string_of_uint u) = true.
Proof. induction u; cbn [NilEmpty.string_of_uint string_forall]; by try rewrite IHu. Qed.

Lemma nat_to_string_no_char (c : ascii) (n : nat) :
  uri_unreserved c = false → no_char c (nat_to_string n) = true.
Proof.
  intros Hc. unfold nat_to_string, NilZero.string_of_uint, no_char.
  assert (Hgen : ∀ s, string_forall uri_unreserved s = true →
                      string_forall (λ x, negb (Ascii.eqb x c)) s = true).
  { induction s as [|x s IH]; [done |]. cbn [string_forall].
    intros [Hx Hs]%andb_true_iff. rewrite IH by done.
    rewrite andb_true_r. apply negb_true_iff, Ascii.eqb_neq. congruence. }
  destruct (Nat.to_uint n) eqn:Hu; try (rewrite <- Hu; clear Hu);
    apply Hgen; [done | apply uint_string_digits ..].
Qed.

Lemma style_request_params (d : SFCDescriptor) (i : nat) (style : SFCBlock)
    (asCustomElement : bool) :
  NoDup (attrs_keys (attrs style)) →
  styleQuery d i style asCustomElement
    +:+ attrsToQuery (attrs style) (Some "css") false
  = String "?"%char
      ("vue" +:+ concat_strings
                   (List.map (String "&"%char)
                      (style_params d i style asCustomElement))).
Proof.
  intros Hkeys. unfold styleQuery, styleSrcQuery, attrsToQuery, style_params.
  cbn [truthy_str String.eqb negb orb opt_to_string].
  rewrite attrsToQuery_loop_fragments by done.
  assert (Hfrag : List.map attr_fragment (List.filter not_ignored (attrs style))
                  = List.map (String "&"%char)
                      (List.map attr_param
                         (List.filter not_ignored (attrs style)))).
  { rewrite List.map_map. by apply List.map_ext. }
  assert (Hlang : (if attrs_has (attrs style) "lang"
                   then "&lang." +:+ match attrs_get (attrs style) "lang" with
                                     | Some v => attr_to_string v
                                     | None => "undefined"
                                     end
                   else "&lang." +:+ "css")
                  = concat_strings
                      (List.map (String "&"%char) ["lang." +:+ style_lang style])).
  { unfold attrs_has, style_lang.
    destruct (attrs_get (attrs style) "lang");
      cbn [List.map]; by rewrite concat_strings_cons, string_app_nil_r. }
  rewrite Hfrag, Hlang, !List.map_app, !concat_strings_app.
  destruct (truthy_str (src style)), (scoped style), asCustomElement;
    cbn [List.map]; rewrite ?concat_strings_cons;
    cbn [concat_strings foldr];
    repeat (rewrite ?string_app_assoc, ?string_app_cons, ?string_app_nil_l,
                    ?string_app_nil_r);
    reflexivity.
Qed.

Lemma style_params_no_char (c : ascii) (d : SFCDescriptor) (i : nat)
    (style : SFCBlock) (asCustomElement : bool) :
  c = "&"%char ∨ c = "?"%char →
  no_char c (id d) = true → no_char c (style_lang style) = true →
  Forall (λ p, no_char c p = true) (style_params d i style asCustomElement).
Proof.
  intros Hc Hid Hlang. unfold style_params.
  assert (Hun : uri_unreserved c = false) by by destruct Hc as [-> | ->].
  assert (Hpc : c ≠ "%"%char) by by destruct Hc as [-> | ->].
  assert (Hlit : ∀ lit s, no_char c lit = true → no_char c s = true →
                          no_char c (lit +:+ s) = true).
  { intros lit s Hl Hs. unfold no_char in *.
    by rewrite string_forall_app, Hl, Hs. }
  repeat apply Forall_app_2; repeat apply Forall_cons_2;
    try apply Forall_nil_2.
  - by destruct Hc as [-> | ->].
  - apply Hlit; [by destruct Hc as [-> | ->] |].
    by apply nat_to_string_no_char.
  - destruct (truthy_str (src style)); [| apply Forall_nil_2].
    apply Forall_cons_2; [| apply Forall_nil_2]. destruct (scoped style).
    + apply Hlit; [by destruct Hc as [-> | ->] | done].
    + by destruct Hc as [-> | ->].
  - destruct asCustomElement; [| apply Forall_nil_2].
    apply Forall_cons_2; [| apply Forall_nil_2]. by destruct Hc as [-> | ->].
  - destruct (scoped style); [| apply Forall_nil_2].
    apply Forall_cons_2; [| apply Forall_nil_2].
    apply Hlit; [by destruct Hc as [-> | ->] | done].
  - apply Forall_forall. intros p Hp.
    apply list_elem_of_In, List.in_map_iff in Hp as (kv & <- & _).
    unfold attr_param. apply Hlit.
    + by apply encodeURIComponent_no_char.
    + destruct (attr_truthy (snd kv)); [| done].
      apply Hlit; [by destruct Hc as [-> | ->] |].
      by apply encodeURIComponent_no_char.
  - apply Hlit; [by destruct Hc as [-> | ->] | done].
Qed.

Lemma style_params_tail_keys (style : SFCBlock) (key : string)
    (tail : list string) :
  key = "src" ∨ key = "scoped" →
  Forall (λ p, fst (parse_param p) ≠ key) tail →
  Forall (λ p, fst (parse_param p) ≠ key)
    (tail
     ++ List.map attr_param (List.filter not_ignored (attrs style))
     ++ ["lang." +:+ style_lang style]).
Proof.
  intros Hkey Htail. repeat apply Forall_app_2; [done | |].
  - apply Forall_forall. intros p Hp.
    apply list_elem_of_In, List.in_map_iff in Hp as (kv & <- & Hkv).
    apply List.filter_In in Hkv as [_ Hkv].
    apply attr_param_key_not_reserved; [done |].
    by destruct Hkey as [-> | ->].
  - apply Forall_cons_2; [| apply Forall_nil_2].
    destruct (parse_param_first_char "l" ("ang." +:+ style_lang style))
      as (h & Hh); [done |].
    rewrite (string_app_cons "l" "ang."). rewrite Hh.
    by destruct Hkey as [-> | ->].
Qed.

Lemma no_char_joined (c : ascii) (p0 : string) (ps : list string) :
  Ascii.eqb "&" c = false →
  no_char c p0 = true →
  Forall (λ p, no_char c p = true) ps →
  no_char c (p0 +:+ concat_strings (List.map (String "&"%char) ps)) = true.
Proof.
  intros Hc Hp0 Hps. unfold no_char in *.
  rewrite string_forall_app, Hp0. cbn [andb].
  induction Hps as [|p ps Hp _ IH]; [done |].
  cbn [List.map]. rewrite concat_strings_cons, string_app_cons.
  cbn [string_forall]. by rewrite string_forall_app, Hc, Hp, IH.
Qed.

(** Reading a style request back, with the path in front of the query
    being any path without [?] (the [src] itself, or the path it resolved
    to): the path, the [src] marker and the [scoped] flag come back, and
    [getSrcDescriptor] finds the descriptor linked under that path. *)
Lemma style_request_read_back
    (d : SFCDescriptor) (i : nat) (style : SFCBlock)
    (asCustomElement : bool) (file : string) (st : CacheState)
    (Hsrc : truthy_str (src style) = true)
    (Hkeys : NoDup (attrs_keys (attrs style)))
    (Hfile : no_char "?" file = true)
    (Hid : query_safe (id d) = true)
    (Hlang : query_safe (style_lang style) = true) :
  let linked := setSrcDescriptor file d (scoped style) st in
  let request :=
    file +:+ styleQuery d i style asCustomElement
         +:+ attrsToQuery (attrs style) (Some "css") false in
  styleSrcQuery d style
  = (if scoped style then "&src=" +:+ id d else "&src=true")
  ∧ styleRequest d i style asCustomElement
    = opt_to_string (src style)
        +:+ styleQuery d i style asCustomElement
        +:+ attrsToQuery (attrs style) (Some "css") false
  ∧ cache linked
    = <[(if scoped style then file +:+ "?src=" +:+ id d else file) := d]>
        (cache st)
  ∧ (parseVueRequest request).1 = file
  ∧ q_src (parseVueRequest request).2
    = Some (if scoped style then id d else "true")
  ∧ q_scoped (parseVueRequest request).2 = scoped style
  ∧ getSrcDescriptor file (parseVueRequest request).2 linked = Some d.
Proof.
  cbn zeta.
  apply andb_true_iff in Hid as [Hid_amp Hid_q].
  apply andb_true_iff in Hlang as [Hlang_amp Hlang_q].
  assert (Hparse :
    parseVueRequest
      (file +:+ styleQuery d i style asCustomElement
            +:+ attrsToQuery (attrs style) (Some "css") false)
    = (file,
       {| q_src := Some (if scoped style then id d else "true");
          q_scoped := scoped style;
          q_id := param_get
                    (decode_params
                       ("vue" :: style_params d i style asCustomElement))
                    "id" |})).
  { rewrite style_request_params by done.
    unfold parseVueRequest. rewrite split_on_app by done.
    set (P := style_params d i style asCustomElement).
    assert (HQ : no_char "?"
                   ("vue" +:+ concat_strings (List.map (String "&"%char) P))
                 = true).
    { apply no_char_joined; [done | done |].
      by apply style_params_no_char; [right | ..]. }
    rewrite split_on_no_char by done.
    unfold query_params. rewrite split_on_params;
      [| done | by apply style_params_no_char; [left | ..]].
    f_equal. unfold P, style_params. rewrite Hsrc.
    assert (Hsrc_key : ∀ v, fst (parse_param ("src=" +:+ v)) = "src"
                            ∧ snd (parse_param ("src=" +:+ v)) = v).
    { intros v.
      change ("src=" +:+ v) with ("src" +:+ String "="%char v).
      by rewrite parse_param_key_value. }
    assert (Hscoped_key : ∀ v, fst (parse_param ("scoped=" +:+ v))
                               = "scoped").
    { intros v.
      change ("scoped=" +:+ v) with ("scoped" +:+ String "="%char v).
      by rewrite parse_param_key_value. }
    f_equal.
    - (* src: the last parameter of that name is the marker *)
      set (marker := if scoped style then "src=" +:+ id d else "src=true").
      change ("vue" :: ["type=style"; "index=" +:+ nat_to_string i]
                    ++ [marker] ++ ?rest)
        with ((["vue"; "type=style"; "index=" +:+ nat_to_string i]
               ++ [marker]) ++ rest).
      rewrite param_get_skip.
      + rewrite param_get_last with (key := "src").
        * unfold marker. destruct (scoped style); [| done].
          by rewrite (proj2 (Hsrc_key _)).
        * unfold marker. by destruct (scoped style).
        * unfold marker. destruct (scoped style); [| done].
          apply Hsrc_key.
      + rewrite app_assoc. apply style_params_tail_keys; [by left |].
        apply Forall_app_2.
        * by destruct asCustomElement; repeat constructor.
        * destruct (scoped style); repeat constructor.
          by rewrite Hscoped_key.
    - (* scoped: present exactly for a scoped block *)
      destruct (scoped style) eqn:Hsc.
      + change ("vue" :: ["type=style"; "index=" +:+ nat_to_string i]
                      ++ ?a ++ ?b ++ ["scoped=" +:+ id d] ++ ?rest)
          with (("vue" :: ["type=style"; "index=" +:+ nat_to_string i]
                      ++ a ++ b) ++ ["scoped=" +:+ id d] ++ rest).
        rewrite app_assoc, param_get_skip.
        * rewrite param_get_last with (key := "scoped"); [| done |].
          -- apply bool_decide_eq_true. by eexists.
          -- apply Hscoped_key.
        * apply (style_params_tail_keys style "scoped" []); [by right |].
          apply Forall_nil_2.
      + apply bool_decide_eq_false. intros [v Hv].
        rewrite param_get_none in Hv; [done |].
        change ("vue" :: ["type=style"; "index=" +:+ nat_to_string i]
                      ++ ?a ++ ?b ++ [] ++ ?rest)
          with (("vue" :: ["type=style"; "index=" +:+ nat_to_string i]
                      ++ a ++ b) ++ rest).
        apply style_params_tail_keys; [by right |].
        repeat first [apply Forall_cons_2 | apply Forall_app_2
                     | apply Forall_nil_2]; try done.
        by destruct asCustomElement; repeat constructor. }
  rewrite Hparse. cbn [fst snd q_src q_scoped].
  unfold styleSrcQuery, styleRequest, setSrcDescriptor, getSrcDescriptor.
  rewrite Hsrc. cbn [q_src q_scoped opt_to_string].
  destruct (scoped style);
    unfold update_cache; cbn [cache];
    by rewrite lookup_insert_eq, ?string_app_assoc.
Qed.

(** C8 (as the code has it).  For a style block with a non-empty [src]:
    the request carries [&src=true] when the block is not scoped and
    [&src=<id>] when it is, and [setSrcDescriptor] files the descriptor
    under the path itself when not scoped and under [path?src=<id>] when
    scoped.  When the [src] holds no [?] and neither the descriptor id (a
    hash) nor the block's language holds [&] or [?] (attribute names being
    distinct, as the keys of an object are), reading the request back
    yields that path and a query whose [src] and [scoped] make
    [getSrcDescriptor] return the descriptor that was linked. *)
Theorem style_src_request_roundtrip
    (d : SFCDescriptor) (i : nat) (style : SFCBlock)
    (asCustomElement : bool) (st : CacheState)
    (Hsrc : truthy_str (src style) = true) :
  let path := opt_to_string (src style) in
  let linked := setSrcDescriptor path d (scoped style) st in
  let request := styleRequest d i style asCustomElement in
  styleSrcQuery d style
  = (if scoped style then "&src=" +:+ id d else "&src=true")
  ∧ request
    = path +:+ styleQuery d i style asCustomElement
           +:+ attrsToQuery (attrs style) (Some "css") false
  ∧ cache linked
    = <[(if scoped style then path +:+ "?src=" +:+ id d else path) := d]>
        (cache st)
  ∧ (NoDup (attrs_keys (attrs style)) →
     no_char "?" path = true →
     query_safe (id d) = true →
     query_safe (style_lang style) = true →
     (parseVueRequest request).1 = path
     ∧ q_src (parseVueRequest request).2
       = Some (if scoped style then id d else "true")
     ∧ q_scoped (parseVueRequest request).2 = scoped style
     ∧ getSrcDescriptor (parseVueRequest request).1
         (parseVueRequest request).2 linked
       = Some d).
Proof.
  cbn zeta.
  assert (Hreq : styleRequest d i style asCustomElement
                 = opt_to_string (src style)
                     +:+ styleQuery d i style asCustomElement
                     +:+ attrsToQuery (attrs style) (Some "css") false).
  { unfold styleRequest. rewrite Hsrc. by rewrite string_app_assoc. }
  split; [by unfold styleSrcQuery; rewrite Hsrc |].
  split; [exact Hreq |].
  split.
  { unfold setSrcDescriptor. by destruct (scoped style). }
  intros Hkeys Hpath Hid Hlang. rewrite Hreq.
  destruct (style_request_read_back d i style asCustomElement
              (opt_to_string (src style)) st Hsrc Hkeys Hpath Hid Hlang)
    as (_ & _ & _ & Hfile & Hqsrc & Hqscoped & Hget).
  rewrite Hfile. done.
Qed.

(* ===================================================================== *)
(** * Part III: the properties at concrete inputs                         *)
(* ===================================================================== *)

(** Decides a closed decidable proposition by evaluation. *)
Ltac decide_by_compute :=
  match goal with
  | |- ?P => apply (bool_decide_unpack P); vm_compute; exact I
  end.

(** A change of the [<script>] block alone: the main module is returned,
    no update kind is recorded, and the file's entry stays in [cache] with
    nothing moved to [prevCache]. *)
Lemma handleHotUpdate_script_change_keeps_cache :
  let host := demo_host no_resolved in
  let st := demo_caches host in
  let res :=
    handleHotUpdate (H := host) demo_graph demo_file [0; 1]
      "<script>b</script><template>x</template>" demo_options st in
  returned res = Some [0]
  ∧ updateType res = []
  ∧ is_Some (cache (cachesAfter res) !! demo_file)
  ∧ cache (cachesAfter res) = cache st
  ∧ prevCache (cachesAfter res) !! demo_file = None.
Proof. vm_compute. repeat split; by eexists. Qed.

Lemma handleHotUpdate_invalidates_iff_update_kind_witness :
  let host := demo_host no_resolved in
  let st := demo_caches_template host in
  let res :=
    handleHotUpdate (H := host) demo_graph demo_file [0]
      "<template>y</template>" demo_options st in
  is_Some (hmrCache st !! demo_file)
  ∧ hmrCache (cachesAfter res)
    = <[demo_file :=
          descriptor (createDescriptor (H := host) demo_file
                        "<template>y</template>" demo_options true st).1]>
        (hmrCache st).
Proof.
  cbn zeta.
  destruct (hmrCache (demo_caches_template (demo_host no_resolved))
              !! demo_file) as [prev|] eqn:Hprev; [| by vm_compute in Hprev].
  split; [by eexists |].
  destruct (handleHotUpdate_invalidates_iff_update_kind
              (H := demo_host no_resolved) demo_graph demo_file [0]
              "<template>y</template>" demo_options
              (demo_caches_template (demo_host no_resolved)) prev Hprev)
    as [(styleChanged & _ & _ & Hhmr & _) _].
  exact Hhmr.
Defined.

(** A broken file read through [getDescriptor] outside HMR: the first parse
    error is thrown, it is not handed back. *)
Lemma getDescriptor_parse_error_is_thrown :
  (getDescriptor (H := demo_host no_resolved) "/src/Broken.vue"
     demo_options true false empty_caches).1
  = Throw (ParseError demo_error).
Proof. vm_compute. reflexivity. Qed.

Lemma getDescriptor_throws_iff_witness :
  select_cache true empty_caches !! "/src/Broken.vue" = None
  ∧ (getDescriptor (H := demo_host no_resolved) "/src/Broken.vue"
       demo_options true true empty_caches).1
    = Normal (Some (descriptor
                      (createDescriptor (H := demo_host no_resolved)
                         "/src/Broken.vue" "<template>" demo_options true
                         empty_caches).1))
  ∧ ((getDescriptor (H := demo_host no_resolved) "/src/Missing.vue"
        demo_options true false empty_caches).1
     = Throw (FsError "/src/Missing.vue")).
Proof.
  assert (Hmiss : select_cache true empty_caches !! "/src/Broken.vue" = None)
    by reflexivity.
  split; [exact Hmiss |]. split.
  - apply (getDescriptor_throws_iff (H := demo_host no_resolved)
             "/src/Broken.vue" demo_options true true empty_caches
             (FsError "/src/Broken.vue"));
      [exact Hmiss | reflexivity | reflexivity | reflexivity].
  - apply (getDescriptor_throws_iff (H := demo_host no_resolved)
             "/src/Missing.vue" demo_options true false empty_caches
             (FsError "/src/Missing.vue")).
    split; [reflexivity |]. split; [reflexivity |].
    left. split; reflexivity.
Defined.

(** A boolean attribute is written with [=true], not as a bare name. *)
Lemma attrsToQuery_boolean_not_bare :
  attrsToQuery [("foo", AttrTrue)] None false = "&foo=true"
  ∧ attrs_query_spec [("foo", AttrTrue)] = "&foo"
  ∧ attrsToQuery [("foo", AttrTrue)] None false
    ≠ attrs_query_spec [("foo", AttrTrue)].
Proof. vm_compute. repeat split; congruence. Qed.

Lemma attrsToQuery_fragments_witness :
  NoDup (attrs_keys (attrs demo_style))
  ∧ attrsToQuery_loop (attrs demo_style) = "&media=print".
Proof.
  assert (Hkeys : NoDup (attrs_keys (attrs demo_style))).
  { cbn [block_keys_distinct]. decide_by_compute. }
  split; [exact Hkeys |].
  rewrite (proj1 (attrsToQuery_fragments (attrs demo_style) (Some "css")
                    false Hkeys)).
  vm_compute. reflexivity.
Defined.

Lemma isEqualBlock_is_reference_witness :
  let x := mk_block "style" "a{}" [("media", AttrStr "print");
                                   ("scoped", AttrTrue)] in
  let y := mk_block "style" "a{}" [("scoped", AttrTrue);
                                   ("media", AttrStr "print")] in
  block_keys_distinct (Some x) ∧ block_keys_distinct (Some y)
  ∧ isEqualBlock (Some x) (Some y) = true.
Proof.
  cbn zeta.
  assert (Hx : block_keys_distinct
                 (Some (mk_block "style" "a{}"
                          [("media", AttrStr "print"); ("scoped", AttrTrue)]))).
  { cbn [block_keys_distinct]. decide_by_compute. }
  assert (Hy : block_keys_distinct
                 (Some (mk_block "style" "a{}"
                          [("scoped", AttrTrue); ("media", AttrStr "print")]))).
  { cbn [block_keys_distinct]. decide_by_compute. }
  split; [exact Hx | split; [exact Hy |]].
  apply (proj2 (isEqualBlock_is_reference _ _ Hx Hy) _ _ eq_refl eq_refl eq_refl).
  apply Permutation_swap.
Defined.

(** A template entry that names no source is left out of the merged map. *)
Lemma concat_maps_drops_sourceless_entry :
  let d := mk_descriptor demo_file None None [] in
  let result :=
    transformMain_map demo_options d "const a = 1" (Some demo_script_map)
      (Some demo_sourceless_map) empty_map in
  ¬ (∀ m, m ∈ mappings demo_sourceless_map →
          ∃ x, x ∈ mappings result
               ∧ generatedLine x
                 = generatedLine m + map_offset "const a = 1"
               ∧ generatedColumn x = generatedColumn m
               ∧ m_source x = m_source m
               ∧ originalLine x = originalLine m
               ∧ originalColumn x = originalColumn m).
Proof.
  cbn zeta. intros Hall.
  destruct (Hall _ (list_elem_of_here _ _)) as (x & Hx & Hline & _).
  vm_compute in Hx. apply list_elem_of_singleton in Hx as ->.
  by vm_compute in Hline.
Qed.

Lemma concat_maps_offsets_template_entries_witness :
  let d := mk_descriptor demo_file None None [] in
  let nl := String "010"%char "" in
  let code := concat_strings ["a"; nl; "b"; nl; "c"; nl; "d"; nl; "e"] in
  let entry :=
    {| generatedLine := 2; generatedColumn := 4;
       m_source := Some "App.vue"; originalLine := Some 3;
       originalColumn := Some 2; m_name := None |} in
  sourceMap demo_options = true
  ∧ needs_ts_transpile d = false
  ∧ map_offset code = 5
  ∧ shifted 5 entry
    ∈ mappings (transformMain_map demo_options d code (Some demo_script_map)
                  (Some demo_template_map) empty_map).
Proof.
  cbn zeta.
  assert (Hmaps : sourceMap demo_options = true) by reflexivity.
  assert (Hjs : needs_ts_transpile (mk_descriptor demo_file None None [])
                = false) by reflexivity.
  split; [exact Hmaps | split; [exact Hjs | split; [reflexivity |]]].
  destruct (concat_maps_offsets_template_entries demo_options
              (mk_descriptor demo_file None None [])
              (concat_strings ["a"; String "010"%char ""; "b";
                               String "010"%char ""; "c";
                               String "010"%char ""; "d";
                               String "010"%char ""; "e"])
              (Some demo_script_map) (Some demo_template_map) empty_map
              Hmaps Hjs) as [_ [Hin _]].
  apply (Hin _ "App.vue").
  - apply list_elem_of_further, list_elem_of_here.
  - reflexivity.
  - discriminate.
Defined.

Lemma createDescriptor_id_dev_path_only_witness :
  truthy_flag (isProduction demo_options) = false
  ∧ id (descriptor (createDescriptor (H := demo_host no_resolved) demo_file
                      "<template>x</template>" demo_options false
                      empty_caches).1)
    = id (descriptor (createDescriptor (H := demo_host no_resolved) demo_file
                        "<template>y</template>" demo_options true
                        empty_caches).1).
Proof.
  split; [reflexivity |].
  apply (createDescriptor_id_dev_path_only (H := demo_host no_resolved)
           demo_file "<template>x</template>" "<template>y</template>"
           demo_options false true empty_caches empty_caches eq_refl).
Defined.

Lemma hasScriptChanged_when_blocks_equal_witness :
  let prev := mk_descriptor demo_file None None [] in
  isEqualBlock (script prev) (script prev) = true
  ∧ isEqualBlock (scriptSetup prev) (scriptSetup prev) = true
  ∧ hasScriptChanged (H := demo_host demo_resolved) prev prev = true.
Proof.
  cbn zeta. split; [reflexivity | split; [reflexivity |]].
  apply (hasScriptChanged_when_blocks_equal (H := demo_host demo_resolved)
           (mk_descriptor demo_file None None [])
           (mk_descriptor demo_file None None []) eq_refl eq_refl).
  exists []. split; [reflexivity | left; reflexivity].
Defined.

(** A scoped [<style src>] whose [src] carries a query of its own, and
    one whose language holds an [&]: the request read back does not lead
    [getSrcDescriptor] to the descriptor that was linked, whether the link
    was filed under the [src] as written or, as [linkSrcToDescriptor]
    does, under the path without its query. *)
Lemma style_src_request_lookup_fails :
  let d := set_id (mk_descriptor demo_file None None []) "7ba5bd90" in
  let with_query :=
    {| type := "style"; content := "";
       attrs := [("src", AttrStr "./theme.css?inline"); ("scoped", AttrTrue)];
       src := Some "./theme.css?inline"; lang := None; scoped := true;
       module := None; imports := None |} in
  let odd_lang :=
    {| type := "style"; content := "";
       attrs := [("src", AttrStr "./theme.css"); ("scoped", AttrTrue);
                 ("lang", AttrStr "scss&src=0")];
       src := Some "./theme.css"; lang := Some "scss&src=0"; scoped := true;
       module := None; imports := None |} in
  let lookup style linked :=
    getSrcDescriptor (parseVueRequest (styleRequest d 0 style false)).1
      (parseVueRequest (styleRequest d 0 style false)).2 linked in
  truthy_str (src with_query) = true
  ∧ lookup with_query
      (setSrcDescriptor "./theme.css?inline" d true empty_caches)
    = None
  ∧ lookup with_query
      (linkSrcToDescriptor (λ s _, Some s) "./theme.css?inline" d true
         empty_caches)
    = None
  ∧ truthy_str (src odd_lang) = true
  ∧ lookup odd_lang (setSrcDescriptor "./theme.css" d true empty_caches)
    = None.
Proof. vm_compute. repeat split. Qed.

Lemma style_src_request_roundtrip_witness :
  let d := set_id (mk_descriptor demo_file None None [demo_style])
             "7ba5bd90" in
  let request :=
    "./theme.scss?vue&type=style&index=0&src=7ba5bd90&scoped=7ba5bd90&media=print&lang.scss" in
  truthy_str (src demo_style) = true
  ∧ NoDup (attrs_keys (attrs demo_style))
  ∧ no_char "?" (opt_to_string (src demo_style)) = true
  ∧ query_safe (id d) = true
  ∧ query_safe (style_lang demo_style) = true
  ∧ styleRequest d 0 demo_style false = request
  ∧ getSrcDescriptor (parseVueRequest request).1 (parseVueRequest request).2
      (setSrcDescriptor "./theme.scss" d true empty_caches)
    = Some d.
Proof.
  cbn zeta.
  assert (Hkeys : NoDup (attrs_keys (attrs demo_style))).
  { cbn [block_keys_distinct]. decide_by_compute. }
  repeat (split; [first [reflexivity | exact Hkeys] |]).
  destruct (style_src_request_roundtrip
              (set_id (mk_descriptor demo_file None None [demo_style])
                 "7ba5bd90")
              0 demo_style false empty_caches eq_refl)
    as (_ & _ & _ & Hround).
  destruct (Hround Hkeys eq_refl eq_refl eq_refl) as (_ & _ & _ & Hget).
  exact Hget.
Defined.

(** The template of a template-only file is edited while the template is
    compiled into the main module (no template module is live): the main
    module is what the handler returns.  With a template module live and a
    stylesheet importing the main module, the stylesheet is returned next
    to the template module. *)
Lemma handleHotUpdate_template_edit_returns_main :
  let host := demo_host no_resolved in
  let st := demo_caches_template host in
  List.find (λ m, includes (url demo_graph m) "type=template") [0] = None
  ∧ getMainModule demo_graph [0] = Some 0
  ∧ returned (handleHotUpdate (H := host) demo_graph demo_file [0]
                "<template>y</template>" demo_options st)
    = Some [0]
  ∧ returned (handleHotUpdate (H := host) demo_graph demo_file [0; 1]
                "<template>y</template>" demo_options st)
    = Some [1; 2].
Proof. vm_compute. repeat split. Qed.

Lemma handleHotUpdate_template_only_witness :
  let host := demo_host no_resolved in
  let st := demo_caches_template host in
  is_Some (hmrCache st !! demo_file)
  ∧ updateType (handleHotUpdate (H := host) demo_graph demo_file [0; 1]
                  "<template>y</template>" demo_options st)
    = ["template"].
Proof.
  cbn zeta.
  destruct (hmrCache (demo_caches_template (demo_host no_resolved))
              !! demo_file) as [prev|] eqn:Hprev; [| by vm_compute in Hprev].
  split; [by eexists |].
  assert (Hp : prev = descriptor
                        (createDescriptor (H := demo_host no_resolved)
                           demo_file "<template>x</template>" demo_options
                           true empty_caches).1).
  { vm_compute in Hprev. injection Hprev as <-. reflexivity. }
  apply (handleHotUpdate_template_only (H := demo_host no_resolved)
           demo_graph demo_file [0; 1] "<template>y</template>"
           demo_options (demo_caches_template (demo_host no_resolved))
           prev Hprev).
  - rewrite Hp. repeat split.
  - rewrite Hp. cbn zeta. repeat split.
  - rewrite Hp. reflexivity.
Defined.

(** [createDescriptor] on a text that fails to parse: the errors come back
    and the partial descriptor has replaced the cached one. *)
Example createDescriptor_failed_parse_replaces_entry :
  let host := demo_host no_resolved in
  let st := demo_caches host in
  let r := createDescriptor (H := host) demo_file "<template>"
             demo_options false st in
  errors r.1 = [demo_error]
  ∧ cache r.2 !! demo_file = Some (descriptor r.1)
  ∧ cache st !! demo_file ≠ Some (descriptor r.1).
Proof. vm_compute. repeat split. congruence. Qed.

(* ===================================================================== *)
(** * Part IV: further properties of the modelled code                    *)
(* ===================================================================== *)

(** ** The descriptor cache as a store *)

Section CacheStoreProperties.
Context `{Externals}.

Lemma invalidateDescriptor_effect
    (filename : string) (hmr : bool) (st : CacheState) :
  select_cache hmr (invalidateDescriptor filename hmr st) !! filename = None
  ∧ getPrevDescriptor filename (invalidateDescriptor filename hmr st)
    = match select_cache hmr st !! filename with
      | Some d => Some d
      | None => getPrevDescriptor filename st
      end
  ∧ select_cache (negb hmr) (invalidateDescriptor filename hmr st)
    = select_cache (negb hmr) st.
Proof.
  unfold invalidateDescriptor, getPrevDescriptor.
  destruct hmr; cbn [select_cache update_cache negb];
    destruct st as [c h p]; cbn [cache hmrCache prevCache];
    [destruct (h !! filename) eqn:Hd | destruct (c !! filename) eqn:Hd];
    cbn [cache hmrCache prevCache];
    rewrite ?lookup_delete_eq, ?lookup_insert_eq; done.
Qed.

(** X1. After [invalidateDescriptor] the file is a miss in the chosen map
    and its previous descriptor is the entry that was removed, or, when
    nothing was cached, whatever was recorded before; the other map is not
    touched, and invalidating again changes nothing (a second invalidation
    does not lose the recorded previous descriptor). *)
Theorem invalidateDescriptor_idempotent
    (filename : string) (hmr : bool) (st : CacheState) :
  let st' := invalidateDescriptor filename hmr st in
  select_cache hmr st' !! filename = None
  ∧ getPrevDescriptor filename st'
    = match select_cache hmr st !! filename with
      | Some d => Some d
      | None => getPrevDescriptor filename st
      end
  ∧ select_cache (negb hmr) st' = select_cache (negb hmr) st
  ∧ invalidateDescriptor filename hmr st' = st'.
Proof.
  cbn zeta. unfold invalidateDescriptor, getPrevDescriptor.
  destruct hmr; cbn [select_cache update_cache negb];
    destruct st as [c h p]; cbn [cache hmrCache prevCache];
    [destruct (h !! filename) eqn:Hd | destruct (c !! filename) eqn:Hd];
    cbn [cache hmrCache prevCache];
    rewrite ?lookup_delete_eq, ?lookup_insert_eq, ?delete_delete_eq;
    done.
Qed.

(** X2. A descriptor just created is what [getDescriptor] answers for that
    file in the same map, whatever [createIfNotFound] is: the file is not
    read, nothing is parsed again and no map changes, even when the parse
    had reported errors. *)
Theorem getDescriptor_after_createDescriptor
    (filename source : string) (options options' : ResolvedOptions)
    (createIfNotFound hmr : bool) (st : CacheState) :
  let created := createDescriptor filename source options hmr st in
  getDescriptor filename options' createIfNotFound hmr created.2
  = (Normal (Some (descriptor created.1)), created.2).
Proof.
  cbn zeta. apply getDescriptor_hit. unfold createDescriptor.
  cbn [fst snd descriptor]. rewrite select_update_same.
  apply lookup_insert_eq.
Qed.

(** X3. [getDescriptor] writes at most the entry of the file it is asked
    for, in the map it is asked for: every other file's entry, the other
    map and the previous-descriptor map are as before, whether it returns
    or throws. *)
Theorem getDescriptor_frame
    (filename other : string) (options : ResolvedOptions)
    (createIfNotFound hmr : bool) (st : CacheState)
    (Hother : other ≠ filename) :
  let st' := (getDescriptor filename options createIfNotFound hmr st).2 in
  select_cache hmr st' !! other = select_cache hmr st !! other
  ∧ select_cache (negb hmr) st' = select_cache (negb hmr) st
  ∧ prevCache st' = prevCache st.
Proof.
  cbn zeta. unfold getDescriptor.
  destruct (select_cache hmr st !! filename); [done |].
  destruct createIfNotFound; [| done].
  destruct (readFileSync filename) as [source|]; [| done].
  unfold createDescriptor. cbn [errors descriptor].
  set (d := set_id _ _).
  assert (Hst : select_cache hmr (update_cache hmr (insert filename d) st)
                  !! other = select_cache hmr st !! other
                ∧ select_cache (negb hmr)
                    (update_cache hmr (insert filename d) st)
                  = select_cache (negb hmr) st
                ∧ prevCache (update_cache hmr (insert filename d) st)
                  = prevCache st).
  { rewrite select_update_same, select_update_other, prevCache_update.
    by rewrite lookup_insert_ne. }
  destruct (errors (compiler_parse source filename (sourceMap options)));
    [done |].
  by destruct hmr.
Qed.

(** X4. The edit cycle of one file: once it has been created in [cache]
    and invalidated, the created descriptor is the previous descriptor, a
    plain lookup misses, and a lookup with [createIfNotFound] goes back to
    the file system (it throws when the file can no longer be read). *)
Theorem create_invalidate_cycle
    (filename source : string) (options : ResolvedOptions)
    (st : CacheState) :
  let created := createDescriptor filename source options false st in
  let st' := invalidateDescriptor filename false created.2 in
  getPrevDescriptor filename st' = Some (descriptor created.1)
  ∧ getDescriptor filename options false false st' = (Normal None, st')
  ∧ hmrCache st' = hmrCache st
  ∧ match readFileSync filename with
    | None =>
        getDescriptor filename options true false st'
        = (Throw (FsError filename), st')
    | Some source' =>
        (getDescriptor filename options true false st').2
        = (createDescriptor filename source' options false st').2
    end.
Proof.
  cbn zeta.
  pose proof (invalidateDescriptor_effect filename false
                (createDescriptor filename source options false st).2)
    as (Hmiss & Hprev & Hother).
  cbn zeta in *.
  assert (Hc : select_cache false
                 (createDescriptor filename source options false st).2
                 !! filename
               = Some (descriptor
                         (createDescriptor filename source options false
                            st).1)).
  { unfold createDescriptor. cbn [fst snd descriptor].
    rewrite select_update_same. apply lookup_insert_eq. }
  rewrite Hc in Hprev. rewrite Hprev.
  split; [done |]. rewrite getDescriptor_lookup_only, Hmiss.
  split; [done |]. split.
  { cbn [negb select_cache] in Hother. rewrite Hother.
    unfold createDescriptor. by cbn [snd update_cache hmrCache]. }
  unfold getDescriptor. rewrite Hmiss.
  destruct (readFileSync filename) as [source'|]; [| done].
  unfold createDescriptor. cbn [errors descriptor].
  by destruct (errors (compiler_parse source' filename (sourceMap options))).
Qed.

End CacheStoreProperties.

(** ** Block comparison as a relation *)

Lemma isEqualBlock_refl (a : option SFCBlock) : isEqualBlock a a = true.
Proof.
  destruct a as [x|]; [| done]. cbn [isEqualBlock].
  destruct (_ && _); [done |].
  rewrite String.eqb_refl, Nat.eqb_refl. cbn [negb].
  apply forallb_forall. intros k _. by apply opt_attr_eqb_eq.
Qed.

(** [isEqualBlock] answers as the reference comparison does. *)
Lemma isEqualBlock_blockEquals_ref (a b : option SFCBlock) :
  block_keys_distinct a → block_keys_distinct b →
  isEqualBlock a b = blockEquals_ref a b.
Proof.
  intros Ha Hb. destruct a as [x|], b as [y|]; try done.
  cbn [isEqualBlock blockEquals_ref block_keys_distinct] in *.
  rewrite src_shortcut_eq.
  destruct (match src x with
            | Some s => bool_decide (s ≠ "" ∧ src y = Some s)
            | None => false
            end); [done |].
  cbn [orb].
  destruct (String.eqb_spec (content x) (content y)) as [Hc | Hc];
    cbn [negb].
  - apply eq_true_iff_eq. rewrite bool_decide_eq_true.
    rewrite <- (attrs_compare_eq (attrs x) (attrs y)) by done.
    destruct (negb (length (attrs_keys (attrs x))
                    =? length (attrs_keys (attrs y)))).
    + split; [done | by intros [_ [? _]]].
    + split; [by intros ? | by intros [_ [_ ?]]].
  - rewrite bool_decide_eq_false_2; [done | by intros [? _]].
Qed.

Lemma blockEquals_ref_sym (a b : option SFCBlock) :
  blockEquals_ref a b = true → blockEquals_ref b a = true.
Proof.
  destruct a as [x|], b as [y|]; try done. cbn [blockEquals_ref].
  intros [Hsrc | Hrest]%orb_true_iff; apply orb_true_iff.
  - left. destruct (src x) as [s|]; [| done].
    apply bool_decide_eq_true in Hsrc as [Hs Hy]. rewrite Hy.
    by apply bool_decide_eq_true.
  - right. apply bool_decide_eq_true in Hrest as [? ?].
    by apply bool_decide_eq_true.
Qed.

(** X5. [isEqualBlock] is reflexive on every block, and symmetric on blocks
    whose attribute names are pairwise distinct: comparing the old block
    with the new one or the new one with the old gives the same answer. *)
Theorem isEqualBlock_symmetric (a b : option SFCBlock)
    (Ha : block_keys_distinct a) (Hb : block_keys_distinct b) :
  isEqualBlock a a = true
  ∧ isEqualBlock a b = isEqualBlock b a.
Proof.
  split; [apply isEqualBlock_refl |].
  rewrite !isEqualBlock_blockEquals_ref by done.
  apply eq_true_iff_eq. split; apply blockEquals_ref_sym.
Qed.

(** ** Choosing the main module *)

Lemma sort_by_length_head (g : ModuleGraph) (x : ModuleNode)
    (l : list ModuleNode) :
  head (sort_by_length g (x :: l))
  = match head (sort_by_length g l) with
    | None => Some x
    | Some h => if url_length g x <=? url_length g h then Some x else Some h
    end.
Proof.
  unfold sort_by_length, url_length. cbn [foldr].
  destruct (foldr (insert_by_length g) [] l) as [|h r]; [done |].
  cbn [insert_by_length head]. by destruct (_ <=? _).
Qed.

(** The head of the sorted candidates is the first of the shortest. *)
Lemma sort_by_length_head_first (g : ModuleGraph) (c : list ModuleNode) :
  match head (sort_by_length g c) with
  | None => c = []
  | Some m =>
      ∃ l1 l2, c = l1 ++ m :: l2
               ∧ (∀ m', m' ∈ l1 → url_length g m < url_length g m')
               ∧ (∀ m', m' ∈ l2 → url_length g m ≤ url_length g m')
  end.
Proof.
  induction c as [|x c IH]; [done |].
  rewrite sort_by_length_head.
  destruct (head (sort_by_length g c)) as [h|].
  - destruct IH as (l1 & l2 & -> & Hl1 & Hl2).
    destruct (Nat.leb_spec (url_length g x) (url_length g h)) as [Hle | Hlt].
    + exists [], (l1 ++ h :: l2). split; [done |].
      split; [by intros m' ?%elem_of_nil |].
      intros m' [Hm' | [-> | Hm']%elem_of_cons]%elem_of_app.
      * apply Hl1 in Hm'. lia.
      * done.
      * apply Hl2 in Hm'. lia.
    + exists (x :: l1), l2. split; [done |]. split; [| done].
      intros m' [-> | Hm']%elem_of_cons; [done | by apply Hl1].
  - subst c. exists [], []. split; [done |].
    split; by intros m' ?%elem_of_nil.
Qed.

(** X6. [getMainModule] returns nothing exactly when no live module
    qualifies (a URL without [type=], or with [type=script]); otherwise it
    returns a qualifying module of the list whose URL is at most as long as
    that of every other qualifying module, and among the shortest the one
    that comes first in the list. *)
Theorem getMainModule_first_shortest
    (g : ModuleGraph) (modules : list ModuleNode) :
  match getMainModule g modules with
  | None => ∀ m, m ∈ modules → is_main_candidate g m = false
  | Some m =>
      m ∈ modules
      ∧ is_main_candidate g m = true
      ∧ (∀ m', m' ∈ modules → is_main_candidate g m' = true →
               url_length g m ≤ url_length g m')
      ∧ ∃ l1 l2,
          List.filter (is_main_candidate g) modules = l1 ++ m :: l2
          ∧ ∀ m', m' ∈ l1 → url_length g m < url_length g m'
  end.
Proof.
  unfold getMainModule.
  change (λ m, negb (includes (url g m) "type=")
               || includes (url g m) "type=script")
    with (is_main_candidate g).
  pose proof (sort_by_length_head_first g
                (List.filter (is_main_candidate g) modules)) as Hhead.
  destruct (head _) as [m|].
  - destruct Hhead as (l1 & l2 & Heq & Hl1 & Hl2).
    assert (Hin : ∀ m', m' ∈ l1 ++ m :: l2
                        ↔ m' ∈ modules ∧ is_main_candidate g m' = true).
    { intros m'. rewrite <- Heq, !list_elem_of_In. apply List.filter_In. }
    assert (Hm : m ∈ l1 ++ m :: l2).
    { apply elem_of_app. right. left. }
    apply Hin in Hm as [Hm Hcand].
    split; [done |]. split; [done |]. split; [| by exists l1, l2].
    intros m' Hm' Hc'.
    assert (Hm'' : m' ∈ l1 ++ m :: l2) by by apply Hin.
    apply elem_of_app in Hm'' as [H1 | [-> | H2]%elem_of_cons].
    + apply Hl1 in H1. lia.
    + done.
    + by apply Hl2.
  - intros m Hm. destruct (is_main_candidate g m) eqn:Hc; [| done].
    assert (Hin : m ∈ List.filter (is_main_candidate g) modules).
    { apply list_elem_of_In, List.filter_In.
      split; [by apply list_elem_of_In | done]. }
    rewrite Hhead in Hin. by apply elem_of_nil in Hin.
Qed.

Lemma getMainModule_elem_of (g : ModuleGraph) (modules : list ModuleNode)
    (m : ModuleNode) :
  getMainModule g modules = Some m → m ∈ modules.
Proof.
  unfold getMainModule. intros Hhead.
  pose proof (sort_by_length_head_first g
                (List.filter (is_main_candidate g) modules)) as Hsort.
  change (λ m, negb (includes (url g m) "type=")
               || includes (url g m) "type=script")
    with (is_main_candidate g) in Hhead.
  rewrite Hhead in Hsort. destruct Hsort as (l1 & l2 & Heq & _).
  assert (Hm : m ∈ List.filter (is_main_candidate g) modules).
  { rewrite Heq. apply elem_of_app. right. left. }
  by apply list_elem_of_In, List.filter_In in Hm as [?%list_elem_of_In _].
Qed.

Lemma find_elem_of {A} (f : A → bool) (l : list A) (x : A) :
  List.find f l = Some x → x ∈ l ∧ f x = true.
Proof.
  intros [Hin Hf]%List.find_some. by split; [apply list_elem_of_In |].
Qed.

(** ** What the classifier returns *)

Lemma set_add_ok (allowed : ModuleNode → Prop) (x : option ModuleNode)
    (a : ModuleSet) :
  module_ok allowed x → affected_ok allowed a →
  affected_ok allowed (set_add x a).
Proof.
  intros Hx [Hnd Hall]. unfold set_add, set_has.
  destruct (bool_decide_reflect (x ∈ a)) as [Hin | Hin]; [done |].
  split.
  - apply NoDup_app. split; [done |]. split; [| apply NoDup_singleton].
    intros y Hy ->%list_elem_of_singleton. done.
  - apply Forall_app. split; [done |]. by apply Forall_singleton.
Qed.

Lemma style_loop_ok (allowed : ModuleNode → Prop) g modules mainModule
    prevStyles nextStyles :
  (∀ m, m ∈ modules → allowed m) → module_ok allowed mainModule →
  ∀ i s,
    affected_ok allowed (affectedModules s) →
    affected_ok allowed
      (affectedModules
         (style_loop g modules mainModule prevStyles i nextStyles s)).
Proof.
  intros Hmods Hmain.
  induction nextStyles as [|next rest IH]; intros i s Hs; [done |].
  cbn [style_loop]. apply IH. unfold style_step.
  destruct (block_differs _ _); [| done].
  unfold find_style_module.
  destruct (List.find _ modules) as [m|] eqn:Hfind; cbn [affectedModules].
  - apply find_elem_of in Hfind as [Hm _].
    destruct (includes _ _); repeat apply set_add_ok; try done;
      by apply Hmods.
  - by apply set_add_ok.
Qed.

Lemma custom_loop_ok (allowed : ModuleNode → Prop) g modules mainModule
    prevCustoms nextCustoms :
  (∀ m, m ∈ modules → allowed m) → module_ok allowed mainModule →
  ∀ i a,
    affected_ok allowed a →
    affected_ok allowed
      (custom_loop g modules mainModule prevCustoms i nextCustoms a).
Proof.
  intros Hmods Hmain.
  induction nextCustoms as [|next rest IH]; intros i a Ha; [done |].
  cbn [custom_loop]. apply IH. unfold custom_step.
  destruct (prevCustoms !! i) as [prev|]; [| done].
  destruct (negb _); [| done].
  destruct (List.find _ modules) as [m|] eqn:Hfind.
  - apply find_elem_of in Hfind as [Hm _].
    apply set_add_ok; [by apply Hmods | done].
  - by apply set_add_ok.
Qed.

Lemma set_add_fold_ok (allowed : ModuleNode → Prop) (l : list ModuleNode) :
  (∀ m, m ∈ l → allowed m) →
  ∀ a, affected_ok allowed a →
       affected_ok allowed (fold_left (λ a m, set_add (Some m) a) l a).
Proof.
  induction l as [|m l IH]; intros Hl a Ha; [done |].
  cbn [fold_left]. apply IH.
  - intros m' Hm'. apply Hl. by right.
  - apply set_add_ok; [| done]. apply Hl. left.
Qed.

Lemma filter_Boolean_ok (allowed : ModuleNode → Prop) (a : ModuleSet) :
  affected_ok allowed a →
  NoDup (filter_Boolean a) ∧ ∀ m, m ∈ filter_Boolean a → allowed m.
Proof.
  intros [Hnd Hall]. unfold filter_Boolean. split.
  - induction Hnd as [|x a Hx Hnd IH]; [apply NoDup_nil_2 |].
    apply Forall_cons in Hall as [_ Hall].
    destruct x as [m|]; cbn [omap]; [| by apply IH].
    apply NoDup_cons_2; [| by apply IH].
    intros (y & Hy & ->)%list_elem_of_omap. done.
  - intros m (y & Hy & ->)%list_elem_of_omap.
    rewrite Forall_forall in Hall. by apply (Hall (Some m)).
Qed.

Section ReturnedModules.
Context `{Externals}.

(** X7. Whatever the edit, the array the handler returns has no module
    twice, and each of its modules is one of the live modules it was given
    or a stylesheet request that imports the main module. *)
Theorem handleHotUpdate_returns_distinct_known_modules
    (g : ModuleGraph) (file : string) (modules : list ModuleNode)
    (content : string) (options : ResolvedOptions) (st : CacheState) :
  match returned (handleHotUpdate g file modules content options st) with
  | None => hmrCache st !! file = None
  | Some l =>
      NoDup l
      ∧ ∀ m, m ∈ l →
             returnable isCSSRequest g modules (getMainModule g modules) m
  end.
Proof.
  unfold handleHotUpdate. rewrite getDescriptor_lookup_only.
  cbn [select_cache].
  destruct (hmrCache st !! file) as [prev|]; [| done].
  unfold createDescriptor. cbn [fst snd descriptor returned].
  set (next := set_id _ _).
  set (allowed := returnable isCSSRequest g modules (getMainModule g modules)).
  assert (Hmods : ∀ m, m ∈ modules → allowed m) by (intros m ?; by left).
  assert (Hmain : module_ok allowed (getMainModule g modules)).
  { destruct (getMainModule g modules) as [mm|] eqn:Hmm; [| done].
    apply Hmods. by apply getMainModule_elem_of in Hmm. }
  assert (Htpl : module_ok allowed
                   (List.find (λ m, includes (url g m) "type=template")
                      modules)).
  { destruct (List.find _ modules) as [tm|] eqn:Htm; [| done].
    apply Hmods. by apply find_elem_of in Htm as [? _]. }
  assert (Hscript : module_ok allowed
                      (or_module (getScriptModule g modules)
                         (getMainModule g modules))).
  { unfold getScriptModule.
    destruct (List.find (λ m, script_lang_re (url g m)) modules)
      as [sm|] eqn:Hsm; [| exact Hmain].
    apply Hmods. by apply find_elem_of in Hsm as [? _]. }
  assert (Hcss : ∀ mm, getMainModule g modules = Some mm →
                       ∀ m, m ∈ List.filter (λ m, isCSSRequest (url g m))
                                  (importers g mm) → allowed m).
  { intros mm Hmm m [Hm Hc]%list_elem_of_In%List.filter_In. right.
    exists mm. by split; [| split; [apply list_elem_of_In |]]. }
  apply filter_Boolean_ok.
  destruct (getMainModule g modules) as [mm|] eqn:Hmm.
  - specialize (Hcss mm eq_refl).
    repeat first
      [ done
      | apply set_add_ok
      | apply style_loop_ok; cbn [affectedModules]
      | apply custom_loop_ok
      | apply set_add_fold_ok
      | match goal with
        | |- affected_ok _ (if ?b then _ else _) => destruct b
        | |- affected_ok _ match ?o with Some _ => _ | None => _ end =>
            destruct o
        | |- affected_ok _ [] => split; constructor
        end ].
  - repeat first
      [ done
      | apply set_add_ok
      | apply style_loop_ok; cbn [affectedModules]
      | apply custom_loop_ok
      | match goal with
        | |- affected_ok _ (if ?b then _ else _) => destruct b
        | |- affected_ok _ match ?o with Some _ => _ | None => _ end =>
            destruct o
        | |- affected_ok _ [] => split; constructor
        end ].
Qed.

End ReturnedModules.

(** ** When the classifier asks for the main module *)

(** Membership in the affected set, followed through the later rules. *)
Ltac affected_mono :=
  repeat first
    [ apply set_add_here
    | apply set_add_mono
    | apply style_loop_mono; cbn [affectedModules]
    | apply custom_loop_mono
    | apply set_add_fold_mono
    | match goal with
      | |- _ ∈ (if ?b then _ else _) => destruct b
      | |- _ ∈ match ?o with Some _ => _ | None => _ end => destruct o
      end ].

Lemma elem_of_filter_Boolean (m : ModuleNode) (a : ModuleSet) :
  Some m ∈ a → m ∈ filter_Boolean a.
Proof.
  intros Hm. unfold filter_Boolean. apply list_elem_of_omap.
  by exists (Some m).
Qed.

(** A changed style block that no live module serves, or that an inline
    module serves, puts the main module into the affected set. *)
Lemma style_loop_adds_main g modules mainModule prevStyles nextStyles :
  ∀ i s j blk,
    nextStyles !! j = Some blk →
    block_differs (prevStyles !! (i + j)) blk = true →
    match find_style_module g modules (i + j) blk with
    | Some m => includes (url g m) "&inline" = true
    | None => True
    end →
    mainModule
    ∈ affectedModules
        (style_loop g modules mainModule prevStyles i nextStyles s).
Proof.
  induction nextStyles as [|next rest IH]; intros i s j blk Hj Hd Hfind;
    [done |].
  cbn [style_loop]. destruct j as [|j].
  - injection Hj as ->. rewrite Nat.add_0_r in Hd, Hfind.
    apply style_loop_mono. unfold style_step. rewrite Hd.
    destruct (find_style_module g modules i blk) as [m|];
      cbn [affectedModules].
    + rewrite Hfind. apply set_add_here.
    + apply set_add_here.
  - apply (IH (S i) _ j blk); [done | |];
      by replace (S i + j) with (i + S j) by lia.
Qed.

Section ReloadRules.
Context `{Externals}.

(** X8. The main module is among the returned modules whenever the joined
    CSS variables ([cssVars.join('')]) of the two descriptors differ, the
    presence of a scoped style flips, a trailing style block was removed or
    the number of custom blocks changed; when the scoped flag flips, the
    template module (if one is live) is returned as well. *)
Theorem handleHotUpdate_forces_main_module
    (g : ModuleGraph) (file : string) (modules : list ModuleNode)
    (content : string) (options : ResolvedOptions) (st : CacheState)
    (prev : SFCDescriptor) (mm : ModuleNode)
    (Hprev : hmrCache st !! file = Some prev)
    (Hmain : getMainModule g modules = Some mm)
    (Hrule :
       let next :=
         descriptor (createDescriptor file content options true st).1 in
       join_empty (cssVars prev) ≠ join_empty (cssVars next)
       ∨ existsb scoped (styles prev) ≠ existsb scoped (styles next)
       ∨ length (styles next) < length (styles prev)
       ∨ length (customBlocks prev) ≠ length (customBlocks next)) :
  let next := descriptor (createDescriptor file content options true st).1 in
  ∃ l, returned (handleHotUpdate g file modules content options st) = Some l
       ∧ mm ∈ l
       ∧ (existsb scoped (styles prev) ≠ existsb scoped (styles next) →
          ∀ tm, List.find (λ m, includes (url g m) "type=template") modules
                = Some tm → tm ∈ l).
Proof.
  cbn zeta in *. unfold handleHotUpdate.
  rewrite (getDescriptor_hit file options false true st prev Hprev).
  revert Hrule. unfold createDescriptor. cbn [fst snd descriptor returned].
  set (next := set_id _ _). rewrite Hmain. intros Hrule.
  eexists. split; [reflexivity |]. split.
  - apply elem_of_filter_Boolean.
    destruct Hrule as [Hvars | [Hscoped | [Hremoved | Hcustom]]].
    + apply String.eqb_neq in Hvars. rewrite Hvars. cbn [negb].
      affected_mono.
    + assert (Hflip : Bool.eqb (existsb scoped (styles prev))
                               (existsb scoped (styles next)) = false).
      { by destruct (existsb scoped (styles prev)),
                    (existsb scoped (styles next)). }
      rewrite Hflip. cbn [negb]. affected_mono.
    + apply Nat.ltb_lt in Hremoved. rewrite Hremoved. affected_mono.
    + apply Nat.eqb_neq in Hcustom. rewrite Hcustom. cbn [negb].
      affected_mono.
  - intros Hscoped tm Htm. rewrite Htm. apply elem_of_filter_Boolean.
    assert (Hflip : Bool.eqb (existsb scoped (styles prev))
                             (existsb scoped (styles next)) = false).
    { by destruct (existsb scoped (styles prev)),
                  (existsb scoped (styles next)). }
    rewrite Hflip. cbn [negb]. affected_mono.
Qed.

(** X9. The conservative fallback for styles: when a style block of the
    new descriptor is new or changed and no live module matches it (or the
    matching module is an inline one), the main module is returned and the
    [style] update kind is recorded. *)
Theorem handleHotUpdate_unmatched_style_forces_main
    (g : ModuleGraph) (file : string) (modules : list ModuleNode)
    (content : string) (options : ResolvedOptions) (st : CacheState)
    (prev : SFCDescriptor) (mm : ModuleNode) (i : nat) (blk : SFCBlock)
    (Hprev : hmrCache st !! file = Some prev)
    (Hmain : getMainModule g modules = Some mm)
    (Hblk : styles (descriptor
                      (createDescriptor file content options true st).1)
              !! i = Some blk)
    (Hdiffers : block_differs (styles prev !! i) blk = true)
    (Hfind : match find_style_module g modules i blk with
             | Some m => includes (url g m) "&inline" = true
             | None => True
             end) :
  let res := handleHotUpdate g file modules content options st in
  ∃ l, returned res = Some l ∧ mm ∈ l ∧ "style" ∈ updateType res.
Proof.
  cbn zeta. unfold handleHotUpdate.
  rewrite (getDescriptor_hit file options false true st prev Hprev).
  revert Hblk. unfold createDescriptor.
  cbn [fst snd descriptor returned updateType].
  set (next := set_id _ _). rewrite Hmain. intros Hblk.
  eexists. split; [reflexivity |]. split.
  - apply elem_of_filter_Boolean.
    repeat first
      [ apply (style_loop_adds_main g modules (Some mm) (styles prev)
                 (styles next) 0 _ i blk Hblk Hdiffers Hfind)
      | apply set_add_here
      | apply set_add_mono
      | apply custom_loop_mono
      | apply set_add_fold_mono
      | match goal with
        | |- _ ∈ (if ?b then _ else _) => destruct b
        | |- _ ∈ match ?o with Some _ => _ | None => _ end => destruct o
        end ].
  - match goal with
    | |- context [didUpdateStyle ?s5] =>
        assert (Hupd : didUpdateStyle s5 = true)
    end.
    { apply style_loop_didUpdateStyle. right. by exists i, blk. }
    rewrite Hupd. apply elem_of_app. right. left.
Qed.

End ReloadRules.

(** ** Edits that change no block, or only the template *)

Lemma style_loop_unchanged g modules mainModule prevStyles nextStyles :
  ∀ i s,
    (∀ j blk, nextStyles !! j = Some blk →
              block_differs (prevStyles !! (i + j)) blk = false) →
    style_loop g modules mainModule prevStyles i nextStyles s = s.
Proof.
  induction nextStyles as [|next rest IH]; intros i s Hsame; [done |].
  cbn [style_loop]. unfold style_step.
  pose proof (Hsame 0 next eq_refl) as H0. rewrite Nat.add_0_r in H0.
  rewrite H0. apply IH. intros j blk Hj.
  replace (S i + j) with (i + S j) by lia. by apply Hsame.
Qed.

Lemma custom_loop_unchanged g modules mainModule prevCustoms nextCustoms :
  ∀ i a,
    (∀ j blk, nextCustoms !! j = Some blk →
              match prevCustoms !! (i + j) with
              | Some p => isEqualBlock (Some p) (Some blk) = true
              | None => True
              end) →
    custom_loop g modules mainModule prevCustoms i nextCustoms a = a.
Proof.
  induction nextCustoms as [|next rest IH]; intros i a Hsame; [done |].
  cbn [custom_loop]. unfold custom_step.
  pose proof (Hsame 0 next eq_refl) as H0. rewrite Nat.add_0_r in H0.
  assert (Hstep : match prevCustoms !! i with
                  | Some prev =>
                      if negb (isEqualBlock (Some prev) (Some next))
                      then match List.find
                                   (λ m, includes (url g m)
                                           ("type=" +:+ type prev
                                            +:+ "&index=" +:+ nat_to_string i))
                                   modules with
                           | Some m => set_add (Some m) a
                           | None => set_add mainModule a
                           end
                      else a
                  | None => a
                  end = a).
  { destruct (prevCustoms !! i); [| done]. by rewrite H0. }
  rewrite Hstep. apply IH. intros j blk Hj.
  replace (S i + j) with (i + S j) by lia. by apply Hsame.
Qed.

Lemma forallb_imap_lookup {A} (P : nat → A → bool) (l : list A) :
  forallb (λ '(i, s), P i s) (imap (λ i s, (i, s)) l) = true →
  ∀ i s, l !! i = Some s → P i s = true.
Proof.
  rewrite forallb_forall. intros Hall i s Hi.
  apply (Hall (i, s)), list_elem_of_In, elem_of_lookup_imap. by exists i, s.
Qed.

Section QuietEdits.
Context `{Externals}.

(** X10. Saving a file whose parse gives the descriptor the handler already
    holds (and whose script needs no re-analysis): no module is returned,
    no update kind is recorded, no script is re-registered and the three
    caches are exactly as they were. *)
Theorem handleHotUpdate_unchanged_file
    (g : ModuleGraph) (file : string) (modules : list ModuleNode)
    (content : string) (options : ResolvedOptions) (st : CacheState)
    (prev : SFCDescriptor)
    (Hprev : hmrCache st !! file = Some prev)
    (Hsame : descriptor (createDescriptor file content options true st).1
             = prev)
    (Hscript : hasScriptChanged prev prev = false) :
  handleHotUpdate g file modules content options st
  = {| returned := Some []; updateType := []; cachesAfter := st;
       resolvedScriptWrites := [] |}.
Proof.
  unfold handleHotUpdate.
  rewrite (getDescriptor_hit file options false true st prev Hprev).
  revert Hsame. unfold createDescriptor. cbn [fst snd descriptor].
  intros ->. rewrite Hscript, !isEqualBlock_refl, String.eqb_refl.
  rewrite Bool.eqb_reflx, Nat.ltb_irrefl, Nat.eqb_refl.
  cbn [negb andb].
  rewrite style_loop_unchanged.
  2:{ intros j blk Hj. cbn [Nat.add]. rewrite Hj. cbn [block_differs].
      by rewrite isEqualBlock_refl. }
  cbn [affectedModules didUpdateStyle].
  rewrite custom_loop_unchanged.
  2:{ intros j blk Hj. cbn [Nat.add]. rewrite Hj. apply isEqualBlock_refl. }
  cbn [app length Nat.eqb negb filter_Boolean omap].
  f_equal. unfold update_cache. destruct st as [c h p].
  cbn [cache hmrCache prevCache] in *. by rewrite insert_id.
Qed.

(** X11. When the new descriptor differs from the previous one in nothing
    but its template ([isOnlyTemplateChanged], the test [transformMain]
    marks a re-render-only update with), the handler records no [style]
    update kind, and a changed template makes it hand the previous
    descriptor's resolved script over to the new descriptor. *)
Theorem handleHotUpdate_only_template_changed
    (g : ModuleGraph) (file : string) (modules : list ModuleNode)
    (content : string) (options : ResolvedOptions) (st : CacheState)
    (prev : SFCDescriptor)
    (Hprev : hmrCache st !! file = Some prev)
    (Honly : isOnlyTemplateChanged prev
               (descriptor (createDescriptor file content options true st).1)
             = true) :
  let next := descriptor (createDescriptor file content options true st).1 in
  let res := handleHotUpdate g file modules content options st in
  let templateChanged :=
    negb (isEqualBlock (template next) (template prev)) in
  updateType res = (if templateChanged then ["template"] else [])
  ∧ resolvedScriptWrites res
    = (if templateChanged
       then [(next, getResolvedScript prev false)] else []).
Proof.
  cbn zeta. unfold handleHotUpdate.
  rewrite (getDescriptor_hit file options false true st prev Hprev).
  revert Honly. unfold createDescriptor. cbn [fst snd descriptor].
  set (next := set_id _ _). unfold isOnlyTemplateChanged.
  intros ((((Hscript & Hlen)%andb_true_iff & Hstyles)%andb_true_iff
           & Hclen)%andb_true_iff & Hcustoms)%andb_true_iff.
  apply negb_true_iff in Hscript. apply Nat.eqb_eq in Hlen.
  pose proof (forallb_imap_lookup
                (λ i s, isEqualBlock (Some s) (styles next !! i))
                (styles prev) Hstyles) as Hst.
  cbn [updateType resolvedScriptWrites]. rewrite Hscript.
  rewrite style_loop_unchanged.
  2:{ intros j blk Hj. cbn [Nat.add].
      destruct (styles prev !! j) as [p|] eqn:Hp.
      - cbn [block_differs]. specialize (Hst j p Hp). cbn beta in Hst.
        rewrite Hj in Hst. by rewrite Hst.
      - apply lookup_ge_None in Hp. apply lookup_lt_Some in Hj. lia. }
  cbn [didUpdateStyle andb negb].
  by destruct (negb (isEqualBlock (template next) (template prev))).
Qed.

(** X12. A file the handler has not seen (no entry in [hmrCache]): the
    handler returns [undefined] without reading the new content into any
    cache. *)
Theorem handleHotUpdate_unseen_file
    (g : ModuleGraph) (file : string) (modules : list ModuleNode)
    (content : string) (options : ResolvedOptions) (st : CacheState)
    (Hmiss : hmrCache st !! file = None) :
  handleHotUpdate g file modules content options st
  = {| returned := None; updateType := []; cachesAfter := st;
       resolvedScriptWrites := [] |}.
Proof.
  unfold handleHotUpdate. rewrite getDescriptor_lookup_only.
  cbn [select_cache]. by rewrite Hmiss.
Qed.

End QuietEdits.

(** ** Requests and the patterns that look for them *)

Lemma prefix_app_l (p s t : string) :
  String.prefix p s = true → String.prefix p (s +:+ t) = true.
Proof.
  revert s. induction p as [|c p IH]; intros s;
    [intros _; by destruct (s +:+ t) |].
  destruct s as [|x s]; [done |]. rewrite string_app_cons.
  cbn [String.prefix]. destruct (ascii_dec c x); [apply IH | done].
Qed.

Lemma includes_startsWith (s sub : string) :
  startsWith s sub = true → includes s sub = true.
Proof. intros Hs. destruct s; cbn [includes]; by rewrite Hs. Qed.

Lemma includes_here (sub r : string) : includes (sub +:+ r) sub = true.
Proof. apply includes_startsWith, startsWith_app. Qed.

Lemma includes_app_r (p s sub : string) :
  includes s sub = true → includes (p +:+ s) sub = true.
Proof.
  intros Hs. induction p as [|c p IH]; [done |].
  rewrite string_app_cons. cbn [includes]. rewrite IH. apply orb_true_r.
Qed.

Lemma includes_app_l (s t sub : string) :
  includes s sub = true → includes (s +:+ t) sub = true.
Proof.
  induction s as [|c s IH].
  - cbn [includes]. rewrite orb_false_r. unfold startsWith.
    destruct sub; [| done]. intros _. by destruct t.
  - rewrite string_app_cons. cbn [includes].
    intros [Hp | Hr]%orb_true_iff; apply orb_true_iff.
    + left. unfold startsWith in *.
      by apply (prefix_app_l sub (String c s) t).
    + right. by apply IH.
Qed.

Lemma endsWith_refl (s : string) : endsWith s s = true.
Proof. destruct s; cbn [endsWith]; by rewrite String.eqb_refl. Qed.

Lemma endsWith_app (a b : string) : endsWith (a +:+ b) b = true.
Proof.
  induction a as [|c a IH]; [apply endsWith_refl |].
  rewrite string_app_cons. cbn [endsWith]. rewrite IH. apply orb_true_r.
Qed.

(** The language suffix [attrsToQuery] writes when a fallback is given. *)
Lemma attrsToQuery_with_fallback (attrs : Attrs) (fallback : string)
    (force : bool) :
  fallback ≠ "" →
  attrsToQuery attrs (Some fallback) force
  = attrsToQuery_loop attrs +:+ "&lang." +:+
    (if force then fallback
     else match attrs_get attrs "lang" with
          | Some v => attr_to_string v
          | None => fallback
          end).
Proof.
  intros Hf%String.eqb_neq. unfold attrsToQuery, attrs_has.
  cbn [truthy_str opt_to_string]. rewrite Hf. cbn [negb orb].
  destruct (attrs_get attrs "lang"), force; done.
Qed.

Lemma find_is_Some {A} (f : A → bool) (l : list A) (x : A) :
  x ∈ l → f x = true → ∃ y, List.find f l = Some y ∧ f y = true.
Proof.
  intros Hx Hf. destruct (List.find f l) as [y|] eqn:Hfind.
  - exists y. split; [done |]. by apply List.find_some in Hfind as [_ ?].
  - apply list_elem_of_In in Hx.
    pose proof (List.find_none f l Hfind x Hx). congruence.
Qed.

Lemma find_first {A} (f : A → bool) (l1 l2 : list A) (x : A) :
  (∀ y, y ∈ l1 → f y = false) → f x = true →
  List.find f (l1 ++ x :: l2) = Some x.
Proof.
  intros Hl1 Hx. induction l1 as [|y l1 IH]; cbn [app List.find].
  - by rewrite Hx.
  - rewrite (Hl1 y) by left. apply IH. intros z Hz. apply Hl1. by right.
Qed.

(** X13. The request [genStyleCode] builds for style block [i] carries
    [type=style&index=i], carries [&inline] in custom-element mode, and
    ends in [.<lang>] for the language written in the query; so when a live
    module has that URL, is not a direct request, the block's [lang] agrees
    with its attribute, and no module earlier in the list has
    [type=style&index=i] in its URL, the handler's lookup for the block
    answers with that very module. *)
Theorem styleRequest_found_by_handler
    (d : SFCDescriptor) (i : nat) (style : SFCBlock)
    (asCustomElement : bool) (g : ModuleGraph)
    (earlier later : list ModuleNode) (m : ModuleNode)
    (Hurl : url g m = styleRequest d i style asCustomElement)
    (Hdirect : directRequestRE (url g m) = false)
    (Hlang : hmr_style_lang style = style_lang style)
    (Hearlier : ∀ m0, m0 ∈ earlier →
                      includes (url g m0)
                        ("type=style&index=" +:+ nat_to_string i) = false) :
  includes (styleRequest d i style asCustomElement)
    ("type=style&index=" +:+ nat_to_string i) = true
  ∧ endsWith (styleRequest d i style asCustomElement)
      ("." +:+ style_lang style) = true
  ∧ (asCustomElement = true →
     includes (styleRequest d i style asCustomElement) "&inline" = true)
  ∧ find_style_module g (earlier ++ m :: later) i style = Some m.
Proof.
  assert (Hinc : includes (styleRequest d i style asCustomElement)
                   ("type=style&index=" +:+ nat_to_string i) = true).
  { unfold styleRequest, styleQuery.
    apply includes_app_l, includes_app_r.
    change ("?vue&type=style&index=" +:+ ?r)
      with ("?vue&" +:+ ("type=style&index=" +:+ r)).
    apply includes_app_r. rewrite <- string_app_assoc.
    apply includes_here. }
  assert (Hend : endsWith (styleRequest d i style asCustomElement)
                   ("." +:+ style_lang style) = true).
  { unfold styleRequest. rewrite attrsToQuery_with_fallback by done.
    fold (style_lang style).
    change ("&lang." +:+ style_lang style)
      with ("&lang" +:+ ("." +:+ style_lang style)).
    generalize ("." +:+ style_lang style). intros suffix.
    rewrite <- !string_app_assoc. apply endsWith_app. }
  split; [done |]. split; [done |]. split.
  - intros ->. unfold styleRequest, styleQuery. cbn zeta.
    apply includes_app_l, includes_app_r.
    do 3 apply includes_app_r. apply includes_here.
  - unfold find_style_module. fold (hmr_style_lang style).
    apply (find_first
             (λ m, includes (url g m)
                     ("type=style&index=" +:+ nat_to_string i)
                   && endsWith (url g m) ("." +:+ hmr_style_lang style)
                   && negb (directRequestRE (url g m)))).
    + intros m0 Hm0. by rewrite (Hearlier m0 Hm0).
    + by rewrite Hdirect, Hlang, Hurl, Hinc, Hend.
Qed.

(** X14. The request [genTemplateCode] builds for a template that is not
    inlined carries [type=template], the marker the handler picks the
    template module by, and ends in [&lang.js] whatever language the block
    declares; the request [genCustomBlockCode] builds for custom block
    [index] carries [type=<type>&index=<index>], the marker the handler
    looks a changed custom block up by. *)
Theorem template_and_custom_requests_carry_markers
    (d : SFCDescriptor) (template block : SFCBlock) (index : nat) :
  includes (templateRequest d template) "type=template" = true
  ∧ endsWith (templateRequest d template) "&lang.js" = true
  ∧ includes (customBlockRequest d index block)
      ("type=" +:+ type block +:+ "&index=" +:+ nat_to_string index) = true.
Proof.
  split; [| split].
  - unfold templateRequest. apply includes_app_r.
    change ("?vue&type=template" +:+ ?r)
      with ("?vue&" +:+ ("type=template" +:+ r)).
    apply includes_app_r, includes_here.
  - unfold templateRequest. rewrite attrsToQuery_with_fallback by done.
    change ("&lang." +:+ "js") with "&lang.js".
    generalize "&lang.js". intros suffix.
    rewrite <- !string_app_assoc. apply endsWith_app.
  - unfold customBlockRequest. apply includes_app_r.
    change ("?vue&type=" +:+ ?r) with ("?vue&" +:+ ("type=" +:+ r)).
    apply includes_app_r.
    assert (Heq : ∀ rest,
              "type=" +:+ type block +:+ "&index=" +:+ nat_to_string index
                +:+ rest
              = ("type=" +:+ type block +:+ "&index="
                   +:+ nat_to_string index) +:+ rest)
      by (intros; by rewrite !string_app_assoc).
    rewrite Heq. apply includes_here.
Qed.

(** *** The characters of the attribute query *)

Lemma hex_digit_unreserved (n : nat) : uri_unreserved (hex_digit n) = true.
Proof. do 16 (destruct n as [|n]; [done |]). done. Qed.

Lemma encodeURIComponent_query_chars (s : string) :
  string_forall query_char (encodeURIComponent s) = true.
Proof.
  apply encodeURIComponent_forall; [done | |].
  - intros k. unfold query_char. by rewrite hex_digit_unreserved.
  - intros c Hc. unfold query_char. by rewrite Hc.
Qed.

Lemma attrsToQuery_step_query_chars (attrs : Attrs) (query name : string) :
  string_forall query_char query = true →
  string_forall query_char (attrsToQuery_step attrs query name) = true.
Proof.
  intros Hq. unfold attrsToQuery_step.
  destruct (negb (list_includes ignoreList name)); [| done].
  rewrite !string_forall_app, Hq, encodeURIComponent_query_chars.
  destruct (attrs_get attrs name) as [v|]; [| done].
  destruct (attr_truthy v); [| done].
  by rewrite string_forall_app, encodeURIComponent_query_chars.
Qed.

Lemma attrsToQuery_loop_query_chars (attrs : Attrs) :
  string_forall query_char (attrsToQuery_loop attrs) = true.
Proof.
  unfold attrsToQuery_loop.
  assert (Hgen : ∀ keys query,
            string_forall query_char query = true →
            string_forall query_char
              (fold_left (attrsToQuery_step attrs) keys query) = true).
  { induction keys as [|k keys IH]; intros query Hq; [done |].
    cbn [fold_left]. by apply IH, attrsToQuery_step_query_chars. }
  by apply Hgen.
Qed.

Lemma string_forall_impl (p q : ascii → bool) (s : string) :
  (∀ c, p c = true → q c = true) →
  string_forall p s = true → string_forall q s = true.
Proof.
  intros Hpq. induction s as [|c s IH]; [done |]. cbn [string_forall].
  intros [Hc Hs]%andb_true_iff. by rewrite (Hpq c Hc), IH.
Qed.

Lemma attrsToQuery_loop_one_line (attrs : Attrs) :
  string_forall (λ c, negb (is_line_terminator c))
    (attrsToQuery_loop attrs) = true.
Proof.
  eapply string_forall_impl; [| apply attrsToQuery_loop_query_chars].
  intros c Hc. destruct c as [[] [] [] [] [] [] [] []]; done.
Qed.

(** X15. [attrsToQuery] answers with the part its loop wrote followed by
    the language suffix.  Whatever the attribute names and values are, the
    loop's part consists of unreserved characters, [%], [&] and [=] only:
    no [?], [#], blank or line terminator of an attribute the loop writes
    reaches the request unescaped.  The suffix is empty, or [&lang.]
    followed by the fallback or by the value of the [lang] attribute; when
    the fallback is not forced, a non-empty [lang] string is written as it
    is, without escaping. *)
Theorem attrsToQuery_loop_alphabet
    (attrs : Attrs) (langFallback : option string)
    (forceLangFallback : bool) :
  (∃ suffix,
     attrsToQuery attrs langFallback forceLangFallback
     = attrsToQuery_loop attrs +:+ suffix
     ∧ (suffix = ""
        ∨ suffix = "&lang." +:+ opt_to_string langFallback
        ∨ ∃ v, attrs_get attrs "lang" = Some v
               ∧ forceLangFallback = false
               ∧ suffix = "&lang." +:+ attr_to_string v))
  ∧ (∀ l, attrs_get attrs "lang" = Some (AttrStr l) → l ≠ "" →
          attrsToQuery attrs langFallback false
          = attrsToQuery_loop attrs +:+ "&lang." +:+ l)
  ∧ string_forall query_char (attrsToQuery_loop attrs) = true
  ∧ no_char "?" (attrsToQuery_loop attrs) = true
  ∧ no_char "#" (attrsToQuery_loop attrs) = true
  ∧ no_char " " (attrsToQuery_loop attrs) = true
  ∧ string_forall (λ c, negb (is_line_terminator c))
      (attrsToQuery_loop attrs) = true.
Proof.
  split; [| split].
  - unfold attrsToQuery, attrs_has.
    destruct (truthy_str langFallback
              || match attrs_get attrs "lang" with
                 | Some v => attr_truthy v
                 | None => false
                 end).
    + destruct (attrs_get attrs "lang") as [v|] eqn:Hv.
      * destruct forceLangFallback.
        -- eexists. split; [reflexivity |]. right. by left.
        -- eexists. split; [reflexivity |]. right. right. by exists v.
      * eexists. split; [reflexivity |]. right. by left.
    + exists "". split; [by rewrite string_app_nil_r | by left].
  - intros l Hl Hne%String.eqb_neq. unfold attrsToQuery, attrs_has.
    rewrite Hl. cbn [attr_truthy attr_to_string]. rewrite Hne.
    cbn [negb]. by rewrite orb_true_r.
  - pose proof (attrsToQuery_loop_query_chars attrs) as Hq.
    split; [done |].
    repeat split;
      (eapply string_forall_impl; [| exact Hq]);
      intros c Hc; destruct c as [[] [] [] [] [] [] [] []]; done.
Qed.

(** *** The script request and [getScriptModule] *)

Lemma lang_suffix_from_here (l : string) :
  l ≠ "" → string_forall is_word_char l = true →
  lang_suffix_from ("&lang." +:+ l) = true.
Proof.
  intros Hl%String.eqb_neq Hw.
  change ("&lang." +:+ l)
    with (String "&" (String "l" (String "a" (String "n" (String "g"
            (String "." l)))))).
  cbn [lang_suffix_from].
  change (String "&" (String "l" (String "a" (String "n" (String "g"
            (String "." l))))))
    with ("&lang." +:+ l).
  rewrite startsWith_app.
  change (string_drop 6 ("&lang." +:+ l)) with l.
  by rewrite Hl, Hw.
Qed.

Lemma lang_suffix_from_app (mid t : string) :
  string_forall (λ c, negb (is_line_terminator c)) mid = true →
  lang_suffix_from t = true → lang_suffix_from (mid +:+ t) = true.
Proof.
  intros Hmid Ht. induction mid as [|c mid IH]; [done |].
  cbn [string_forall] in Hmid. apply andb_true_iff in Hmid as [Hc Hmid].
  rewrite string_app_cons. cbn [lang_suffix_from].
  rewrite Hc, IH by done. apply orb_true_r.
Qed.

Lemma script_lang_re_here (t : string) :
  lang_suffix_from t = true → script_lang_re ("type=script" +:+ t) = true.
Proof.
  intros Ht.
  change ("type=script" +:+ t) with (String "t" ("ype=script" +:+ t)).
  cbn [script_lang_re].
  change (String "t" ("ype=script" +:+ t)) with ("type=script" +:+ t).
  rewrite startsWith_app.
  change (string_drop 11 ("type=script" +:+ t)) with t.
  by rewrite Ht.
Qed.

Lemma script_lang_re_app_r (p s : string) :
  script_lang_re s = true → script_lang_re (p +:+ s) = true.
Proof.
  intros Hs. induction p as [|c p IH]; [done |].
  rewrite string_app_cons. cbn [script_lang_re]. rewrite IH.
  apply orb_true_r.
Qed.

Lemma scriptLangFallback_not_empty (extname : string → string)
    (script : SFCBlock) :
  scriptLangFallback extname script ≠ "".
Proof.
  unfold scriptLangFallback. destruct (truthy_str (src script)); [| done].
  destruct (String.eqb_spec
              (string_drop 1 (extname (opt_to_string (src script)))) "");
    done.
Qed.

(** X16. When the language written into a script request is a non-empty
    word (a declared [lang], else the extension of the [src] file, else
    [js]), the request matches the pattern [getScriptModule] searches
    with, so a live module with that URL makes [getScriptModule] answer
    with a module, and that URL also qualifies for [getMainModule]. *)
Theorem scriptRequest_found_by_getScriptModule
    (extname : string → string) (d : SFCDescriptor) (script : SFCBlock)
    (g : ModuleGraph) (modules : list ModuleNode) (m : ModuleNode)
    (Hm : m ∈ modules)
    (Hurl : url g m = scriptRequest extname d script)
    (Hlang : script_lang extname script ≠ "")
    (Hword : string_forall is_word_char (script_lang extname script) = true) :
  script_lang_re (scriptRequest extname d script) = true
  ∧ is_main_candidate g m = true
  ∧ ∃ m', getScriptModule g modules = Some m'
          ∧ script_lang_re (url g m') = true.
Proof.
  assert (Hre : script_lang_re (scriptRequest extname d script) = true).
  { unfold scriptRequest. cbn zeta.
    rewrite attrsToQuery_with_fallback
      by apply scriptLangFallback_not_empty.
    fold (script_lang extname script).
    apply script_lang_re_app_r.
    change ("?vue&type=script" +:+ ?r)
      with ("?vue&" +:+ ("type=script" +:+ r)).
    apply script_lang_re_app_r, script_lang_re_here.
    rewrite <- string_app_assoc. apply lang_suffix_from_app.
    - rewrite string_forall_app.
      rewrite attrsToQuery_loop_one_line.
      by destruct (truthy_str (src script)).
    - by apply lang_suffix_from_here. }
  split; [done |]. split.
  - unfold is_main_candidate. rewrite Hurl. apply orb_true_iff. right.
    unfold scriptRequest. cbn zeta. apply includes_app_r.
    change ("?vue&type=script" +:+ ?r)
      with ("?vue&" +:+ ("type=script" +:+ r)).
    apply includes_app_r, includes_here.
  - unfold getScriptModule.
    apply (find_is_Some (λ m, script_lang_re (url g m)) modules m Hm).
    by rewrite Hurl.
Qed.

(** ** CSS-module requests *)

Lemma moduleRequest_cons_skip (c : ascii) (r : string) :
  string_forall is_word_char r = false →
  moduleRequest (String c r) = String c (moduleRequest r).
Proof.
  intros Hr. cbn [moduleRequest]. by rewrite Hr, andb_false_r.
Qed.

Lemma moduleRequest_ext (p w : string) :
  w ≠ "" → string_forall is_word_char w = true →
  moduleRequest (p +:+ "." +:+ w) = p +:+ ".module." +:+ w.
Proof.
  intros Hw%String.eqb_neq Hword.
  change ("." +:+ w) with (String "."%char w).
  induction p as [|c p IH].
  - rewrite !string_app_nil_l. cbn [moduleRequest]. by rewrite Hw, Hword.
  - rewrite (string_app_cons c p (String "."%char w)).
    rewrite (string_app_cons c p (".module." +:+ w)).
    rewrite moduleRequest_cons_skip; [by rewrite IH |].
    rewrite string_forall_app. cbn [string_forall]. apply andb_false_r.
Qed.

Lemma moduleRequest_no_ext (s : string) (c : ascii) :
  is_word_char c = false →
  moduleRequest (s +:+ String c "") = s +:+ String c "".
Proof.
  intros Hc. induction s as [|x s IH].
  - rewrite string_app_nil_l. cbn [moduleRequest]. by rewrite andb_false_r.
  - rewrite string_app_cons, moduleRequest_cons_skip; [by rewrite IH |].
    rewrite string_forall_app. cbn [string_forall].
    by rewrite Hc, andb_false_r.
Qed.

(** X17. The rewrite [genCSSModulesCode] applies to a request puts
    [.module] in front of the extension when the request ends in a dot
    followed by a non-empty word, whatever comes before (dots included),
    and leaves a request that ends in a non-word character as it is. *)
Theorem moduleRequest_inserts_before_extension (p w : string) (c : ascii)
    (Hw : w ≠ "") (Hword : string_forall is_word_char w = true)
    (Hc : is_word_char c = false) :
  moduleRequest (p +:+ "." +:+ w) = p +:+ ".module." +:+ w
  ∧ moduleRequest (p +:+ String c "") = p +:+ String c "".
Proof. split; [by apply moduleRequest_ext | by apply moduleRequest_no_ext]. Qed.

(** X18. What [genStyleCode] imports for a [<style module>] block whose
    language is a non-empty word: outside custom-element mode the style
    request with [&lang.<lang>] turned into [&lang.module.<lang>], exposed
    under the attribute's value or [$style]; the rewritten request still
    carries [type=style&index=i] and still ends in [.<lang>], which is what
    the hot-update handler matches on.  In custom-element mode the block
    is an error. *)
Theorem styleImport_module_request
    (d : SFCDescriptor) (i : nat) (style : SFCBlock) (moduleName : AttrValue)
    (Hmodule : module style = Some moduleName)
    (Htruthy : attr_truthy moduleName = true)
    (Hlang : style_lang style ≠ "")
    (Hword : string_forall is_word_char (style_lang style) = true) :
  (∃ request,
     styleImport d i style false
     = StyleImportModule request (exposedName moduleName)
     ∧ request
       = (if truthy_str (src style) then opt_to_string (src style)
          else filename d)
         +:+ styleQuery d i style false
         +:+ attrsToQuery_loop (attrs style)
         +:+ "&lang.module." +:+ style_lang style
     ∧ includes request ("type=style&index=" +:+ nat_to_string i) = true
     ∧ endsWith request ("." +:+ style_lang style) = true)
  ∧ styleImport d i style true
    = StyleImportError
        "<style module> is not supported in custom elements mode.".
Proof.
  unfold styleImport. rewrite Hmodule, Htruthy. split; [| done].
  eexists. split; [reflexivity |].
  assert (Hreq : moduleRequest (styleRequest d i style false)
                 = (if truthy_str (src style) then opt_to_string (src style)
                    else filename d)
                   +:+ styleQuery d i style false
                   +:+ attrsToQuery_loop (attrs style)
                   +:+ "&lang.module." +:+ style_lang style).
  { unfold styleRequest. cbn zeta.
    rewrite attrsToQuery_with_fallback by done.
    fold (style_lang style).
    change ("&lang." +:+ style_lang style)
      with ("&lang" +:+ "." +:+ style_lang style).
    rewrite !string_app_assoc.
    rewrite <- (string_app_assoc (attrsToQuery_loop (attrs style)) "&lang").
    rewrite <- (string_app_assoc (styleQuery d i style false)).
    rewrite <- (string_app_assoc _ (styleQuery d i style false +:+ _)).
    rewrite moduleRequest_ext by done.
    by rewrite !string_app_assoc. }
  rewrite Hreq. split; [done |]. split.
  - apply includes_app_r, includes_app_l. unfold styleQuery.
    change ("?vue&type=style&index=" +:+ ?r)
      with ("?vue&" +:+ ("type=style&index=" +:+ r)).
    apply includes_app_r. rewrite <- string_app_assoc.
    apply includes_here.
  - change ("&lang.module." +:+ style_lang style)
      with ("&lang.module" +:+ ("." +:+ style_lang style)).
    generalize ("." +:+ style_lang style). intros suffix.
    rewrite <- !string_app_assoc. apply endsWith_app.
Qed.

(** ** Linking [src] files *)

Lemma stripQuery_no_query (s : string) :
  no_char "?" s = true → stripQuery s = s.
Proof.
  unfold no_char. induction s as [|c s IH]; [done |].
  cbn [string_forall stripQuery]. intros [Hc Hs]%andb_true_iff.
  apply negb_true_iff in Hc. by rewrite Hc, IH.
Qed.

Lemma stripQuery_one_line (s : string) :
  string_forall (λ x, negb (is_line_terminator x)) s = true →
  no_char "?" (stripQuery s) = true.
Proof.
  unfold no_char. induction s as [|c s IH]; [done |].
  cbn [string_forall stripQuery]. intros [Hc Hs]%andb_true_iff.
  rewrite Hs, andb_true_r.
  destruct (Ascii.eqb c "?") eqn:Hq; [done |].
  cbn [string_forall]. by rewrite Hq, IH.
Qed.

Lemma stripQuery_prefix (s : string) : ∃ t, s = stripQuery s +:+ t.
Proof.
  induction s as [|c s [t IH]]; [by exists "" |].
  cbn [stripQuery]. destruct (_ && _).
  - by exists (String c s).
  - exists t. by rewrite string_app_cons, <- IH.
Qed.

(** X19. [stripQuery] (the [replace(/\?.*$/, '')] of
    [linkSrcToDescriptor]) keeps a path without [?] as it is and returns a
    prefix of its argument in every case; on a one-line path the result
    has no [?] left, and it is the path up to its first [?]. *)
Theorem stripQuery_drops_query (path rest : string)
    (Hpath : no_char "?" path = true)
    (Hrest : string_forall (λ x, negb (is_line_terminator x)) rest = true) :
  stripQuery path = path
  ∧ stripQuery (path +:+ "?" +:+ rest) = path
  ∧ ∀ s, ∃ t, s = stripQuery s +:+ t.
Proof.
  split; [by apply stripQuery_no_query |]. split; [| apply stripQuery_prefix].
  unfold no_char in Hpath. induction path as [|c p IH].
  - rewrite string_app_nil_l. change ("?" +:+ rest) with (String "?" rest).
    cbn [stripQuery]. by rewrite Hrest.
  - cbn [string_forall] in Hpath. apply andb_true_iff in Hpath as [Hc Hp].
    apply negb_true_iff in Hc.
    rewrite string_app_cons. cbn [stripQuery]. by rewrite Hc, IH.
Qed.

Lemma src_key_inj (file id1 id2 : string) :
  file +:+ "?src=" +:+ id1 = file +:+ "?src=" +:+ id2 → id1 = id2.
Proof.
  intros Heq. apply String.app_inj in Heq. by apply String.app_inj in Heq.
Qed.

Lemma src_key_not_file (file id1 : string) : file +:+ "?src=" +:+ id1 ≠ file.
Proof.
  intros Heq. rewrite <- (string_app_nil_r file) in Heq at 2.
  by apply String.app_inj in Heq.
Qed.

(** X20. Several owners of one [src] file.  Linked as scoped blocks, two
    descriptors with different ids are both found again, each under its own
    id, and a plain (unscoped) link of the same file is not disturbed by
    them; linked as unscoped blocks, the later link replaces the earlier
    one. *)
Theorem setSrcDescriptor_owners
    (file : string) (d1 d2 d0 : SFCDescriptor) (st : CacheState)
    (Hids : id d1 ≠ id d2) :
  let scoped_query d :=
    {| q_src := Some (id d); q_scoped := true; q_id := None |} in
  let plain_query :=
    {| q_src := Some "true"; q_scoped := false; q_id := None |} in
  let st2 :=
    setSrcDescriptor file d2 true
      (setSrcDescriptor file d1 true (setSrcDescriptor file d0 false st)) in
  getSrcDescriptor file (scoped_query d1) st2 = Some d1
  ∧ getSrcDescriptor file (scoped_query d2) st2 = Some d2
  ∧ getSrcDescriptor file plain_query st2 = Some d0
  ∧ getSrcDescriptor file plain_query
      (setSrcDescriptor file d2 false (setSrcDescriptor file d1 false st))
    = Some d2.
Proof.
  cbn zeta. unfold getSrcDescriptor, setSrcDescriptor, update_cache.
  cbn [q_scoped q_src opt_to_string cache].
  assert (Hne : file +:+ "?src=" +:+ id d2 ≠ file +:+ "?src=" +:+ id d1).
  { intros Heq%src_key_inj. congruence. }
  repeat split.
  - rewrite lookup_insert_ne by done. apply lookup_insert_eq.
  - apply lookup_insert_eq.
  - rewrite !lookup_insert_ne by apply src_key_not_file.
    apply lookup_insert_eq.
  - apply lookup_insert_eq.
Qed.

Lemma stripQuery_app (path rest : string) :
  no_char "?" path = true →
  string_forall (λ x, negb (is_line_terminator x)) rest = true →
  stripQuery (path +:+ "?" +:+ rest) = path.
Proof.
  intros Hpath Hrest. unfold no_char in Hpath.
  induction path as [|c p IH].
  - rewrite string_app_nil_l. change ("?" +:+ rest) with (String "?" rest).
    cbn [stripQuery]. by rewrite Hrest.
  - cbn [string_forall] in Hpath. apply andb_true_iff in Hpath as [Hc Hp].
    apply negb_true_iff in Hc.
    rewrite string_app_cons. cbn [stripQuery]. by rewrite Hc, IH.
Qed.

(** X21. A [src] that resolves to a module id with a query behind the path
    (a dependency with a version query): [linkSrcToDescriptor] files the
    descriptor under the path alone, where a query that is scoped as the
    link was, and for a scoped link names the descriptor's id, finds it. *)
Theorem linkSrcToDescriptor_resolved_with_query
    (resolve : string → string → option string) (src path rest : string)
    (d : SFCDescriptor) (scoped : bool) (st : CacheState) (q : VueQuery)
    (Hresolve : resolve src (filename d) = Some (path +:+ "?" +:+ rest))
    (Hpath : no_char "?" path = true)
    (Hrest : string_forall (λ x, negb (is_line_terminator x)) rest = true)
    (Hscoped : q_scoped q = scoped)
    (Hsrc : scoped = true → q_src q = Some (id d)) :
  linkSrcToDescriptor resolve src d scoped st
  = setSrcDescriptor path d scoped st
  ∧ getSrcDescriptor path q (linkSrcToDescriptor resolve src d scoped st)
    = Some d.
Proof.
  assert (Hlink : linkSrcToDescriptor resolve src d scoped st
                  = setSrcDescriptor path d scoped st).
  { unfold linkSrcToDescriptor. rewrite Hresolve.
    assert (Hne : String.eqb (path +:+ "?" +:+ rest) "" = false).
    { apply String.eqb_neq. by destruct path. }
    rewrite Hne. cbn [negb]. by rewrite stripQuery_app. }
  split; [done |]. rewrite Hlink.
  unfold getSrcDescriptor, setSrcDescriptor.
  rewrite Hscoped. destruct scoped.
  - rewrite (Hsrc eq_refl). cbn [opt_to_string]. unfold update_cache.
    cbn [cache]. apply lookup_insert_eq.
  - unfold update_cache. cbn [cache]. apply lookup_insert_eq.
Qed.

(** ** The size and the sources of a concatenated map *)

Lemma insert_mapping_length (m : Mapping) (l : list Mapping) :
  length (insert_mapping m l) = S (length l).
Proof.
  induction l as [|x l IH]; [done |]. cbn [insert_mapping].
  destruct (existsb _ _); cbn [length]; by rewrite ?IH.
Qed.

Lemma concat_step_length (offset : nat) (gen : GenMapping) (m : Mapping) :
  length (gen_mappings (concat_step offset gen m))
  = length (gen_mappings gen) + (if has_source m then 1 else 0).
Proof.
  unfold concat_step, has_source, addMapping.
  destruct (m_source m) as [source|]; [| lia].
  destruct (String.eqb source ""); cbn [gen_mappings];
    rewrite insert_mapping_length; lia.
Qed.

Lemma concat_step_sources (offset : nat) (gen : GenMapping) (m : Mapping) :
  (∃ extra, gen_sources (concat_step offset gen m)
            = gen_sources gen ++ extra)
  ∧ ∀ source, m_source m = Some source → source ≠ "" →
              source ∈ gen_sources (concat_step offset gen m).
Proof.
  unfold concat_step, addMapping.
  destruct (m_source m) as [source|];
    [| split; [exists []; by rewrite app_nil_r | done]].
  destruct (String.eqb_spec source "") as [-> | Hne]; cbn [gen_sources].
  { split; [exists []; by rewrite app_nil_r |]. by intros ? [= <-]. }
  destruct (list_includes (gen_sources gen) source) eqn:Hknown.
  - split; [exists []; by rewrite app_nil_r |]. intros ? [= <-] _.
    unfold list_includes in Hknown.
    apply List.existsb_exists in Hknown as (x & Hx & ->%String.eqb_eq).
    by apply list_elem_of_In.
  - split; [by eexists |]. intros ? [= <-] _.
    apply elem_of_app. right. left.
Qed.

Lemma concat_fold_length (offset : nat) (ms : list Mapping) :
  ∀ gen,
    length (gen_mappings (fold_left (concat_step offset) ms gen))
    = length (gen_mappings gen) + length (List.filter has_source ms).
Proof.
  induction ms as [|m ms IH]; intros gen; cbn [fold_left List.filter].
  - cbn [length]. lia.
  - rewrite IH, concat_step_length.
    destruct (has_source m); cbn [length]; lia.
Qed.

Lemma concat_fold_sources (offset : nat) (ms : list Mapping) :
  ∀ gen,
    (∃ extra, gen_sources (fold_left (concat_step offset) ms gen)
              = gen_sources gen ++ extra)
    ∧ ∀ m source, m ∈ ms → m_source m = Some source → source ≠ "" →
                  source ∈ gen_sources (fold_left (concat_step offset) ms gen).
Proof.
  induction ms as [|m ms IH]; intros gen; cbn [fold_left].
  - split; [exists []; by rewrite app_nil_r |].
    by intros m source ?%elem_of_nil.
  - destruct (IH (concat_step offset gen m)) as [[extra Hextra] Hin].
    destruct (concat_step_sources offset gen m) as [[extra0 Hextra0] Hin0].
    split.
    + exists (extra0 ++ extra). by rewrite Hextra, Hextra0, app_assoc.
    + intros m' source [-> | Hm']%elem_of_cons Hsrc Hne.
      * rewrite Hextra. apply elem_of_app. left. by apply Hin0.
      * by apply (Hin m').
Qed.

(** X22. The concatenated map has the script map's entries plus one entry
    for each template entry that names a source, and no other; its source
    list begins with the script map's sources, in their order, and holds
    the (non-empty) source of every template entry. *)
Theorem concat_maps_size_and_sources
    (scriptCode : string) (scriptMap templateMap : RawSourceMap) :
  let merged := concat_maps scriptCode scriptMap templateMap in
  length (mappings merged)
  = length (mappings scriptMap)
    + length (List.filter has_source (mappings templateMap))
  ∧ (∃ extra, sources merged = sources scriptMap ++ extra)
  ∧ ∀ m source, m ∈ mappings templateMap → m_source m = Some source →
                source ≠ "" → source ∈ sources merged.
Proof.
  cbn zeta. unfold concat_maps, toEncodedMap, eachMapping.
  cbn [mappings sources].
  rewrite concat_fold_length.
  destruct (concat_fold_sources (map_offset scriptCode)
              (mappings templateMap) (fromMap scriptMap)) as [Hpre Hin].
  done.
Qed.

(** ** Type dependencies *)

(** X23. [handleTypeDepChange] returns the modules it was given, in their
    order, followed by one entry for each distinct script-or-main module of
    the affected components that the module graph knows (none when no
    component is affected), and invalidates the script of every affected
    component. *)
Theorem handleTypeDepChange_appends
    (g : ModuleGraph) (getModulesByFile : string → option (list ModuleNode))
    (affectedComponents : list string) (modules : list ModuleNode) :
  let result :=
    handleTypeDepChange g getModulesByFile affectedComponents modules in
  result.2 = affectedComponents
  ∧ (∃ affected,
       result.1 = List.map Some modules ++ affected
       ∧ NoDup affected
       ∧ (affectedComponents = [] → affected = [])
       ∧ ∀ x, x ∈ affected
              ↔ ∃ file arr,
                  file ∈ affectedComponents
                  ∧ getModulesByFile file = Some arr
                  ∧ x = or_module (getScriptModule g arr)
                          (getMainModule g arr)).
Proof.
  cbn zeta. unfold handleTypeDepChange. cbn [fst snd]. split; [done |].
  eexists. split; [reflexivity |].
  set (step := λ (affected : ModuleSet) file, _).
  assert (Hgen : ∀ files a0,
            NoDup a0 →
            NoDup (fold_left step files a0)
            ∧ ∀ x, x ∈ fold_left step files a0
                   ↔ x ∈ a0
                     ∨ ∃ file arr,
                         file ∈ files ∧ getModulesByFile file = Some arr
                         ∧ x = or_module (getScriptModule g arr)
                                 (getMainModule g arr)).
  { induction files as [|file files IH]; intros a0 Ha0; cbn [fold_left].
    - split; [done |]. intros x. split; [by left |].
      by intros [? | (file & arr & ?%elem_of_nil & _)].
    - assert (Hstep : NoDup (step a0 file)
                      ∧ ∀ x, x ∈ step a0 file
                             ↔ x ∈ a0
                               ∨ ∃ arr, getModulesByFile file = Some arr
                                        ∧ x = or_module
                                                (getScriptModule g arr)
                                                (getMainModule g arr)).
      { unfold step. destruct (getModulesByFile file) as [arr|].
        - unfold set_add, set_has.
          destruct (decide (or_module (getScriptModule g arr)
                              (getMainModule g arr) ∈ a0)) as [Hin | Hin];
            [rewrite bool_decide_eq_true_2 by done
            | rewrite bool_decide_eq_false_2 by done].
          + split; [done |]. intros x. split; [by left |].
            by intros [? | (arr' & [= <-] & ->)].
          + split.
            * apply NoDup_app. split; [done |].
              split; [| apply NoDup_singleton].
              by intros y Hy ->%list_elem_of_singleton.
            * intros x. rewrite elem_of_app, list_elem_of_singleton.
              split.
              -- intros [? | ->]; [by left | right; by eexists].
              -- intros [? | (arr' & [= <-] & ->)]; [by left | by right].
        - split; [done |]. intros x. split; [by left |].
          by intros [? | (arr & ? & _)]. }
      destruct Hstep as [Hnd Hstep].
      destruct (IH (step a0 file) Hnd) as [Hnd' Hin'].
      split; [done |]. intros x. rewrite Hin', Hstep. split.
      + intros [[? | (arr & Harr & ->)] | (file' & arr & Hf & Harr & ->)].
        * by left.
        * right. exists file, arr. split; [left | done].
        * right. exists file', arr. split; [by right | done].
      + intros [? | (file' & arr & [-> | Hf]%elem_of_cons & Harr & ->)].
        * by left; left.
        * left. right. by exists arr.
        * right. by exists file', arr. }
  destruct (Hgen affectedComponents [] (NoDup_nil_2)) as [Hnd Hin].
  split; [done |]. split; [by intros -> |].
  intros x. rewrite Hin. split.
  - by intros [?%elem_of_nil | ?].
  - by right.
Qed.

(** ** The script module and the main module *)

Lemma script_lang_re_includes (s : string) :
  script_lang_re s = true → includes s "type=script" = true.
Proof.
  induction s as [|c s IH].
  - cbn [script_lang_re includes]. rewrite !orb_false_r.
    by intros [? _]%andb_true_iff.
  - cbn [script_lang_re includes].
    intros [[Hhere _]%andb_true_iff | Hlater]%orb_true_iff.
    + by rewrite Hhere.
    + rewrite (IH Hlater). apply orb_true_r.
Qed.

Lemma getMainModule_candidate_bound (g : ModuleGraph)
    (modules : list ModuleNode) (m : ModuleNode) :
  m ∈ modules → is_main_candidate g m = true →
  ∃ mm, getMainModule g modules = Some mm
        ∧ url_length g mm ≤ url_length g m.
Proof.
  intros Hm Hcand. unfold getMainModule.
  change (λ m, negb (includes (url g m) "type=")
               || includes (url g m) "type=script")
    with (is_main_candidate g).
  assert (Hin : m ∈ List.filter (is_main_candidate g) modules).
  { apply list_elem_of_In, List.filter_In.
    split; [by apply list_elem_of_In | done]. }
  pose proof (sort_by_length_head_first g
                (List.filter (is_main_candidate g) modules)) as Hhead.
  destruct (head _) as [mm|].
  - exists mm. split; [done |].
    destruct Hhead as (l1 & l2 & Heq & Hl1 & Hl2). rewrite Heq in Hin.
    apply elem_of_app in Hin as [H1 | [-> | H2]%elem_of_cons].
    + apply Hl1 in H1. lia.
    + done.
    + by apply Hl2.
  - rewrite Hhead in Hin. by apply elem_of_nil in Hin.
Qed.

(** X24. A module [getScriptModule] answers with is one of the live
    modules, the first in their order whose URL matches, and its URL holds
    [type=script]; so [getMainModule] answers on the same modules too, with
    a module whose URL is no longer than the script module's. *)
Theorem getScriptModule_implies_main_module
    (g : ModuleGraph) (modules : list ModuleNode) (sm : ModuleNode)
    (Hsm : getScriptModule g modules = Some sm) :
  includes (url g sm) "type=script" = true
  ∧ (∃ l1 l2, modules = l1 ++ sm :: l2
              ∧ ∀ m, m ∈ l1 → script_lang_re (url g m) = false)
  ∧ ∃ mm, getMainModule g modules = Some mm
          ∧ url_length g mm ≤ url_length g sm.
Proof.
  unfold getScriptModule in Hsm.
  assert (Hfirst : ∃ l1 l2, modules = l1 ++ sm :: l2
                            ∧ script_lang_re (url g sm) = true
                            ∧ ∀ m, m ∈ l1 → script_lang_re (url g m) = false).
  { revert Hsm. induction modules as [|x r IH]; [done |].
    cbn [List.find]. destruct (script_lang_re (url g x)) eqn:Hx.
    - intros [= ->]. exists [], r. split; [done |]. split; [done |].
      by intros m ?%elem_of_nil.
    - intros (l1 & l2 & -> & Hre & Hl1)%IH. exists (x :: l1), l2.
      split; [done |]. split; [done |].
      intros m [-> | Hm]%elem_of_cons; [done | by apply Hl1]. }
  destruct Hfirst as (l1 & l2 & Heq & Hre & Hl1).
  pose proof (script_lang_re_includes _ Hre) as Hinc.
  split; [done |]. split; [by exists l1, l2 |].
  apply getMainModule_candidate_bound.
  - rewrite Heq. apply elem_of_app. right. left.
  - unfold is_main_candidate. rewrite Hinc. apply orb_true_r.
Qed.

(* ===================================================================== *)
(** * Part V: the further properties at concrete inputs                   *)
(* ===================================================================== *)

Lemma getDescriptor_frame_witness :
  "/src/Other.vue" ≠ demo_file
  ∧ prevCache (getDescriptor (H := demo_host no_resolved) demo_file
                 demo_options true false empty_caches).2
    = prevCache empty_caches.
Proof.
  assert (Hother : "/src/Other.vue" ≠ demo_file) by discriminate.
  split; [exact Hother |].
  apply (getDescriptor_frame (H := demo_host no_resolved) demo_file
           "/src/Other.vue" demo_options true false empty_caches Hother).
Defined.

Lemma isEqualBlock_symmetric_witness :
  let x := mk_block "style" "a{}" [("media", AttrStr "print")] in
  let y := mk_block "style" "b{}" [("media", AttrStr "print")] in
  block_keys_distinct (Some x) ∧ block_keys_distinct (Some y)
  ∧ isEqualBlock (Some x) (Some y) = isEqualBlock (Some y) (Some x).
Proof.
  cbn zeta.
  assert (Hx : block_keys_distinct
                 (Some (mk_block "style" "a{}" [("media", AttrStr "print")]))).
  { cbn [block_keys_distinct]. decide_by_compute. }
  assert (Hy : block_keys_distinct
                 (Some (mk_block "style" "b{}" [("media", AttrStr "print")]))).
  { cbn [block_keys_distinct]. decide_by_compute. }
  split; [exact Hx | split; [exact Hy |]].
  apply (isEqualBlock_symmetric _ _ Hx Hy).
Defined.

Lemma handleHotUpdate_forces_main_module_witness :
  let two := "<template>x</template><style>a{}</style><style>b{}</style>" in
  let one := "<template>x</template><style>a{}</style>" in
  hmrCache (styled_caches two) !! demo_file = Some (styled_prev two)
  ∧ getMainModule styled_graph [0; 1; 2] = Some 0
  ∧ ∃ l, returned (handleHotUpdate (H := styled_host) styled_graph demo_file
                     [0; 1; 2] one demo_options (styled_caches two))
         = Some l
         ∧ 0 ∈ l.
Proof.
  cbn zeta.
  assert (Hprev : hmrCache
                    (styled_caches
                       "<template>x</template><style>a{}</style><style>b{}</style>")
                    !! demo_file
                  = Some (styled_prev
                            "<template>x</template><style>a{}</style><style>b{}</style>"))
    by (vm_compute; reflexivity).
  assert (Hmain : getMainModule styled_graph [0; 1; 2] = Some 0)
    by reflexivity.
  split; [exact Hprev | split; [exact Hmain |]].
  destruct (handleHotUpdate_forces_main_module (H := styled_host)
              styled_graph demo_file [0; 1; 2]
              "<template>x</template><style>a{}</style>" demo_options
              _ _ 0 Hprev Hmain) as (l & Hl & Hin & _).
  { cbn zeta. right. right. left. vm_compute. lia. }
  exists l. split; [exact Hl | exact Hin].
Defined.

Lemma handleHotUpdate_unmatched_style_forces_main_witness :
  let old := "<template>x</template><style>a{}</style>" in
  let new := "<template>x</template><style>c{}</style>" in
  hmrCache (styled_caches old) !! demo_file = Some (styled_prev old)
  ∧ getMainModule styled_graph [0] = Some 0
  ∧ find_style_module styled_graph [0] 0 (mk_block "style" "c{}" []) = None
  ∧ ∃ l, returned (handleHotUpdate (H := styled_host) styled_graph demo_file
                     [0] new demo_options (styled_caches old))
         = Some l
         ∧ 0 ∈ l.
Proof.
  cbn zeta.
  assert (Hprev : hmrCache
                    (styled_caches "<template>x</template><style>a{}</style>")
                    !! demo_file
                  = Some (styled_prev
                            "<template>x</template><style>a{}</style>"))
    by (vm_compute; reflexivity).
  assert (Hmain : getMainModule styled_graph [0] = Some 0) by reflexivity.
  assert (Hfind : find_style_module styled_graph [0] 0
                    (mk_block "style" "c{}" []) = None) by reflexivity.
  split; [exact Hprev | split; [exact Hmain | split; [exact Hfind |]]].
  destruct (handleHotUpdate_unmatched_style_forces_main (H := styled_host)
              styled_graph demo_file [0]
              "<template>x</template><style>c{}</style>" demo_options
              _ _ 0 0 (mk_block "style" "c{}" []) Hprev Hmain)
    as (l & Hl & Hin & _).
  - reflexivity.
  - reflexivity.
  - rewrite Hfind. exact I.
  - exists l. split; [exact Hl | exact Hin].
Defined.

Lemma handleHotUpdate_unchanged_file_witness :
  let text := "<template>x</template><style>a{}</style>" in
  hmrCache (styled_caches text) !! demo_file = Some (styled_prev text)
  ∧ hasScriptChanged (H := styled_host) (styled_prev text) (styled_prev text)
    = false
  ∧ returned (handleHotUpdate (H := styled_host) styled_graph demo_file
                [0; 1] text demo_options (styled_caches text))
    = Some [].
Proof.
  cbn zeta.
  assert (Hprev : hmrCache
                    (styled_caches "<template>x</template><style>a{}</style>")
                    !! demo_file
                  = Some (styled_prev
                            "<template>x</template><style>a{}</style>"))
    by (vm_compute; reflexivity).
  assert (Hscript : hasScriptChanged (H := styled_host)
                      (styled_prev "<template>x</template><style>a{}</style>")
                      (styled_prev "<template>x</template><style>a{}</style>")
                    = false) by reflexivity.
  split; [exact Hprev | split; [exact Hscript |]].
  rewrite (handleHotUpdate_unchanged_file (H := styled_host) styled_graph
             demo_file [0; 1] "<template>x</template><style>a{}</style>"
             demo_options _ _ Hprev eq_refl Hscript).
  reflexivity.
Defined.

Lemma handleHotUpdate_only_template_changed_witness :
  let host := demo_host no_resolved in
  let st := demo_caches_template host in
  let prev :=
    descriptor (createDescriptor (H := host) demo_file
                  "<template>x</template>" demo_options true
                  empty_caches).1 in
  hmrCache st !! demo_file = Some prev
  ∧ isOnlyTemplateChanged (H := host) prev
      (descriptor (createDescriptor (H := host) demo_file
                     "<template>y</template>" demo_options true st).1)
    = true
  ∧ updateType (handleHotUpdate (H := host) demo_graph demo_file [0; 1]
                  "<template>y</template>" demo_options st)
    = ["template"].
Proof.
  cbn zeta.
  assert (Hprev : hmrCache (demo_caches_template (demo_host no_resolved))
                    !! demo_file
                  = Some (descriptor
                            (createDescriptor (H := demo_host no_resolved)
                               demo_file "<template>x</template>"
                               demo_options true empty_caches).1))
    by (vm_compute; reflexivity).
  assert (Honly : isOnlyTemplateChanged (H := demo_host no_resolved)
                    (descriptor
                       (createDescriptor (H := demo_host no_resolved)
                          demo_file "<template>x</template>" demo_options
                          true empty_caches).1)
                    (descriptor
                       (createDescriptor (H := demo_host no_resolved)
                          demo_file "<template>y</template>" demo_options
                          true
                          (demo_caches_template (demo_host no_resolved))).1)
                  = true) by reflexivity.
  split; [exact Hprev | split; [exact Honly |]].
  apply (handleHotUpdate_only_template_changed (H := demo_host no_resolved)
           demo_graph demo_file [0; 1] "<template>y</template>"
           demo_options _ _ Hprev Honly).
Defined.

Lemma handleHotUpdate_unseen_file_witness :
  hmrCache empty_caches !! demo_file = None
  ∧ returned (handleHotUpdate (H := demo_host no_resolved) demo_graph
                demo_file [0] "<template>y</template>" demo_options
                empty_caches)
    = None.
Proof.
  assert (Hmiss : hmrCache empty_caches !! demo_file = None) by reflexivity.
  split; [exact Hmiss |].
  rewrite (handleHotUpdate_unseen_file (H := demo_host no_resolved)
             demo_graph demo_file [0] "<template>y</template>"
             demo_options empty_caches Hmiss).
  reflexivity.
Defined.

Lemma styleRequest_found_by_handler_witness :
  let d := mk_descriptor demo_file None None [demo_style] in
  let g :=
    {| url := λ m, match m with
                   | 0 => "/src/App.vue"
                   | _ => styleRequest d 0 demo_style false
                   end;
       importers := λ _, [] |} in
  directRequestRE (url g 7) = false
  ∧ hmr_style_lang demo_style = style_lang demo_style
  ∧ includes (url g 0) ("type=style&index=" +:+ nat_to_string 0) = false
  ∧ find_style_module g [0; 7; 8] 0 demo_style = Some 7.
Proof.
  cbn zeta.
  set (g := {| url := λ m, match m with
                           | 0 => "/src/App.vue"
                           | _ => styleRequest
                                    (mk_descriptor demo_file None None
                                       [demo_style]) 0 demo_style false
                           end;
               importers := λ _, [] |}).
  assert (Hdirect : directRequestRE (url g 7) = false)
    by (vm_compute; reflexivity).
  assert (Hlang : hmr_style_lang demo_style = style_lang demo_style)
    by reflexivity.
  assert (Hmain : includes (url g 0)
                    ("type=style&index=" +:+ nat_to_string 0) = false)
    by (vm_compute; reflexivity).
  split; [exact Hdirect | split; [exact Hlang | split; [exact Hmain |]]].
  assert (Hearlier : ∀ m0, m0 ∈ [0] →
                           includes (url g m0)
                             ("type=style&index=" +:+ nat_to_string 0)
                           = false).
  { intros m0 Hm0. apply list_elem_of_singleton in Hm0. subst m0.
    exact Hmain. }
  destruct (styleRequest_found_by_handler
              (mk_descriptor demo_file None None [demo_style]) 0 demo_style
              false g [0] [8] 7 eq_refl Hdirect Hlang Hearlier)
    as (_ & _ & _ & Hfind).
  exact Hfind.
Defined.

Lemma scriptRequest_found_by_getScriptModule_witness :
  let extname := λ _ : string, ".ts" in
  let d := mk_descriptor demo_file (Some demo_script) None [] in
  let g := single_url_graph (scriptRequest extname d demo_script) in
  script_lang extname demo_script ≠ ""
  ∧ string_forall is_word_char (script_lang extname demo_script) = true
  ∧ ∃ m', getScriptModule g [3] = Some m'.
Proof.
  cbn zeta.
  assert (Hlang : script_lang (λ _ : string, ".ts") demo_script ≠ "")
    by (vm_compute; discriminate).
  assert (Hword : string_forall is_word_char
                    (script_lang (λ _ : string, ".ts") demo_script) = true)
    by reflexivity.
  split; [exact Hlang | split; [exact Hword |]].
  destruct (scriptRequest_found_by_getScriptModule
              (λ _ : string, ".ts")
              (mk_descriptor demo_file (Some demo_script) None [])
              demo_script
              (single_url_graph
                 (scriptRequest (λ _ : string, ".ts")
                    (mk_descriptor demo_file (Some demo_script) None [])
                    demo_script))
              [3] 3 (list_elem_of_here 3 []) eq_refl Hlang Hword)
    as (_ & _ & m' & Hget & _).
  exists m'. exact Hget.
Defined.

Lemma moduleRequest_inserts_before_extension_witness :
  moduleRequest "/src/App.vue?vue&type=style&index=0&lang.scss"
  = "/src/App.vue?vue&type=style&index=0&lang.module.scss"
  ∧ moduleRequest "/src/App.vue?vue&type=style&index=0&" 
    = "/src/App.vue?vue&type=style&index=0&".
Proof.
  assert (Hw : "scss" ≠ "") by discriminate.
  assert (Hword : string_forall is_word_char "scss" = true) by reflexivity.
  assert (Hc : is_word_char "&" = false) by reflexivity.
  pose proof (moduleRequest_inserts_before_extension
                "/src/App.vue?vue&type=style&index=0&lang" "scss" "&"
                Hw Hword Hc) as [Hext _].
  pose proof (moduleRequest_inserts_before_extension
                "/src/App.vue?vue&type=style&index=0" "scss" "&"
                Hw Hword Hc) as [_ Hkeep].
  split; [exact Hext | exact Hkeep].
Defined.

Lemma styleImport_module_request_witness :
  let d := mk_descriptor demo_file None None [demo_module_style] in
  module demo_module_style = Some AttrTrue
  ∧ attr_truthy AttrTrue = true
  ∧ style_lang demo_module_style ≠ ""
  ∧ string_forall is_word_char (style_lang demo_module_style) = true
  ∧ ∃ request,
      styleImport d 0 demo_module_style false
      = StyleImportModule request "$style"
      ∧ endsWith request ".scss" = true.
Proof.
  cbn zeta.
  assert (Hlang : style_lang demo_module_style ≠ "")
    by (vm_compute; discriminate).
  assert (Hword : string_forall is_word_char (style_lang demo_module_style)
                  = true) by reflexivity.
  split; [reflexivity | split; [reflexivity |]].
  split; [exact Hlang | split; [exact Hword |]].
  destruct (styleImport_module_request
              (mk_descriptor demo_file None None [demo_module_style]) 0
              demo_module_style AttrTrue eq_refl eq_refl Hlang Hword)
    as [(request & Himport & _ & _ & Hends) _].
  exists request. split; [exact Himport | exact Hends].
Defined.

Lemma stripQuery_drops_query_witness :
  no_char "?" "/dep/theme.css" = true
  ∧ stripQuery "/dep/theme.css?v=123" = "/dep/theme.css".
Proof.
  assert (Hpath : no_char "?" "/dep/theme.css" = true) by reflexivity.
  split; [exact Hpath |].
  apply (stripQuery_drops_query "/dep/theme.css" "v=123" Hpath eq_refl).
Defined.

Lemma setSrcDescriptor_owners_witness :
  let d1 := set_id (mk_descriptor "/src/A.vue" None None []) "aaaaaaaa" in
  let d2 := set_id (mk_descriptor "/src/B.vue" None None []) "bbbbbbbb" in
  let d0 := set_id (mk_descriptor "/src/C.vue" None None []) "cccccccc" in
  id d1 ≠ id d2
  ∧ getSrcDescriptor "/src/shared.css"
      {| q_src := Some "aaaaaaaa"; q_scoped := true; q_id := None |}
      (setSrcDescriptor "/src/shared.css" d2 true
         (setSrcDescriptor "/src/shared.css" d1 true
            (setSrcDescriptor "/src/shared.css" d0 false empty_caches)))
    = Some d1.
Proof.
  cbn zeta.
  assert (Hids :
            id (set_id (mk_descriptor "/src/A.vue" None None []) "aaaaaaaa")
            ≠ id (set_id (mk_descriptor "/src/B.vue" None None [])
                    "bbbbbbbb"))
    by (vm_compute; discriminate).
  split; [exact Hids |].
  apply (setSrcDescriptor_owners "/src/shared.css" _ _
           (set_id (mk_descriptor "/src/C.vue" None None []) "cccccccc")
           empty_caches Hids).
Defined.

Lemma linkSrcToDescriptor_resolved_with_query_witness :
  let resolve := λ _ _ : string, Some "/dep/theme.css?v=123" in
  let d := set_id (mk_descriptor "/src/A.vue" None None []) "aaaaaaaa" in
  let q := {| q_src := Some "aaaaaaaa"; q_scoped := true; q_id := None |} in
  no_char "?" "/dep/theme.css" = true
  ∧ getSrcDescriptor "/dep/theme.css" q
      (linkSrcToDescriptor resolve "dep/theme.css" d true empty_caches)
    = Some d.
Proof.
  cbn zeta.
  assert (Hpath : no_char "?" "/dep/theme.css" = true) by reflexivity.
  split; [exact Hpath |].
  apply (linkSrcToDescriptor_resolved_with_query
           (λ _ _ : string, Some "/dep/theme.css?v=123") "dep/theme.css"
           "/dep/theme.css" "v=123"
           (set_id (mk_descriptor "/src/A.vue" None None []) "aaaaaaaa")
           true empty_caches
           {| q_src := Some "aaaaaaaa"; q_scoped := true; q_id := None |}
           eq_refl Hpath eq_refl eq_refl (λ _, eq_refl)).
Defined.

Lemma getScriptModule_implies_main_module_witness :
  getScriptModule demo_resolved_graph [0; 1; 2] = Some 2
  ∧ ∃ mm, getMainModule demo_resolved_graph [0; 1; 2] = Some mm
          ∧ url_length demo_resolved_graph mm
            ≤ url_length demo_resolved_graph 2.
Proof.
  assert (Hsm : getScriptModule demo_resolved_graph [0; 1; 2] = Some 2)
    by reflexivity.
  split; [exact Hsm |].
  destruct (getScriptModule_implies_main_module demo_resolved_graph
              [0; 1; 2] 2 Hsm) as (_ & _ & Hmain).
  exact Hmain.
Defined.
